(** * The resource reservation engine of osmo-gsm-tester

    A shallow embedding of [src/osmo_gsm_tester/core/resource.py]: the
    allocation solver, the matcher, the [Resources] container, the
    per-handle active-use allocator and the pool with its persisted state,
    followed by the properties proved about them. *)

From Stdlib Require Import String Ascii.
From Stdlib Require Import DecimalString.
From Stdlib Require Import ZArith Bool Arith Lia List Permutation.
Import ListNotations.
Open Scope string_scope.
Open Scope list_scope.

Set Warnings "-register-all".

(** ** Python values

    Resource documents are read from YAML: scalars, lists and mappings.  A
    mapping keeps its insertion order, so it is an association list whose
    keys are unique. *)

Inductive value : Type :=
| VNone
| VBool (b : bool)
| VInt (z : Z)
| VStr (s : string)
| VList (l : list value)
| VDict (d : list (string * value)).

Inductive pytype : Type := TNone | TBool | TInt | TStr | TList | TDict.

Definition type_of (v : value) : pytype :=
  match v with
  | VNone => TNone
  | VBool _ => TBool
  | VInt _ => TInt
  | VStr _ => TStr
  | VList _ => TList
  | VDict _ => TDict
  end.

Definition pytype_eqb (a b : pytype) : bool :=
  match a, b with
  | TNone, TNone | TBool, TBool | TInt, TInt
  | TStr, TStr | TList, TList | TDict, TDict => true
  | _, _ => false
  end.

(** [bool(v)]: the truth value Python gives to [v] in [if v] / [not v]. *)
Definition truthy (v : value) : bool :=
  match v with
  | VNone => false
  | VBool b => b
  | VInt z => negb (Z.eqb z 0)
  | VStr s => negb (String.eqb s "")
  | VList l => match l with [] => false | _ => true end
  | VDict d => match d with [] => false | _ => true end
  end.

(** *** Dictionaries *)

Section Dict.
Context {V : Type}.

(** [d.get(k)] *)
Fixpoint dict_get (d : list (string * V)) (k : string) : option V :=
  match d with
  | [] => None
  | (k', v) :: d' => if String.eqb k' k then Some v else dict_get d' k
  end.

(** [d[k] = v]: an existing key keeps its place, a new key goes last. *)
Fixpoint dict_set (d : list (string * V)) (k : string) (v : V)
  : list (string * V) :=
  match d with
  | [] => [(k, v)]
  | (k', v') :: d' =>
      if String.eqb k' k then (k', v) :: d' else (k', v') :: dict_set d' k v
  end.

(** The dictionary without key [k] (the effect of [d.pop(k)] when [k] is
    present). *)
Fixpoint dict_remove (d : list (string * V)) (k : string)
  : list (string * V) :=
  match d with
  | [] => []
  | (k', v') :: d' =>
      if String.eqb k' k then dict_remove d' k
      else (k', v') :: dict_remove d' k
  end.

Definition dict_keys (d : list (string * V)) : list string := map fst d.
End Dict.

(** [a == b] on values.  [bool] is a subclass of [int] ([True == 1]);
    mappings compare regardless of key order. *)
Fixpoint py_eq (a b : value) {struct a} : bool :=
  match a with
  | VNone => match b with VNone => true | _ => false end
  | VBool x =>
      match b with
      | VBool y => Bool.eqb x y
      | VInt z => Z.eqb (if x then 1 else 0) z
      | _ => false
      end
  | VInt x =>
      match b with
      | VInt y => Z.eqb x y
      | VBool y => Z.eqb x (if y then 1 else 0)
      | _ => false
      end
  | VStr x => match b with VStr y => String.eqb x y | _ => false end
  | VList l1 =>
      match b with
      | VList l2 =>
          (fix go (l1 l2 : list value) {struct l1} : bool :=
             match l1, l2 with
             | [], [] => true
             | x :: l1', y :: l2' => py_eq x y && go l1' l2'
             | _, _ => false
             end) l1 l2
      | _ => false
      end
  | VDict d1 =>
      match b with
      | VDict d2 =>
          Nat.eqb (length d1) (length d2) &&
          (fix go (d : list (string * value)) {struct d} : bool :=
             match d with
             | [] => true
             | (k, v) :: d' =>
                 match dict_get d2 k with
                 | Some v2 => py_eq v v2
                 | None => false
                 end && go d'
             end) d1
      | _ => false
      end
  end.

(** [val in l] *)
Definition py_in (val : value) (l : list value) : bool :=
  existsb (fun x => py_eq x val) l.

(** Number of constructors of a value; bounds the depth of any traversal. *)
Fixpoint size (v : value) : nat :=
  match v with
  | VList l => S (fold_right (fun x acc => size x + acc) 0 l)
  | VDict d =>
      S (fold_right (fun kv acc => (let '(_, x) := kv in size x) + acc) 0 d)
  | _ => 1
  end.

(** [str(z)] *)
Definition py_str (z : Z) : string := NilZero.string_of_int (Z.to_int z).

(** ** Exceptions and results *)

(** A message is a format string cut at its directives, each directive
    paired with its argument. *)
Inductive piece : Type :=
| Lit (s : string)
| FmtD (n : Z)
| FmtS (s : string)
| FmtR (v : value).

Definition fmt : Type := list piece.

(** The text of a message; [repr] is Python's [repr] of a value. *)
Definition render (repr : value -> string) (msg : fmt) : string :=
  fold_right (fun p acc =>
                String.append
                  match p with
                  | Lit s => s
                  | FmtD n => py_str n
                  | FmtS s => s
                  | FmtR v => repr v
                  end acc)
             "" msg.

Inductive exn : Type :=
| RuntimeError (msg : fmt)
| NoResourceExn (msg : fmt)
| NotSolvable (msg : fmt)
| ValueError
| AttributeError
| AssertionError
| IndexError
| TypeError
| KeyError (key : string).

Inductive res (A : Type) : Type :=
| Ok (a : A)
| Raise (e : exn)
| OutOfFuel.

Arguments Ok {A} a.
Arguments Raise {A} e.
Arguments OutOfFuel {A}.

Definition bind {A B} (m : res A) (k : A -> res B) : res B :=
  match m with
  | Ok a => k a
  | Raise e => Raise e
  | OutOfFuel => OutOfFuel
  end.

Notation "x <- m ;; k" := (bind m (fun x => k))
  (at level 61, m at next level, right associativity).
Notation "' p <- m ;; k" := (bind m (fun x => let 'p := x in k))
  (at level 61, p pattern, m at next level, right associativity).

(** [for x in l: if not f(x): return False] followed by [return True]. *)
Fixpoint all_ok {A} (f : A -> res bool) (l : list A) : res bool :=
  match l with
  | [] => Ok true
  | x :: l' =>
      b <- f x ;;
      if b then all_ok f l' else Ok false
  end.

(** [for x in l: ...] threading a state, stopping at the first exception. *)
Fixpoint for_each {A S} (f : S -> A -> res S) (l : list A) (s : S) : res S :=
  match l with
  | [] => Ok s
  | x :: l' => s' <- f s x ;; for_each f l' s'
  end.

(** ** The allocation solver *)

Definition index_list_value (l : list nat) : value :=
  VList (map (fun i => VInt (Z.of_nat i)) l).

(** [all_differ] of [solve]: [len(set(l)) == len(l)]. *)
Definition all_differ (l : list nat) : bool :=
  Nat.eqb (length (nodup Nat.eq_dec l)) (length l).

(** The truth value of what [search_in_permutations] returns: [None] and
    the empty list are false. *)
Definition found (r : option (list nat)) : bool :=
  match r with
  | Some (_ :: _) => true
  | _ => false
  end.

(** [search_in_permutations]: [None] is Python's [None].  The recursion
    deepens by one slot per call; [fuel] bounds the depth. *)
Fixpoint search_in_permutations (fuel : nat) (all_matches : list (list nat))
    (fixed : list nat) : res (option (list nat)) :=
  match fuel with
  | O => OutOfFuel
  | S fuel' =>
      let idx := length fixed in
      match nth_error all_matches idx with
      | None => Raise IndexError
      | Some candidates =>
          (fix loop (cs : list nat) : res (option (list nat)) :=
             match cs with
             | [] => Ok None
             | val :: cs' =>
                 if existsb (Nat.eqb val) fixed then loop cs'
                 else
                   let l := fixed ++ [val] in
                   if Nat.eqb (length l) (length all_matches) then Ok (Some l)
                   else
                     r <- search_in_permutations fuel' all_matches l ;;
                     if found r then Ok r else loop cs'
             end) candidates
      end
  end.

Definition not_solvable_msg (all_matches : list (list nat)) : fmt :=
  [Lit "The requested resource requirements are not solvable ";
   FmtR (VList (map index_list_value all_matches))].

Definition solve (all_matches : list (list nat)) : res (list nat) :=
  match all_matches with
  | [] => Raise (RuntimeError [Lit "Cannot solve: no candidates"])
  | _ =>
      solution <- search_in_permutations (length all_matches) all_matches [] ;;
      match solution with
      | Some (x :: l) => Ok (x :: l)
      | _ => Raise (NotSolvable (not_solvable_msg all_matches))
      end
  end.

(** *** What the solver is specified to compute *)

(** A system of distinct representatives. *)
Definition is_assignment (candidate_lists : list (list nat)) (a : list nat) : Prop :=
  Forall2 (fun c x => In x c) candidate_lists a /\ NoDup a.

(** Every way of choosing one candidate per slot, in the order a depth-first
    search visits them: slots in input order, candidates in list order. *)
Fixpoint choices (candidate_lists : list (list nat)) : list (list nat) :=
  match candidate_lists with
  | [] => [[]]
  | c :: cs => flat_map (fun x => map (cons x) (choices cs)) c
  end.

Definition first_assignment (candidate_lists : list (list nat)) : option (list nat) :=
  List.find all_differ (choices candidate_lists).

(** ** The matcher *)

Definition HASH_KEY : string := "_hash".
Definition RESERVED_KEY : string := "_reserved_by".
Definition USED_KEY : string := "_used".

(** A resource item is a mapping; a [Resources] object maps a kind to the
    list of its items; a want maps a kind to a list of constraints. *)
Definition item : Type := list (string * value).
Definition Resources : Type := list (string * list item).
Definition Want : Type := list (string * list value).

(** Modelled from the spec: [util.list_validate_same_elem_type] is not part
    of the sources at hand.  [item_matches] calls it to "validate that all
    elements in both lists are of the same type" and takes the answer
    [None] to mean that the list is empty; a list of mixed types is refused
    with an exception. *)
Definition list_validate_same_elem_type (li : list value) : res (option pytype) :=
  match li with
  | [] => Ok None
  | x :: _ =>
      let t := type_of x in
      if forallb (fun elem => pytype_eqb (type_of elem) t) li
      then Ok (Some t) else Raise ValueError
  end.

(** Modelled from the spec: [util.empty_instance_type] is not part of the
    sources at hand.  It yields the empty instance of a structured type,
    which stands in for the elements a shorter list lacks. *)
Definition empty_instance_type (t : pytype) : res value :=
  match t with
  | TDict => Ok (VDict [])
  | TList => Ok (VList [])
  | _ => Raise ValueError
  end.

(** [t in (dict, list, tuple)] *)
Definition structured (t : pytype) : bool :=
  match t with
  | TDict | TList => true
  | _ => false
  end.

(** [l[i] if i < len(l) else util.empty_instance_type(t)] *)
Definition elem_or_empty (l : list value) (i : nat) (t : pytype) : res value :=
  match nth_error l i with
  | Some x => Ok x
  | None => empty_instance_type t
  end.

(** [ignore_keys and key in ignore_keys] *)
Definition ignored (ignore_keys : option (list string)) (key : string) : bool :=
  match ignore_keys with
  | Some ks => existsb (String.eqb key) ks
  | None => false
  end.

(** [item.get(key)]: an absent key reads as [None]. *)
Definition get_or_none (d : list (string * value)) (key : string) : value :=
  match dict_get d key with
  | Some v => v
  | None => VNone
  end.

(** [item_matches].  [util.is_dict] and [util.is_list] tell a mapping and
    a list from other values.  Each recursive call is on values strictly
    smaller in total [size]; [fuel] bounds the depth of the recursion. *)
Fixpoint item_matches_fuel (fuel : nat) (item wanted_item : value)
    (ignore_keys : option (list string)) : res bool :=
  match fuel with
  | O => OutOfFuel
  | S fuel' =>
      match wanted_item with
      | VDict wanted =>
          match item with
          | VDict d =>
              all_ok (fun kv : string * value =>
                        let '(key, wanted_val) := kv in
                        if ignored ignore_keys key then Ok true
                        else item_matches_fuel fuel' (get_or_none d key)
                               wanted_val ignore_keys)
                     wanted
          | _ => Ok false
          end
      | VList wanted =>
          match item with
          | VList l =>
              t <- list_validate_same_elem_type (wanted ++ l) ;;
              match t with
              | None => Ok true
              | Some t =>
                  if structured t then
                    all_ok (fun i =>
                              subitem <- elem_or_empty l i t ;;
                              wanted_subitem <- elem_or_empty wanted i t ;;
                              item_matches_fuel fuel' subitem wanted_subitem
                                ignore_keys)
                           (seq 0 (Nat.max (length wanted) (length l)))
                  else
                    all_ok (fun val => Ok (py_in val l)) wanted
              end
          | _ => Ok false
          end
      | _ => Ok (py_eq item wanted_item)
      end
  end.

Definition item_matches (item wanted_item : value)
    (ignore_keys : option (list string)) : res bool :=
  item_matches_fuel (size item + size wanted_item) item wanted_item ignore_keys.

(** [skip_if_marked and my_item.get(skip_if_marked)] *)
Definition marked (skip_if_marked : option string) (my_item : item) : bool :=
  match skip_if_marked with
  | Some k =>
      negb (String.eqb k "") &&
      match dict_get my_item k with
      | Some v => truthy v
      | None => false
      end
  | None => false
  end.

(** The inner loop of [find]: the indexes, from [i] on, of the items of
    [my_list] that are not skipped and match [want_item]. *)
Fixpoint item_match_list (i : nat) (my_list : list item) (want_item : value)
    (skip_if_marked : option string) : res (list nat) :=
  match my_list with
  | [] => Ok []
  | my_item :: rest =>
      if marked skip_if_marked my_item
      then item_match_list (S i) rest want_item skip_if_marked
      else
        b <- item_matches (VDict my_item) want_item None ;;
        more <- item_match_list (S i) rest want_item skip_if_marked ;;
        Ok (if b then i :: more else more)
  end.

Definition no_match_msg (key : string) (want_item : value) : fmt :=
  [Lit "No matching resource available for "; FmtS key; Lit " = ";
   FmtR want_item].

Definition not_resolved_msg (key : string) (want_list : list value) : fmt :=
  [Lit "Could not resolve request to reserve resources: ";
   FmtD (Z.of_nat (length want_list)); Lit " x "; FmtS key;
   Lit " with requirements: "; FmtR (VList want_list)].

(** The loop of [find] over [want_list], building [all_matches]; a slot
    without a match either raises or empties [all_matches] and stops. *)
Fixpoint collect_matches (key : string) (my_list : list item)
    (want_list : list value) (skip_if_marked : option string)
    (raise_if_missing : bool) (all_matches : list (list nat))
    : res (list (list nat)) :=
  match want_list with
  | [] => Ok all_matches
  | want_item :: rest =>
      item_match_list <- item_match_list 0 my_list want_item skip_if_marked ;;
      match item_match_list with
      | [] =>
          if raise_if_missing
          then Raise (NoResourceExn (no_match_msg key want_item))
          else Ok []
      | _ =>
          collect_matches key my_list rest skip_if_marked raise_if_missing
            (all_matches ++ [item_match_list])
      end
  end.

(** [try: solution = solve(all_matches) except NotSolvable: raise
    NoResourceExn(...)]; every other exception passes through. *)
Definition solve_or_no_resource (key : string) (want_list : list value)
    (all_matches : list (list nat)) : res (list nat) :=
  match solve all_matches with
  | Raise (NotSolvable _) =>
      Raise (NoResourceExn (not_resolved_msg key want_list))
  | r => r
  end.

(** What [find] settles for one kind: the indexes into [self.get(key, [])]
    of the items picked, one per wanted slot, or none at all when a slot
    found no match and [raise_if_missing] is off. *)
Definition find_solution (self : Resources) (key : string)
    (want_list : list value) (skip_if_marked : option string)
    (raise_if_missing : bool) : res (list nat) :=
  let my_list := match dict_get self key with Some l => l | None => [] end in
  all_matches <- collect_matches key my_list want_list skip_if_marked
                   raise_if_missing [] ;;
  match all_matches with
  | [] => Ok []
  | _ => solve_or_no_resource key want_list all_matches
  end.

(** [[ my_list[i] for i in solution ]].  A picked item is an object of
    [my_list]; the index it was taken from stands for its identity. *)
Fixpoint pick_items (my_list : list item) (solution : list nat)
    : res (list (nat * item)) :=
  match solution with
  | [] => Ok []
  | i :: rest =>
      match nth_error my_list i with
      | Some x => more <- pick_items my_list rest ;; Ok ((i, x) :: more)
      | None => Raise IndexError
      end
  end.

(** [sorted(want.items())]: keys are unique, so the order is that of the
    keys. *)
Fixpoint insert_sorted {V} (kv : string * V) (l : list (string * V))
    : list (string * V) :=
  match l with
  | [] => [kv]
  | kv' :: l' =>
      if String.leb (fst kv) (fst kv') then kv :: l
      else kv' :: insert_sorted kv l'
  end.

Definition sorted_items {V} (d : list (string * V)) : list (string * V) :=
  fold_right insert_sorted [] d.

(** The body of [Resources.find] up to its last line: [matches], whose
    lists hold objects of [self].  Logging is left out. *)
Definition find_matches (self : Resources) (want : Want)
    (skip_if_marked : option string) (raise_if_missing : bool)
    : res (list (string * list (nat * item))) :=
  for_each (fun matches (kw : string * list value) =>
              let '(key, want_list) := kw in
              let my_list :=
                match dict_get self key with Some l => l | None => [] end in
              solution <- find_solution self key want_list skip_if_marked
                            raise_if_missing ;;
              picked <- pick_items my_list solution ;;
              Ok (dict_set matches key picked))
           (sorted_items want) [].

(** [Resources.find] with [do_copy=True]: [Resources(matches)] is a deep
    copy, the picked items by value. *)
Definition find (self : Resources) (want : Want)
    (skip_if_marked : option string) (raise_if_missing : bool)
    : res Resources :=
  matches <- find_matches self want skip_if_marked raise_if_missing ;;
  Ok (map (fun kl : string * list (nat * item) =>
             (fst kl, map snd (snd kl))) matches).

(** ** The [Resources] container *)

(** What Python's [is] tells [drop] about its argument: whether [reserved]
    is the receiver itself, and for which kinds the list held by [reserved]
    is the very list object the receiver holds. *)
Record aliasing : Type := {
  same_object : bool;
  same_list : string -> bool
}.

Definition no_aliasing : aliasing :=
  {| same_object := false; same_list := fun _ => false |}.

Definition refuse_drop_self_msg : fmt :=
  [Lit "Refusing to drop a list of resources from itself. This is probably a bug where a list of Resources() should have been copied but is passed as-is. use Resources.clear() instead."].

Definition unhashed_msg : fmt :=
  [Lit "Resources.drop() only works with hashed items"].

Definition not_found_msg (key : string) (reserved_item : item) : fmt :=
  [Lit "Asked to drop resource from a pool, but the resource was not found: ";
   FmtS key; Lit " = "; FmtR (VDict reserved_item)].

(** The innermost loop of [drop]: pop the first item of [my_list] whose
    hash equals [reserved_hash]; the flag is [found]. *)
Fixpoint drop_hash (my_list : list item) (reserved_hash : value)
    : res (bool * list item) :=
  match my_list with
  | [] => Ok (false, [])
  | my_item :: rest =>
      let my_hash := get_or_none my_item HASH_KEY in
      if negb (truthy my_hash) then Raise (RuntimeError unhashed_msg)
      else if py_eq my_hash reserved_hash then Ok (true, rest)
      else
        '(found, rest') <- drop_hash rest reserved_hash ;;
        Ok (found, my_item :: rest')
  end.

(** The loop of [drop] over [reserved_list]. *)
Definition drop_list (key : string) (my_list reserved_list : list item)
    (fail_if_not_found : bool) : res (list item) :=
  for_each (fun my_list reserved_item =>
              let reserved_hash := get_or_none reserved_item HASH_KEY in
              if negb (truthy reserved_hash)
              then Raise (RuntimeError unhashed_msg)
              else
                '(found, my_list') <- drop_hash my_list reserved_hash ;;
                if fail_if_not_found && negb found
                then Raise (RuntimeError (not_found_msg key reserved_item))
                else Ok my_list')
           reserved_list my_list.

(** [self.pop(key)] *)
Definition dict_pop {V} (d : list (string * V)) (key : string)
    : res (list (string * V)) :=
  match dict_get d key with
  | Some _ => Ok (dict_remove d key)
  | None => Raise (KeyError key)
  end.

(** The body of the loop of [drop] over [reserved.items()].  [my_list] is
    the receiver's own list, mutated in place, unless that list is missing
    or empty: then it is a fresh one. *)
Definition drop_key (self : Resources) (al : aliasing)
    (fail_if_not_found : bool) (key : string) (reserved_list : list item)
    : res Resources :=
  match dict_get self key with
  | Some (x :: l) =>
      if same_list al key then dict_pop self key
      else
        my_list <- drop_list key (x :: l) reserved_list fail_if_not_found ;;
        match my_list with
        | [] => dict_pop self key
        | _ => Ok (dict_set self key my_list)
        end
  | _ =>
      my_list <- drop_list key [] reserved_list fail_if_not_found ;;
      match my_list with
      | [] => dict_pop self key
      | _ => Ok self
      end
  end.

(** [Resources.drop] *)
Definition drop (self reserved : Resources) (al : aliasing)
    (fail_if_not_found : bool) : res Resources :=
  if same_object al then Raise (RuntimeError refuse_drop_self_msg)
  else
    for_each (fun (self : Resources) (kl : string * list item) =>
                drop_key self al fail_if_not_found (fst kl) (snd kl))
             reserved self.

(** [Resources.without]: the receiver of [drop] is a fresh deep copy, which
    shares nothing with [reserved]. *)
Definition without (self reserved : Resources) : res Resources :=
  drop self reserved no_aliasing true.

(** Modelled from the spec: [schema.add] is not part of the sources at
    hand.  [Resources.add] uses it to append the items of [more], kind by
    kind, to the receiver ("append them to the Record"); a kind the
    receiver lacks is entered with the list of [more]. *)
Definition schema_add (dest src : Resources) : Resources :=
  fold_left (fun (dest : Resources) (kl : string * list item) =>
               let '(key, val) := kl in
               match dict_get dest key with
               | None => dict_set dest key val
               | Some l => dict_set dest key (l ++ val)
               end)
            src dest.

(** [Resources.add]; [is_self] tells whether [more is self]. *)
Definition add (self more : Resources) (is_self : bool) : res Resources :=
  if is_self
  then Raise (RuntimeError [Lit "adding a list of resources to itself?"])
  else Ok (schema_add self more).

Definition mark_reserved_by (self : Resources) (origin_id : string)
    : Resources :=
  map (fun kl : string * list item =>
         (fst kl,
          map (fun it : item => dict_set it RESERVED_KEY (VStr origin_id))
              (snd kl)))
      self.

(** ** [ReservedResources]: the active-use allocator of one handle *)

(** [reserved_original] is what the pool granted ([None] once freed);
    [reserved] is the handle's own copy, with the modifiers overlaid, in
    which [get] and [put] keep the [_used] markers. *)
Record ReservedResources : Type := {
  origin : string;
  reserved_original : option Resources;
  reserved : Resources
}.

Definition none_matches_msg (specifics : value) : fmt :=
  [Lit "none of the reserved resources matches requirements "; FmtR specifics].

Definition reserved_only_msg (n : nat) (kind : string) : fmt :=
  [Lit "suite.conf reserved only "; FmtD (Z.of_nat n); Lit " x ";
   FmtR (VStr kind); Lit "."].

Definition all_in_use_msg (n : nat) (kind : string) (m : nat)
    (specifics : value) : fmt :=
  [Lit "No unused resource left that matches the requirements; Of reserved ";
   FmtD (Z.of_nat n); Lit " x "; FmtR (VStr kind); Lit ", ";
   FmtD (Z.of_nat m);
   Lit " match the requirements, but all are already in use; Requirements: ";
   FmtR specifics].

Definition when_trying_msg (nr : nat) (kind : string) (msg : fmt) : fmt :=
  [Lit "When trying to use instance nr "; FmtD (Z.of_nat nr); Lit " of ";
   FmtR (VStr kind); Lit ": "] ++ msg.

(** [USED_KEY in r] *)
Definition has_key (r : item) (k : string) : bool :=
  match dict_get r k with Some _ => true | None => false end.

(** The failure branch of [ReservedResources.get]: the message for the
    situation at hand. *)
Definition get_failure (self : ReservedResources) (kind : string)
    (specifics : value) : res exn :=
  let want := [(kind, [specifics])] in
  let kind_reserved :=
    match dict_get (reserved self) kind with Some l => l | None => [] end in
  let used_count :=
    length (filter (fun r => has_key r USED_KEY) kind_reserved) in
  found <- find (reserved self) want None false ;;
  let matching :=
    match dict_get found kind with Some l => l | None => [] end in
  let msg :=
    match matching with
    | [] => none_matches_msg specifics
    | _ =>
        if negb (Nat.ltb used_count (length kind_reserved))
        then reserved_only_msg (length kind_reserved) kind
        else all_in_use_msg (length kind_reserved) kind (length matching)
               specifics
    end in
  Ok (NoResourceExn (when_trying_msg (used_count + 1) kind msg)).

(** [l[i] = x] for a list the caller knows to hold index [i]. *)
Fixpoint list_set {A} (l : list A) (i : nat) (x : A) : list A :=
  match l, i with
  | [], _ => []
  | _ :: l', O => x :: l'
  | y :: l', S i' => y :: list_set l' i' x
  end.

(** [ReservedResources.get].  [find] runs with [do_copy=False], so [pick]
    is an object of [self.reserved]: marking it marks the handle's record.
    The caller receives a deep copy. *)
Definition get (self : ReservedResources) (kind : string)
    (specifics : option value) : res (ReservedResources * item) :=
  let specifics := match specifics with Some s => s | None => VDict [] end in
  let want := [(kind, [specifics])] in
  available_dict <- find_matches (reserved self) want (Some USED_KEY) false ;;
  match dict_get available_dict kind with
  | None => Raise TypeError
  | Some [] =>
      e <- get_failure self kind specifics ;;
      Raise e
  | Some ((i, pick) :: _) =>
      if truthy (get_or_none pick USED_KEY) then Raise AssertionError
      else
        let pick := dict_set pick USED_KEY (VBool true) in
        let kind_reserved :=
          match dict_get (reserved self) kind with
          | Some l => l
          | None => []
          end in
        Ok ({| origin := origin self;
               reserved_original := reserved_original self;
               reserved :=
                 dict_set (reserved self) kind (list_set kind_reserved i pick)
             |},
            pick)
  end.

(** [for x in v]: a mapping yields its keys. *)
Definition py_iter (v : value) : res (list value) :=
  match v with
  | VList l => Ok l
  | VDict d => Ok (map (fun kv : string * value => VStr (fst kv)) d)
  | VStr s => Ok (map (fun c => VStr (String c EmptyString)) (list_ascii_of_string s))
  | _ => Raise TypeError
  end.

(** [v.get(k)]: only a mapping has the method. *)
Definition py_get (v : value) (k : string) : res value :=
  match v with
  | VDict d => Ok (get_or_none d k)
  | _ => Raise AttributeError
  end.

(** [v.pop(k)], for its exceptions: the object popped from is a copy the
    handle does not hold. *)
Definition py_pop (v : value) (k : string) : res unit :=
  match v with
  | VDict d =>
      match dict_get d k with
      | Some _ => Ok tt
      | None => Raise (KeyError k)
      end
  | _ => Raise AttributeError
  end.

(** [ReservedResources.put].  [my_list = self.get(key)] calls the [get]
    above, with [key] as the kind and no specifics: it draws one more item
    and returns a deep copy of it, a mapping. *)
Definition put (self : ReservedResources) (item : item)
    : res ReservedResources :=
  if negb (truthy (get_or_none item USED_KEY))
  then Raise (RuntimeError
                [Lit "Can only put() a resource that is used: ";
                 FmtR (VDict item)])
  else
    let hash_to_put := get_or_none item HASH_KEY in
    if negb (truthy hash_to_put)
    then Raise (RuntimeError
                  [Lit "Can only put() a resource that has a hash marker: ";
                   FmtR (VDict item)])
    else
      for_each (fun (self : ReservedResources) (kl : string * list _) =>
                  let key := fst kl in
                  '(self, my_list) <- get self key None ;;
                  elems <- py_iter (VDict my_list) ;;
                  _ <- for_each (fun (_ : unit) my_item =>
                                   my_hash <- py_get my_item HASH_KEY ;;
                                   if py_eq hash_to_put my_hash
                                   then py_pop my_item USED_KEY
                                   else Ok tt)
                                elems tt ;;
                  Ok self)
               (reserved self) self.

(** [ReservedResources.put_all] *)
Definition put_all (self : ReservedResources) : ReservedResources :=
  {| origin := origin self;
     reserved_original := reserved_original self;
     reserved :=
       map (fun kl : string * list item =>
              (fst kl, map (fun it : item => dict_remove it USED_KEY) (snd kl)))
           (reserved self) |}.

Definition count (self : ReservedResources) (key : string) : nat :=
  match dict_get (reserved self) key with
  | Some l => length l
  | None => 0
  end.

Definition counts (self : ReservedResources) : list (string * nat) :=
  map (fun kl : string * list item => (fst kl, count self (fst kl)))
      (reserved self).

(** ** [ResourcesPool] *)

(** The pool object together with its state directory: the reservation
    record [reserved_resources.state] (absent, or a document that reads
    back as it was written) and the files [last_used_<token>.state]. *)
Record ResourcesPool : Type := {
  all_resources : Resources;
  rrfile : option Resources;
  token_files : list (string * string);
  _remember_to_free : option Resources;
  _registered_exit_handler : bool
}.

Section Hashing.
(** [util.hash_obj(item, HASH_KEY, RESERVED_KEY, USED_KEY)] is not part of
    the sources at hand: the fingerprint of an item, a string. *)
Variable hash_obj : item -> string.

(** [Resources.set_hashes] *)
Definition set_hashes (self : Resources) : Resources :=
  map (fun kl : string * list item =>
         (fst kl,
          map (fun it : item => dict_set it HASH_KEY (VStr (hash_obj it)))
              (snd kl)))
      self.

(** [ResourcesPool.read_conf], from the resources configuration as read. *)
Definition read_conf (conf : Resources) : ResourcesPool :=
  {| all_resources := set_hashes conf;
     rrfile := None;
     token_files := [];
     _remember_to_free := None;
     _registered_exit_handler := false |}.
End Hashing.

(** [Resources(config.read(rrfile_path, if_missing_return={}))] *)
Definition read_reserved (rrfile : option Resources) : Resources :=
  match rrfile with
  | Some r => r
  | None => []
  end.

(** The decision [reserve] takes under the lock: from the record read, the
    record to write and the items granted. *)
Definition reserve_decision (all_resources reserved : Resources)
    (origin_id : string) (want : Want) : res (Resources * Resources) :=
  available <- without all_resources reserved ;;
  to_be_reserved <- find available want None true ;;
  let to_be_reserved := mark_reserved_by to_be_reserved origin_id in
  reserved <- add reserved to_be_reserved false ;;
  Ok (reserved, to_be_reserved).

(** [not r] for an attribute holding [None] or a [Resources]. *)
Definition falsy (r : option Resources) : bool :=
  match r with
  | Some (_ :: _) => false
  | _ => true
  end.

Definition remember_to_free (self : ResourcesPool) (to_be_reserved : Resources)
    : res ResourcesPool :=
  let remembered :=
    if falsy (_remember_to_free self) then []
    else read_reserved (_remember_to_free self) in
  remembered <- add remembered to_be_reserved false ;;
  Ok {| all_resources := all_resources self;
        rrfile := rrfile self;
        token_files := token_files self;
        _remember_to_free := Some remembered;
        _registered_exit_handler := true |}.

(** [forget_freed]; [is_remembered] tells whether
    [freed is self._remember_to_free]. *)
Definition forget_freed (self : ResourcesPool) (freed : Resources)
    (is_remembered : bool) : res ResourcesPool :=
  match _remember_to_free self with
  | None => Raise AttributeError
  | Some remembered =>
      remembered <- (if is_remembered then Ok []
                     else drop remembered freed no_aliasing true) ;;
      Ok {| all_resources := all_resources self;
            rrfile := rrfile self;
            token_files := token_files self;
            _remember_to_free := Some remembered;
            _registered_exit_handler :=
              match remembered with
              | [] => false
              | _ => _registered_exit_handler self
              end |}
  end.

(** [ResourcesPool.free]: the record read from the file is a fresh object. *)
Definition pool_free (self : ResourcesPool) (to_be_freed : Resources)
    (is_remembered : bool) : res ResourcesPool :=
  reserved <- drop (read_reserved (rrfile self)) to_be_freed no_aliasing true ;;
  forget_freed {| all_resources := all_resources self;
                  rrfile := Some reserved;
                  token_files := token_files self;
                  _remember_to_free := _remember_to_free self;
                  _registered_exit_handler := _registered_exit_handler self |}
               to_be_freed is_remembered.

Definition clean_up_registered_resources (self : ResourcesPool)
    : res ResourcesPool :=
  if falsy (_remember_to_free self) then Ok self
  else pool_free self (read_reserved (_remember_to_free self)) true.

(** [ReservedResources.free] *)
Definition free (pool : ResourcesPool) (self : ReservedResources)
    : res (ResourcesPool * ReservedResources) :=
  pool <- (if falsy (reserved_original self) then Ok pool
           else pool_free pool (read_reserved (reserved_original self)) false) ;;
  Ok (pool, {| origin := origin self;
               reserved_original := None;
               reserved := reserved self |}).

Section Reserve.
(** [schema.validate(_, schema.get_resources_schema())] and
    [config.overlay] are not part of the sources at hand; [reserve] is
    modelled for any behaviour of theirs. *)
Variable schema_validate : Want -> res unit.
Variable overlay : Resources -> Want -> res Resources.

(** [ReservedResources.__init__] *)
Definition new_ReservedResources (origin : string) (reserved : Resources)
    (modifiers : Want) : res ReservedResources :=
  overlaid <- overlay reserved modifiers ;;
  Ok {| origin := origin;
        reserved_original := Some reserved;
        reserved := overlaid |}.

(** [ResourcesPool.reserve]; [origin] is [origin.origin_id()]. *)
Definition reserve (self : ResourcesPool) (origin : string)
    (want modifiers : Want) : res (ResourcesPool * ReservedResources) :=
  _ <- schema_validate want ;;
  _ <- schema_validate modifiers ;;
  '(reserved, to_be_reserved) <-
    reserve_decision (all_resources self) (read_reserved (rrfile self))
      origin want ;;
  let self := {| all_resources := all_resources self;
                 rrfile := Some reserved;
                 token_files := token_files self;
                 _remember_to_free := _remember_to_free self;
                 _registered_exit_handler := _registered_exit_handler self |} in
  self <- remember_to_free self to_be_reserved ;;
  handle <- new_ReservedResources origin to_be_reserved modifiers ;;
  Ok (self, handle).
End Reserve.

(** *** Persistent counters *)

(** A string of the model is a Python [str] whose code points lie below
    256, one character per code point; the text of a state file is what
    [f.read()] returns for it. *)

(** [c.isspace()], the blanks [str.strip()] removes: tab to carriage
    return, the separators U+001C to U+001F, the space, NEL (U+0085) and
    the no-break space (U+00A0). *)
Definition is_space (c : ascii) : bool :=
  let n := nat_of_ascii c in
  Nat.eqb n 32 || (Nat.leb 9 n && Nat.leb n 13)
  || (Nat.leb 28 n && Nat.leb n 31) || Nat.eqb n 133 || Nat.eqb n 160.

Fixpoint lstrip (s : list ascii) : list ascii :=
  match s with
  | c :: s' => if is_space c then lstrip s' else s
  | [] => []
  end.

(** [s.strip()] *)
Definition strip (s : string) : string :=
  string_of_list_ascii
    (rev (lstrip (rev (lstrip (list_ascii_of_string s))))).

Definition digit_of (c : ascii) : option Z :=
  let n := nat_of_ascii c in
  if Nat.leb 48 n && Nat.leb n 57 then Some (Z.of_nat (n - 48)) else None.

(** The blanks [int()] skips around a numeral: tab to carriage return and
    the space, and the blanks above U+007F, which [int()] reads as spaces;
    U+001C to U+001F are no blanks to it. *)
Definition int_space (c : ascii) : bool :=
  let n := nat_of_ascii c in
  Nat.eqb n 32 || (Nat.leb 9 n && Nat.leb n 13)
  || Nat.eqb n 133 || Nat.eqb n 160.

Fixpoint int_lstrip (s : list ascii) : list ascii :=
  match s with
  | c :: s' => if int_space c then int_lstrip s' else s
  | [] => []
  end.

(** The digits of a decimal numeral, single underscores allowed between
    digits: the value read and what follows the numeral.  [after_digit]
    tells whether the character before was a digit. *)
Fixpoint digits_value (acc : Z) (after_digit : bool) (s : list ascii)
    : option (Z * list ascii) :=
  match s with
  | [] => if after_digit then Some (acc, []) else None
  | c :: s' =>
      match digit_of c with
      | Some d => digits_value (10 * acc + d) true s'
      | None =>
          if Ascii.eqb c "_"
          then if after_digit then digits_value acc false s' else None
          else if after_digit then Some (acc, s) else None
      end
  end.

(** [int(s)] for a string: blanks, an optional sign, decimal digits in
    groups joined by single underscores, blanks; anything else is a
    [ValueError].  The interpreter's cap on the length of a numeral (4300
    digits where it is in force) is not part of the model. *)
Definition py_int (s : string) : res Z :=
  let numeral (negative : bool) (l : list ascii) : res Z :=
    match digits_value 0 false l with
    | Some (z, rest) =>
        match int_lstrip rest with
        | [] => Ok (if negative then Z.opp z else z)
        | _ => Raise ValueError
        end
    | None => Raise ValueError
    end in
  match int_lstrip (list_ascii_of_string s) with
  | [] => Raise ValueError
  | c :: l' =>
      if Ascii.eqb c "-" then numeral true l'
      else if Ascii.eqb c "+" then numeral false l'
      else numeral false (c :: l')
  end.

(** Modelled from the spec: [schema.uint8] and [schema.uint16] are not part
    of the sources at hand; they accept the numerals of an unsigned integer
    of that width and raise on anything else. *)
Definition schema_uint (bits : Z) (val : string) : res unit :=
  n <- py_int val ;;
  if (Z.leb 0 n && Z.ltb n (2 ^ bits))%bool then Ok tt else Raise ValueError.

Definition schema_uint8 : string -> res unit := schema_uint 8.
Definition schema_uint16 : string -> res unit := schema_uint 16.

Definition token_path (token : string) : string :=
  String.append "last_used_" (String.append token ".state").

(** [next_persistent_value].  The state directory holds plain files only;
    [origin] only names the lock. *)
Definition next_persistent_value (self : ResourcesPool) (token first_val : string)
    (validate_func : string -> res unit) (inc_func : string -> res string)
    : res (ResourcesPool * string) :=
  let path := token_path token in
  last_value <-
    match dict_get (token_files self) path with
    | Some content =>
        let last_value := strip content in
        _ <- validate_func last_value ;;
        Ok last_value
    | None => Ok first_val
    end ;;
  next_value <- inc_func last_value ;;
  Ok ({| all_resources := all_resources self;
         rrfile := rrfile self;
         token_files := dict_set (token_files self) path next_value;
         _remember_to_free := _remember_to_free self;
         _registered_exit_handler := _registered_exit_handler self |},
      next_value).

Section Msisdn.
(** [schema.msisdn] and [util.msisdn_inc] are not part of the sources at
    hand. *)
Variable schema_msisdn : string -> res unit.
Variable msisdn_inc : string -> res string.

Definition next_msisdn (self : ResourcesPool) : res (ResourcesPool * string) :=
  next_persistent_value self "msisdn" "1000" schema_msisdn msisdn_inc.
End Msisdn.

Definition next_lac (self : ResourcesPool) : res (ResourcesPool * string) :=
  next_persistent_value self "lac" "1" schema_uint16
    (fun x => n <- py_int x ;;
              let m := ((n + 1) mod 2 ^ 16)%Z in
              Ok (py_str (if Z.eqb m 0 then 1 else m))).

Definition next_rac (self : ResourcesPool) : res (ResourcesPool * string) :=
  next_persistent_value self "rac" "1" schema_uint8
    (fun x => n <- py_int x ;;
              let m := ((n + 1) mod 2 ^ 8)%Z in
              Ok (py_str (if Z.eqb m 0 then 1 else m))).

Definition next_cellid (self : ResourcesPool) : res (ResourcesPool * string) :=
  next_persistent_value self "cellid" "1" schema_uint16
    (fun x => n <- py_int x ;; Ok (py_str ((n + 1) mod 2 ^ 16)%Z)).

Definition next_bvci (self : ResourcesPool) : res (ResourcesPool * string) :=
  next_persistent_value self "bvci" "2" schema_uint16
    (fun x => n <- py_int x ;;
              if Z.ltb n (2 ^ 16 - 1) then Ok (py_str (n + 1)) else Ok "2").

Definition next_zmq_port_range (self : ResourcesPool) (num_ports : Z)
    : res (ResourcesPool * Z) :=
  let num_ports :=
    if Z.eqb (num_ports mod 2) 0 then num_ports else (num_ports + 1)%Z in
  '(self, base_port) <-
    next_persistent_value self "bvci" "2000" schema_uint16
      (fun x => n <- py_int x ;;
                if Z.ltb n (2200 - num_ports) then Ok (py_str (n + num_ports))
                else Ok "2000") ;;
  base_port <- py_int base_port ;;
  Ok (self, base_port).

(** ** Concurrent callers of [reserve] *)


(** Where a process stands in [reserve], between the steps other processes
    can observe: taking the lock, reading the state file, writing it,
    releasing the lock. *)
Inductive stage : Type :=
| Calling
| Locked
| Decided (reserved to_be_reserved : Resources)
| Written (to_be_reserved : Resources)
| Returned (to_be_reserved : Resources)
| Failed (e : exn).

Record process : Type := {
  p_origin_id : string;
  p_want : Want;
  p_stage : stage
}.

(** The processes of a host around one state directory: the catalog they
    all loaded, the state file, the lock files currently held. *)
Record world : Type := {
  w_all_resources : Resources;
  w_rrfile : option Resources;
  w_locks : list string;
  w_processes : list process
}.

Definition at_stage (p : process) (s : stage) : process :=
  {| p_origin_id := p_origin_id p; p_want := p_want p; p_stage := s |}.

Definition release (lock : string) (locks : list string) : list string :=
  filter (fun l => negb (String.eqb l lock)) locks.

Section Steps.
(** The lock file a caller's identity selects. *)
Variable lock_of : string -> string.

(** One step of process [i]; [None] when it cannot move: it waits for
    its lock, or it is done. *)
Definition step (w : world) (i : nat) : option world :=
  match nth_error (w_processes w) i with
  | None => None
  | Some p =>
      let lock := lock_of (p_origin_id p) in
      let update rrfile locks s :=
        Some {| w_all_resources := w_all_resources w;
                w_rrfile := rrfile;
                w_locks := locks;
                w_processes := list_set (w_processes w) i (at_stage p s) |} in
      match p_stage p with
      | Calling =>
          if existsb (String.eqb lock) (w_locks w) then None
          else update (w_rrfile w) (lock :: w_locks w) Locked
      | Locked =>
          match reserve_decision (w_all_resources w)
                  (read_reserved (w_rrfile w)) (p_origin_id p) (p_want p) with
          | Ok (reserved, to_be_reserved) =>
              update (w_rrfile w) (w_locks w) (Decided reserved to_be_reserved)
          | Raise e => update (w_rrfile w) (release lock (w_locks w)) (Failed e)
          | OutOfFuel => None
          end
      | Decided reserved to_be_reserved =>
          update (Some reserved) (w_locks w) (Written to_be_reserved)
      | Written to_be_reserved =>
          update (w_rrfile w) (release lock (w_locks w))
            (Returned to_be_reserved)
      | Returned _ | Failed _ => None
      end
  end.

(** An interleaving: the processes move in the order of [schedule]. *)
Fixpoint run (schedule : list nat) (w : world) : option world :=
  match schedule with
  | [] => Some w
  | i :: rest =>
      match step w i with
      | Some w' => run rest w'
      | None => None
      end
  end.
End Steps.

(** ** Vocabulary of the properties *)

(** The exceptions [find] can end in: those of the helpers of
    [item_matches], its own [NoResourceExn], and what [solve] raises other
    than [NotSolvable]. *)
Definition find_exn (e : exn) : Prop :=
  match e with
  | ValueError | IndexError | RuntimeError _ | NoResourceExn _ => True
  | _ => False
  end.

(** Whatever [r] raises satisfies [P]. *)
Definition raises_within {A} (P : exn -> Prop) (r : res A) : Prop :=
  forall e, r = Raise e -> P e.

(** [r] ends in the solver's [NotSolvable]. *)
Definition unsolvable_escapes {A} (r : res A) : Prop :=
  exists m, r = Raise (NotSolvable m).

(** Index [i] of [my_list] holds an item that [find] does not skip. *)
Definition unmarked_at (my_list : list item) (skip : option string) (i : nat)
  : Prop :=
  exists it, nth_error my_list i = Some it /\ marked skip it = false.

(** [item.get(HASH_KEY)] *)
Definition hash_of (it : item) : value := get_or_none it HASH_KEY.

(** The hashes of a list of items, in order and with repetitions. *)
Definition hashes (l : list item) : list value := map hash_of l.

(** [self.get(key, [])] *)
Definition items_of (r : Resources) (key : string) : list item :=
  match dict_get r key with
  | Some l => l
  | None => []
  end.

(** The hash [set_hashes] stamps on an item: a non-empty string. *)
Definition str_hashed (it : item) : Prop :=
  exists s, hash_of it = VStr s /\ s <> "".

(** Every item of every kind carries such a hash. *)
Definition all_str_hashed (r : Resources) : Prop :=
  forall key l it, In (key, l) r -> In it l -> str_hashed it.

(** [x.get(HASH_KEY) == y.get(HASH_KEY)] *)
Definition same_hash (x y : item) : Prop :=
  py_eq (hash_of x) (hash_of y) = true.

(** The receiver after the loop body of [drop] has run for [key] and left
    [my_list] under it. *)
Definition after_drop_key (self : Resources) (key : string)
    (my_list : list item) : Resources :=
  match my_list with
  | [] => dict_remove self key
  | _ => dict_set self key my_list
  end.

(** The persisted reservation record. *)
Definition record (pool : ResourcesPool) : Resources :=
  read_reserved (rrfile pool).

(** What holds of a pool between operations: [set_hashes] stamped every
    catalog item, the record names each kind once, and what is remembered
    for release at exit came from the catalog. *)
Definition pool_ok (pool : ResourcesPool) : Prop :=
  all_str_hashed (all_resources pool) /\
  NoDup (dict_keys (record pool)) /\
  all_str_hashed (read_reserved (_remember_to_free pool)).

(** Neither a list nor a mapping. *)
Definition scalar (v : value) : Prop :=
  match v with
  | VList _ | VDict _ => False
  | _ => True
  end.

(** Index [i] of [my_list] holds an item that [find] does not skip and that
    matches [want_item]. *)
Definition candidate_at (my_list : list item) (skip : option string)
    (want_item : value) (i : nat) : Prop :=
  exists it,
    nth_error my_list i = Some it /\ marked skip it = false /\
    item_matches (VDict it) want_item None = Ok true.

(** Comparing any item of [my_list] with any want of [want_list] raises
    nothing. *)
Definition comparable (my_list : list item) (want_list : list value) : Prop :=
  forall it w, In it my_list -> In w want_list ->
    exists b, item_matches (VDict it) w None = Ok b.

(** [a] serves the slots of [want_list] with distinct items of [my_list],
    each a candidate for its slot. *)
Definition serves (my_list : list item) (skip : option string)
    (want_list : list value) (a : list nat) : Prop :=
  NoDup a /\ Forall2 (candidate_at my_list skip) want_list a.

(** What [item_matches] can raise. *)
Definition value_error (e : exn) : Prop := e = ValueError.

(** No item of the handle's kind matches the specifics, in use or not. *)
Definition nothing_matches (self : ReservedResources) (kind : string)
    (specifics : value) : Prop :=
  forall j, ~ candidate_at (items_of (reserved self) kind) None specifics j.

(** Every item of the handle's kind carries the key [_used]. *)
Definition all_in_use (self : ReservedResources) (kind : string) : Prop :=
  forall it, In it (items_of (reserved self) kind) ->
             has_key it USED_KEY = true.

(** *** Callers around one state directory *)







(** * Properties *)

(** ** Solver *)

Lemma all_differ_NoDup (l : list nat) : all_differ l = true <-> NoDup l.
Proof.
  unfold all_differ. rewrite Nat.eqb_eq. split.
  - induction l as [|x l IH]; intros H; [constructor|].
    simpl in H. destruct (in_dec Nat.eq_dec x l) as [Hin|Hin].
    + exfalso.
      assert (length (nodup Nat.eq_dec l) <= length l).
      { apply NoDup_incl_length; [apply NoDup_nodup|].
        intros y Hy. now apply nodup_In in Hy. }
      lia.
    + constructor; [assumption|]. apply IH. simpl in H. lia.
  - intros H. now rewrite nodup_fixed_point.
Qed.

Lemma existsb_eqb_In (x : nat) (l : list nat) :
  existsb (Nat.eqb x) l = true <-> In x l.
Proof.
  rewrite existsb_exists. split.
  - intros (y & Hy & E). apply Nat.eqb_eq in E. now subst.
  - intros H. exists x. split; [assumption|apply Nat.eqb_refl].
Qed.

Lemma find_app {A} (p : A -> bool) (l1 l2 : list A) :
  List.find p (l1 ++ l2) =
  match List.find p l1 with Some x => Some x | None => List.find p l2 end.
Proof.
  induction l1 as [|x l1 IH]; simpl; [reflexivity|].
  destruct (p x); [reflexivity|exact IH].
Qed.

Lemma find_map {A B} (p : B -> bool) (f : A -> B) (l : list A) :
  List.find p (map f l) = option_map f (List.find (fun x => p (f x)) l).
Proof.
  induction l as [|x l IH]; simpl; [reflexivity|].
  destruct (p (f x)); [reflexivity|exact IH].
Qed.

Lemma find_ext_eq {A} (p q : A -> bool) (l : list A) :
  (forall x, p x = q x) -> List.find p l = List.find q l.
Proof.
  intros H. induction l as [|x l IH]; simpl; [reflexivity|].
  now rewrite H, IH.
Qed.

Lemma find_all_false {A} (p : A -> bool) (l : list A) :
  (forall x, In x l -> p x = false) -> List.find p l = None.
Proof.
  induction l as [|x l IH]; simpl; intros H; [reflexivity|].
  rewrite (H x) by now left. apply IH. intros y Hy. apply H. now right.
Qed.

Lemma all_differ_false_dup (fixed : list nat) (val : nat) (a : list nat) :
  In val fixed -> all_differ (fixed ++ val :: a) = false.
Proof.
  intros Hin. destruct (all_differ (fixed ++ val :: a)) eqn:E; [|reflexivity].
  apply all_differ_NoDup in E. apply NoDup_remove_2 in E.
  exfalso. apply E. apply in_or_app. now left.
Qed.

(** Below [fixed], the search returns the first completion, in depth-first
    order, that keeps all indices distinct. *)
Lemma search_in_permutations_first (rest : list (list nat)) :
  forall pre fixed fuel,
    length pre = length fixed -> NoDup fixed -> rest <> [] ->
    length rest <= fuel ->
    search_in_permutations fuel (pre ++ rest) fixed =
    Ok (option_map (app fixed)
          (List.find (fun a => all_differ (fixed ++ a)) (choices rest))).
Proof.
  induction rest as [|c rest' IH]; intros pre fixed fuel Hlen Hnd Hne Hfuel;
    [congruence|].
  destruct fuel as [|fuel']; [simpl in Hfuel; lia|].
  cbn [search_in_permutations choices].
  assert (Hnth : nth_error (pre ++ c :: rest') (length fixed) = Some c).
  { rewrite <- Hlen, nth_error_app2 by lia. now rewrite Nat.sub_diag. }
  rewrite Hnth. clear Hnth.
  assert (Ham : length (pre ++ c :: rest') = length fixed + 1 + length rest').
  { rewrite length_app. simpl. lia. }
  assert (Hsplit : pre ++ c :: rest' = (pre ++ [c]) ++ rest')
    by now rewrite <- app_assoc.
  revert Ham Hsplit. generalize (pre ++ c :: rest') as am. intros am Ham Hsplit.
  generalize c as cs.
  induction cs as [|val cs IHc]; [reflexivity|].
  cbn [flat_map]. rewrite find_app, find_map.
  destruct (existsb (Nat.eqb val) fixed) eqn:Efix.
  - apply existsb_eqb_In in Efix.
    rewrite find_all_false
      by (intros a _; now apply all_differ_false_dup).
    exact IHc.
  - assert (Hnotin : ~ In val fixed).
    { intros Hin. apply existsb_eqb_In in Hin. congruence. }
    assert (Hnd' : NoDup (fixed ++ [val])).
    { apply NoDup_app; repeat split; auto.
      - constructor; [intros []|constructor].
      - intros x Hx [E|[]]. now subst. }
    destruct rest' as [|c' rest''].
    + replace (Nat.eqb (length (fixed ++ [val])) (length am)) with true
        by (symmetry; apply Nat.eqb_eq; rewrite length_app, Ham; simpl; lia).
      cbn [choices map List.find].
      apply all_differ_NoDup in Hnd'. rewrite Hnd'. reflexivity.
    + replace (Nat.eqb (length (fixed ++ [val])) (length am)) with false
        by (symmetry; apply Nat.eqb_neq; rewrite length_app, Ham; simpl; lia).
      rewrite Hsplit at 1.
      rewrite (IH (pre ++ [c]) (fixed ++ [val]) fuel');
        [|rewrite !length_app; simpl; lia|assumption|discriminate
         |simpl in Hfuel |- *; lia].
      cbn [bind].
      assert (Heq : forall a, all_differ ((fixed ++ [val]) ++ a)
                              = all_differ (fixed ++ val :: a)).
      { intros a. now rewrite <- app_assoc. }
      rewrite (find_ext_eq _ _ _ Heq).
      destruct (List.find (fun a => all_differ (fixed ++ val :: a))
                  (choices (c' :: rest''))) as [a|] eqn:Efind.
      * cbn [option_map found].
        destruct ((fixed ++ [val]) ++ a) eqn:El.
        { destruct fixed; discriminate. }
        rewrite <- El, <- app_assoc. reflexivity.
      * cbn [option_map found]. exact IHc.
Qed.

Lemma choices_spec (cl : list (list nat)) (a : list nat) :
  In a (choices cl) <-> Forall2 (fun c x => In x c) cl a.
Proof.
  revert a. induction cl as [|c cl IH]; intros a; cbn [choices].
  - split.
    + intros [<-|[]]. constructor.
    + intros H. inversion H. now left.
  - rewrite in_flat_map. split.
    + intros (x & Hx & Ha). apply in_map_iff in Ha as (a' & <- & Ha').
      constructor; [assumption|now apply IH].
    + intros H. inversion H as [|c' x cl' a' Hx Hrest]; subst.
      exists x. split; [assumption|]. apply in_map. now apply IH.
Qed.

Lemma first_assignment_is_assignment (cl : list (list nat)) (a : list nat) :
  first_assignment cl = Some a -> is_assignment cl a.
Proof.
  unfold first_assignment. intros H. apply find_some in H as [Hin Hd].
  split; [now apply choices_spec|now apply all_differ_NoDup].
Qed.

Lemma first_assignment_exists (cl : list (list nat)) (a : list nat) :
  is_assignment cl a -> exists a', first_assignment cl = Some a'.
Proof.
  intros [Hin Hd]. unfold first_assignment.
  destruct (List.find all_differ (choices cl)) as [a'|] eqn:E; [now exists a'|].
  apply choices_spec in Hin. apply all_differ_NoDup in Hd.
  pose proof (find_none _ _ E _ Hin). congruence.
Qed.

(** No choice that the depth-first order visits before the first assignment
    is an assignment. *)
Lemma first_assignment_first (cl : list (list nat)) (a : list nat) :
  first_assignment cl = Some a ->
  exists before after,
    choices cl = before ++ a :: after /\
    forall a', In a' before -> ~ is_assignment cl a'.
Proof.
  unfold first_assignment, is_assignment.
  induction (choices cl) as [|x l IH]; simpl; [discriminate|].
  destruct (all_differ x) eqn:E.
  - intros [= <-]. exists [], l. split; [reflexivity|intros ? []].
  - intros H. destruct (IH H) as (before & after & -> & Hb).
    exists (x :: before), after. split; [reflexivity|].
    intros a' [<-|Hin]; [|now apply Hb].
    intros [_ Hd]. apply all_differ_NoDup in Hd. congruence.
Qed.

Lemma solve_first_assignment (cl : list (list nat)) :
  cl <> [] ->
  solve cl = match first_assignment cl with
             | Some a => Ok a
             | None => Raise (NotSolvable (not_solvable_msg cl))
             end.
Proof.
  intros Hne. unfold solve.
  pose proof (search_in_permutations_first cl [] [] (length cl)
                eq_refl (NoDup_nil _) Hne (le_n _)) as Hs.
  cbn [app] in Hs. destruct cl as [|c cl]; [congruence|].
  rewrite Hs. cbn [bind].
  change (List.find (fun a => all_differ a) (choices (c :: cl)))
    with (first_assignment (c :: cl)).
  destruct (first_assignment (c :: cl)) as [a|] eqn:E; cbn [option_map];
    [|reflexivity].
  apply first_assignment_is_assignment in E as [Hin _].
  inversion Hin; subst. reflexivity.
Qed.

(** ** The exceptions of the matcher *)

Section Within.
Variable P : exn -> Prop.

Lemma bind_within {A B} (m : res A) (k : A -> res B) :
  raises_within P m -> (forall a, raises_within P (k a)) ->
  raises_within P (bind m k).
Proof.
  intros Hm Hk. destruct m as [a|e|]; cbn [bind].
  - apply Hk.
  - intros e' [= <-]. now apply Hm.
  - intros e E. discriminate.
Qed.

Lemma ok_within {A} (a : A) : raises_within P (Ok a).
Proof. intros e E. discriminate. Qed.

Lemma all_ok_within {A} (f : A -> res bool) (l : list A) :
  (forall x, raises_within P (f x)) -> raises_within P (all_ok f l).
Proof.
  intros Hf. induction l as [|x l IH]; cbn [all_ok]; [apply ok_within|].
  apply bind_within; [apply Hf|].
  intros [|]; [exact IH|apply ok_within].
Qed.

Lemma for_each_within {A S} (f : S -> A -> res S) (l : list A) :
  (forall s x, raises_within P (f s x)) ->
  forall s, raises_within P (for_each f l s).
Proof.
  intros Hf. induction l as [|x l IH]; intros s; cbn [for_each];
    [apply ok_within|].
  apply bind_within; [apply Hf|exact IH].
Qed.
End Within.

Lemma elem_or_empty_within (l : list value) (i : nat) (t : pytype) :
  raises_within find_exn (elem_or_empty l i t).
Proof.
  unfold elem_or_empty. destruct (nth_error l i); [apply ok_within|].
  destruct t; intros e [= <-]; exact I.
Qed.

Lemma item_matches_fuel_within (fuel : nat) :
  forall item wanted ik,
    raises_within find_exn (item_matches_fuel fuel item wanted ik).
Proof.
  induction fuel as [|fuel IH]; intros item wanted ik;
    cbn [item_matches_fuel]; [intros e E; discriminate|].
  destruct wanted as [| | | |wl|wd]; try apply ok_within.
  - destruct item as [| | | |l|d]; try apply ok_within.
    apply bind_within.
    + unfold list_validate_same_elem_type.
      destruct (wl ++ l); [apply ok_within|].
      destruct (forallb _ _); intros e [= <-]; exact I.
    + intros [t|]; [|apply ok_within].
      destruct (structured t); apply all_ok_within.
      * intros i. apply bind_within; [apply elem_or_empty_within|].
        intros subitem.
        apply bind_within; [apply elem_or_empty_within|].
        intros wanted_subitem. apply IH.
      * intros x. apply ok_within.
  - destruct item as [| | | |l|d]; try apply ok_within.
    apply all_ok_within. intros [key wanted_val].
    destruct (ignored ik key); [apply ok_within|apply IH].
Qed.

Lemma item_match_list_within (my_list : list item) :
  forall i want_item skip,
    raises_within find_exn (item_match_list i my_list want_item skip).
Proof.
  induction my_list as [|my_item rest IH]; intros i want_item skip;
    cbn [item_match_list]; [apply ok_within|].
  destruct (marked skip my_item); [apply IH|].
  apply bind_within; [apply item_matches_fuel_within|].
  intros b. apply bind_within; [apply IH|].
  intros more. apply ok_within.
Qed.

Lemma collect_matches_within key my_list (want_list : list value) :
  forall skip rim all_matches,
    raises_within find_exn
      (collect_matches key my_list want_list skip rim all_matches).
Proof.
  induction want_list as [|want_item rest IH]; intros skip rim all_matches;
    cbn [collect_matches]; [apply ok_within|].
  apply bind_within; [apply item_match_list_within|].
  intros [|i l]; [|apply IH].
  destruct rim; [|apply ok_within]. intros e [= <-]. exact I.
Qed.

Lemma solve_within all_matches :
  raises_within (fun e => find_exn e \/ exists m, e = NotSolvable m)
    (solve all_matches).
Proof.
  destruct all_matches as [|c cl]; [intros e [= <-]; left; exact I|].
  rewrite solve_first_assignment by discriminate.
  destruct (first_assignment (c :: cl)); intros e E; [discriminate|].
  injection E as <-. right. eexists. reflexivity.
Qed.

Lemma solve_or_no_resource_within key want_list all_matches :
  raises_within find_exn (solve_or_no_resource key want_list all_matches).
Proof.
  unfold solve_or_no_resource. pose proof (solve_within all_matches) as Hs.
  destruct (solve all_matches) as [a|e|]; try (intros e' E; discriminate).
  destruct (Hs e eq_refl) as [He|[m ->]].
  - destruct e; try contradiction; intros e' [= <-]; exact I.
  - intros e' [= <-]. exact I.
Qed.

Lemma find_solution_within self key want_list skip rim :
  raises_within find_exn (find_solution self key want_list skip rim).
Proof.
  unfold find_solution.
  apply bind_within; [apply collect_matches_within|].
  intros [|c cl]; [apply ok_within|apply solve_or_no_resource_within].
Qed.

Lemma pick_items_within my_list (solution : list nat) :
  raises_within find_exn (pick_items my_list solution).
Proof.
  induction solution as [|i rest IH]; cbn [pick_items]; [apply ok_within|].
  destruct (nth_error my_list i); [|intros e [= <-]; exact I].
  apply bind_within; [exact IH|]. intros more. apply ok_within.
Qed.

Lemma find_matches_within self want skip rim :
  raises_within find_exn (find_matches self want skip rim).
Proof.
  unfold find_matches. apply for_each_within.
  intros matches [key want_list].
  apply bind_within; [apply find_solution_within|].
  intros solution.
  apply bind_within; [apply pick_items_within|].
  intros picked. apply ok_within.
Qed.

Lemma find_within self want skip rim :
  raises_within find_exn (find self want skip rim).
Proof.
  unfold find. apply bind_within; [apply find_matches_within|].
  intros matches. apply ok_within.
Qed.

Lemma find_contains self want skip rim :
  ~ unsolvable_escapes (find self want skip rim).
Proof.
  intros [m E]. exact (find_within _ _ _ _ _ E).
Qed.

(** *** Claims about the solver *)

(** C1 (as amended).  For every non-empty list of candidate index lists
    that admits a system of distinct representatives, [solve] returns an
    assignment of the same length whose i-th entry is drawn from the i-th
    candidate list and whose entries are pairwise distinct; it is the
    first such assignment in depth-first order (slots in input order,
    candidates in list order).  In particular
    [solve([[0,1,2],[0],[0,2]]) == [1,0,2]]. *)
Theorem solve_first_distinct_representatives
    (candidate_lists : list (list nat)) :
  candidate_lists <> [] ->
  (exists a, is_assignment candidate_lists a) ->
  (exists a,
      solve candidate_lists = Ok a /\
      length a = length candidate_lists /\
      Forall2 (fun c x => In x c) candidate_lists a /\
      NoDup a /\
      first_assignment candidate_lists = Some a /\
      exists before after,
        choices candidate_lists = before ++ a :: after /\
        forall a', In a' before -> ~ is_assignment candidate_lists a') /\
  solve [[0; 1; 2]; [0]; [0; 2]] = Ok [1; 0; 2].
Proof.
  intros Hne [a0 Ha0]. split; [|reflexivity].
  destruct (first_assignment_exists _ _ Ha0) as [a Ha].
  exists a. rewrite (solve_first_assignment _ Hne), Ha.
  pose proof (first_assignment_is_assignment _ _ Ha) as [Hin Hd].
  repeat split; try assumption.
  - symmetry. exact (Forall2_length Hin).
  - now apply first_assignment_first.
Qed.

Lemma solve_first_distinct_representatives_witness :
  [[0; 1; 2]; [0]; [0; 2]] <> [] /\
  (exists a, is_assignment [[0; 1; 2]; [0]; [0; 2]] a) /\
  exists a, solve [[0; 1; 2]; [0]; [0; 2]] = Ok a /\ NoDup a.
Proof.
  assert (Hne : [[0; 1; 2]; [0]; [0; 2]] <> []) by discriminate.
  assert (Hex : exists a, is_assignment [[0; 1; 2]; [0]; [0; 2]] a).
  { exists [1; 0; 2]. split.
    - repeat (apply Forall2_cons; [simpl; tauto|]). constructor.
    - apply all_differ_NoDup. reflexivity. }
  split; [exact Hne|]. split; [exact Hex|].
  destruct (solve_first_distinct_representatives _ Hne Hex)
    as [(a & Hs & _ & _ & Hd & _) _].
  exists a. split; assumption.
Defined.

(** The empty request has the empty assignment, yet [solve] refuses it. *)
Lemma solve_refuses_empty_request :
  is_assignment [] [] /\
  solve [] = Raise (RuntimeError [Lit "Cannot solve: no candidates"]) /\
  ~ (forall candidate_lists,
        (exists a, is_assignment candidate_lists a) ->
        exists a, solve candidate_lists = Ok a /\
                  is_assignment candidate_lists a).
Proof.
  assert (H : is_assignment [] []) by (split; constructor).
  split; [exact H|]. split; [reflexivity|].
  intros Hall. destruct (Hall [] (ex_intro _ [] H)) as (a & Hs & _).
  discriminate.
Qed.

(** The kinds of a request are settled one by one, each on its own: what
    [find] does for one kind depends on nothing it did for the others. *)
Lemma find_one_kind (self : Resources) key want_list skip rim found :
  find self [(key, want_list)] skip rim = Ok found ->
  exists solution picked,
    find_solution self key want_list skip rim = Ok solution /\
    pick_items (items_of self key) solution = Ok picked.
Proof.
  unfold find, find_matches, sorted_items.
  cbn [fold_right insert_sorted for_each]. fold (items_of self key).
  destruct (find_solution self key want_list skip rim) as [solution| |];
    cbn [bind]; try discriminate.
  destruct (pick_items (items_of self key) solution) as [picked| |] eqn:Ep;
    cbn [bind]; try discriminate.
  intros _. exists solution, picked. split; [reflexivity|exact Ep].
Qed.

Lemma for_each_prefix {A S} (f : S -> A -> res S) (before : list A) :
  (forall x, In x before -> forall s, exists s', f s x = Ok s') ->
  forall rest s,
  exists s', for_each f (before ++ rest) s = for_each f rest s'.
Proof.
  induction before as [|x before IH]; intros Hok rest s.
  - now exists s.
  - destruct (Hok x (or_introl eq_refl) s) as [s1 Hs1].
    cbn [app for_each]. rewrite Hs1. cbn [bind].
    apply IH. intros y Hy. apply Hok. now right.
Qed.

(** [find] ends the way its first failing kind ends. *)
Lemma find_raises_at_kind (self : Resources) (want : Want) skip rim
    before key want_list after e :
  sorted_items want = before ++ (key, want_list) :: after ->
  (forall key' want_list',
      In (key', want_list') before ->
      exists found, find self [(key', want_list')] skip rim = Ok found) ->
  find_solution self key want_list skip rim = Raise e ->
  find self want skip rim = Raise e.
Proof.
  intros Hsorted Hbefore Hsol. unfold find, find_matches. rewrite Hsorted.
  match goal with
  | |- context [for_each ?f _ _] =>
      destruct (for_each_prefix f before) with (rest := (key, want_list) :: after)
                                               (s := @nil (string * list (nat * item)))
        as [matches' ->]
  end.
  - intros [key' want_list'] Hin matches.
    destruct (Hbefore key' want_list' Hin) as [found Hfound].
    apply find_one_kind in Hfound as (solution & picked & Hsol' & Hpick).
    fold (items_of self key'). rewrite Hsol'. cbn [bind].
    rewrite Hpick. cbn [bind]. now eexists.
  - cbn [for_each]. rewrite Hsol. reflexivity.
Qed.

(** C4.  For every non-empty list of candidate index lists without a
    system of distinct representatives, [solve] raises [NotSolvable]
    ("The requested resource requirements are not solvable" and the
    lists).  Whatever the request, when [find] comes to a kind whose
    candidate lists are these -- the kinds that [sorted] puts before it
    settled -- it raises [NoResourceExn] "Could not resolve request to
    reserve resources: N x kind with requirements: " followed by the
    wanted list of that kind as it was passed in; and no call of [find]
    lets [NotSolvable] out. *)
Theorem unsolvable_raised_and_translated (candidate_lists : list (list nat)) :
  candidate_lists <> [] ->
  (forall a, ~ is_assignment candidate_lists a) ->
  solve candidate_lists =
    Raise (NotSolvable
             [Lit "The requested resource requirements are not solvable ";
              FmtR (VList (map index_list_value candidate_lists))]) /\
  (forall self want before key want_list after skip raise_if_missing,
      sorted_items want = before ++ (key, want_list) :: after ->
      (forall key' want_list',
          In (key', want_list') before ->
          exists found,
            find self [(key', want_list')] skip raise_if_missing = Ok found) ->
      collect_matches key (items_of self key) want_list skip raise_if_missing []
        = Ok candidate_lists ->
      find self want skip raise_if_missing =
      Raise (NoResourceExn
               [Lit "Could not resolve request to reserve resources: ";
                FmtD (Z.of_nat (length want_list)); Lit " x "; FmtS key;
                Lit " with requirements: "; FmtR (VList want_list)])) /\
  (forall self want skip raise_if_missing,
      ~ unsolvable_escapes (find self want skip raise_if_missing)).
Proof.
  intros Hne Hnone.
  assert (Hs : solve candidate_lists =
               Raise (NotSolvable (not_solvable_msg candidate_lists))).
  { rewrite (solve_first_assignment _ Hne).
    destruct (first_assignment candidate_lists) as [a|] eqn:E; [|reflexivity].
    exfalso. apply (Hnone a). now apply first_assignment_is_assignment. }
  split; [exact Hs|]. split; [|intros; apply find_contains].
  intros self want before key want_list after skip rim Hsorted Hbefore Hc.
  apply (find_raises_at_kind self want skip rim before key want_list after);
    try assumption.
  unfold find_solution. fold (items_of self key). rewrite Hc. cbn [bind].
  destruct candidate_lists as [|c cl]; [congruence|].
  unfold solve_or_no_resource. rewrite Hs. reflexivity.
Qed.

Lemma unsolvable_raised_and_translated_witness :
  let self : Resources := [("bts", [[("_hash", VStr "b")]]);
                           ("modem", [[("_hash", VStr "a")]])] in
  let want : Want := [("modem", [VDict []; VDict []]); ("bts", [VDict []])] in
  [[0]; [0]] <> [] /\
  (forall a, ~ is_assignment [[0]; [0]] a) /\
  solve [[0]; [0]] =
    Raise (NotSolvable
             [Lit "The requested resource requirements are not solvable ";
              FmtR (VList [VList [VInt 0]; VList [VInt 0]])]) /\
  sorted_items want = [("bts", [VDict []])]
                      ++ ("modem", [VDict []; VDict []]) :: [] /\
  find self want None true =
  Raise (NoResourceExn
           [Lit "Could not resolve request to reserve resources: ";
            FmtD 2; Lit " x "; FmtS "modem";
            Lit " with requirements: "; FmtR (VList [VDict []; VDict []])]).
Proof.
  intros self want.
  assert (Hne : [[0]; [0]] <> []) by discriminate.
  assert (Hnone : forall a, ~ is_assignment [[0]; [0]] a).
  { intros a [Hin Hd].
    inversion Hin as [|c x cl a' Hx Hrest]; subst.
    inversion Hrest as [|c' y cl' a'' Hy Hrest']; subst.
    inversion Hrest'; subst.
    destruct Hx as [<-|[]]. destruct Hy as [<-|[]].
    inversion Hd as [|? ? Hnotin _]; subst. apply Hnotin. now left. }
  assert (Hsorted : sorted_items want
                    = [("bts", [VDict []])]
                      ++ ("modem", [VDict []; VDict []]) :: [])
    by reflexivity.
  assert (Hbefore : forall key' want_list',
             In (key', want_list') [("bts", [VDict []])] ->
             exists found, find self [(key', want_list')] None true = Ok found).
  { intros key' want_list' [[= <- <-]|[]]. eexists. reflexivity. }
  split; [exact Hne|]. split; [exact Hnone|].
  destruct (unsolvable_raised_and_translated _ Hne Hnone) as (Hs & Hf & _).
  split; [exact Hs|]. split; [exact Hsorted|].
  exact (Hf self want _ "modem" _ _ None true Hsorted Hbefore eq_refl).
Defined.

(** ** Dictionaries and loops *)

Lemma dict_get_set_same {V} (d : list (string * V)) k v :
  dict_get (dict_set d k v) k = Some v.
Proof.
  induction d as [|[k' v'] d IH]; cbn [dict_set dict_get].
  - now rewrite String.eqb_refl.
  - destruct (String.eqb k' k) eqn:E; cbn [dict_get]; rewrite E;
      [reflexivity|exact IH].
Qed.

Lemma dict_get_set_other {V} (d : list (string * V)) k k' v :
  k <> k' -> dict_get (dict_set d k v) k' = dict_get d k'.
Proof.
  intros Hne. induction d as [|[k0 v0] d IH]; cbn [dict_set dict_get].
  - apply String.eqb_neq in Hne. now rewrite Hne.
  - destruct (String.eqb k0 k) eqn:E; cbn [dict_get].
    + apply String.eqb_eq in E. subst k0.
      apply String.eqb_neq in Hne. now rewrite Hne.
    + destruct (String.eqb k0 k'); [reflexivity|exact IH].
Qed.

Lemma dict_set_In {V} (d : list (string * V)) k v k' v' :
  In (k', v') (dict_set d k v) -> (k' = k /\ v' = v) \/ In (k', v') d.
Proof.
  induction d as [|[k0 v0] d IH]; cbn [dict_set].
  - intros [[= <- <-]|[]]. now left.
  - destruct (String.eqb k0 k) eqn:E.
    + apply String.eqb_eq in E. subst k0.
      intros [[= <- <-]|Hin]; [now left|right; now right].
    + intros [Heq|Hin]; [right; now left|].
      destruct (IH Hin) as [H|H]; [now left|right; now right].
Qed.

Lemma dict_get_In {V} (d : list (string * V)) k v :
  dict_get d k = Some v -> In (k, v) d.
Proof.
  induction d as [|[k0 v0] d IH]; cbn [dict_get]; [discriminate|].
  destruct (String.eqb k0 k) eqn:E.
  - apply String.eqb_eq in E. intros [= <-]. subst. now left.
  - intros H. right. now apply IH.
Qed.

Lemma bind_Ok {A B} (m : res A) (k : A -> res B) (b : B) :
  bind m k = Ok b -> exists a, m = Ok a /\ k a = Ok b.
Proof.
  destruct m as [a|e|]; cbn [bind]; [|discriminate..].
  intros H. now exists a.
Qed.

(** An invariant of the state of a loop holds when the loop completes. *)
Lemma for_each_invariant {A S} (P : S -> Prop) (f : S -> A -> res S)
    (l : list A) :
  (forall s x s', In x l -> P s -> f s x = Ok s' -> P s') ->
  forall s s', P s -> for_each f l s = Ok s' -> P s'.
Proof.
  induction l as [|x l IH]; intros Hf s s' Hs; cbn [for_each].
  - now intros [= <-].
  - intros H. apply bind_Ok in H as (s1 & H1 & H2).
    apply (IH (fun s x s' Hin => Hf s x s' (or_intror Hin)) s1); [|assumption].
    apply (Hf s x); [now left|assumption..].
Qed.

(** ** Active use *)

Lemma marked_used (it : item) :
  marked (Some USED_KEY) it = truthy (get_or_none it USED_KEY).
Proof.
  unfold marked, get_or_none. cbn.
  destruct (dict_get it USED_KEY); reflexivity.
Qed.

Lemma item_match_list_unmarked (my_list : list item) :
  forall i want_item skip l,
    item_match_list i my_list want_item skip = Ok l ->
    forall j, In j l ->
      i <= j /\ exists it, nth_error my_list (j - i) = Some it /\
                           marked skip it = false.
Proof.
  induction my_list as [|my_item rest IH]; intros i want_item skip l;
    cbn [item_match_list].
  - intros [= <-] j [].
  - destruct (marked skip my_item) eqn:Em.
    + intros H j Hj. destruct (IH _ _ _ _ H j Hj) as (Hle & it & Hn & Hm).
      split; [lia|]. exists it. split; [|assumption].
      replace (j - i) with (S (j - S i)) by lia. exact Hn.
    + intros H. apply bind_Ok in H as (b & _ & H).
      apply bind_Ok in H as (more & Hmore & [= <-]).
      intros j Hj.
      assert (Hcase : j = i \/ In j more).
      { destruct b; [destruct Hj as [<-|Hj]|]; auto. }
      destruct Hcase as [->|Hin].
      * split; [lia|]. exists my_item. rewrite Nat.sub_diag. now split.
      * destruct (IH _ _ _ _ Hmore j Hin) as (Hle & it & Hn & Hm).
        split; [lia|]. exists it. split; [|assumption].
        replace (j - i) with (S (j - S i)) by lia. exact Hn.
Qed.

Lemma collect_matches_unmarked key my_list (want_list : list value) :
  forall skip rim acc all_matches,
    collect_matches key my_list want_list skip rim acc = Ok all_matches ->
    (forall c, In c acc -> forall j, In j c -> unmarked_at my_list skip j) ->
    forall c, In c all_matches -> forall j, In j c ->
      unmarked_at my_list skip j.
Proof.
  induction want_list as [|want_item rest IH]; intros skip rim acc all_matches;
    cbn [collect_matches].
  - intros [= <-] Hacc. exact Hacc.
  - intros H Hacc. apply bind_Ok in H as (iml & Himl & H).
    destruct iml as [|i0 iml'].
    + destruct rim; [discriminate|]. injection H as <-. intros c [].
    + apply (IH _ _ _ _ H). intros c Hc j Hj.
      apply in_app_or in Hc as [Hc|[<-|[]]]; [now apply (Hacc c)|].
      destruct (item_match_list_unmarked _ _ _ _ _ Himl j Hj)
        as (_ & it & Hn & Hm).
      exists it. now rewrite Nat.sub_0_r in Hn.
Qed.

Lemma solve_Ok_drawn (cl : list (list nat)) (a : list nat) :
  solve cl = Ok a -> is_assignment cl a.
Proof.
  destruct cl as [|c cl]; [discriminate|].
  rewrite solve_first_assignment by discriminate.
  destruct (first_assignment (c :: cl)) as [a'|] eqn:E; [|discriminate].
  intros [= <-]. now apply first_assignment_is_assignment.
Qed.

Lemma Forall2_In_r {A B} (R : A -> B -> Prop) (l : list A) (l' : list B) y :
  Forall2 R l l' -> In y l' -> exists x, In x l /\ R x y.
Proof.
  induction 1 as [|x y' l l' Hxy _ IH]; [intros []|].
  intros [<-|Hin].
  - exists x. split; [now left|assumption].
  - destruct (IH Hin) as (x' & Hx' & HR). exists x'. split; [now right|assumption].
Qed.

Lemma find_solution_unmarked self key want_list skip rim solution :
  find_solution self key want_list skip rim = Ok solution ->
  forall j, In j solution ->
    unmarked_at (match dict_get self key with Some l => l | None => [] end)
      skip j.
Proof.
  unfold find_solution. intros H.
  apply bind_Ok in H as (all_matches & Hc & H).
  destruct all_matches as [|c cl]; [injection H as <-; intros j []|].
  unfold solve_or_no_resource in H.
  destruct (solve (c :: cl)) as [a|e|] eqn:Es;
    [|destruct e; discriminate|discriminate].
  injection H as <-. apply solve_Ok_drawn in Es as [Hin _].
  intros j Hj. destruct (Forall2_In_r _ _ _ _ Hin Hj) as (c' & Hc' & Hjc).
  apply (collect_matches_unmarked _ _ _ _ _ _ _ Hc (fun _ F => match F with end)
           c' Hc' j Hjc).
Qed.

Lemma pick_items_spec my_list (solution : list nat) :
  forall picked,
    pick_items my_list solution = Ok picked ->
    map fst picked = solution /\
    forall i it, In (i, it) picked -> nth_error my_list i = Some it.
Proof.
  induction solution as [|i rest IH]; intros picked; cbn [pick_items].
  - intros [= <-]. split; [reflexivity|intros ? ? []].
  - destruct (nth_error my_list i) as [x|] eqn:En; [|discriminate].
    intros H. apply bind_Ok in H as (more & Hmore & [= <-]).
    destruct (IH _ Hmore) as [Hfst Hnth]. split.
    + cbn. now rewrite Hfst.
    + intros j it [[= <- <-]|Hin]; [assumption|now apply Hnth].
Qed.

(** Every item [find] picks sits in the receiver's list of that kind at the
    index it is tagged with, and carries no truthy skip marker. *)
Lemma find_matches_unmarked self want skip rim matches :
  find_matches self want skip rim = Ok matches ->
  forall key picked i it,
    In (key, picked) matches -> In (i, it) picked ->
    nth_error (match dict_get self key with Some l => l | None => [] end) i
      = Some it /\
    marked skip it = false.
Proof.
  unfold find_matches. intros H.
  refine (for_each_invariant
            (fun matches => forall key picked i it,
                 In (key, picked) matches -> In (i, it) picked -> _ /\ _)
            _ _ _ [] matches _ H); [|intros ? ? ? ? []].
  clear H matches. intros matches [key want_list] matches' _ Hinv H.
  apply bind_Ok in H as (solution & Hsol & H).
  apply bind_Ok in H as (picked & Hpick & [= <-]).
  intros key' picked' i it Hin Hit.
  apply dict_set_In in Hin as [[-> ->]|Hin]; [|now apply (Hinv key' picked')].
  destruct (pick_items_spec _ _ _ Hpick) as [Hfst Hnth].
  split; [now apply Hnth|].
  assert (Hi : In i solution).
  { rewrite <- Hfst. now apply (in_map fst _ (i, it)). }
  destruct (find_solution_unmarked _ _ _ _ _ _ Hsol i Hi) as (it' & Hn & Hm).
  rewrite (Hnth _ _ Hit) in Hn. now injection Hn as <-.
Qed.

(** C10.  Whatever the handle holds, an item that [find] picks under
    [skip_if_marked=USED_KEY] has no truthy [_used] marker, be it for the
    request of [get] or any other; so the assertion in [get] that the pick
    is unused never fails. *)
Theorem get_never_picks_used_item (self : ReservedResources) (kind : string)
    (specifics : option value) :
  (forall want raise_if_missing matches,
      find_matches (reserved self) want (Some USED_KEY) raise_if_missing
        = Ok matches ->
      forall key picked i it,
        In (key, picked) matches -> In (i, it) picked ->
        nth_error (match dict_get (reserved self) key with
                   | Some l => l
                   | None => []
                   end) i = Some it /\
        truthy (get_or_none it USED_KEY) = false) /\
  get self kind specifics <> Raise AssertionError.
Proof.
  split.
  - intros want rim matches H key picked i it Hin Hit.
    rewrite <- marked_used.
    exact (find_matches_unmarked _ _ _ _ _ H key picked i it Hin Hit).
  - unfold get.
    destruct (find_matches _ _ _ _) as [matches|e|] eqn:Ef; cbn [bind];
      [|intros [= ->]; exact (find_matches_within _ _ _ _ _ Ef)|discriminate].
    + destruct (dict_get matches kind) as [[|[i pick] rest]|] eqn:Eg;
        [| |discriminate].
      * unfold get_failure.
        destruct (find _ _ _ _) as [found|e|] eqn:Ef2; cbn [bind];
          [discriminate|intros [= ->]; exact (find_within _ _ _ _ _ Ef2)
          |discriminate].
      * apply dict_get_In in Eg.
        destruct (find_matches_unmarked _ _ _ _ _ Ef kind _ i pick Eg
                    (or_introl eq_refl)) as [_ Hm].
        rewrite marked_used in Hm. rewrite Hm. discriminate.
Qed.

Lemma get_or_none_set_same (it : item) k v :
  get_or_none (dict_set it k v) k = v.
Proof. unfold get_or_none. now rewrite dict_get_set_same. Qed.

Lemma item_matches_empty_want (d : list (string * value)) ik :
  item_matches (VDict d) (VDict []) ik = Ok true.
Proof. unfold item_matches. cbn [size Nat.add]. reflexivity. Qed.

(** What a successful [get] did: it marked one item of the kind that was
    not in use. *)
Lemma get_Ok (self self' : ReservedResources) kind specifics (r : item) :
  get self kind specifics = Ok (self', r) ->
  exists i pick,
    nth_error (match dict_get (reserved self) kind with
               | Some l => l
               | None => []
               end) i = Some pick /\
    truthy (get_or_none pick USED_KEY) = false /\
    r = dict_set pick USED_KEY (VBool true) /\
    reserved self' =
    dict_set (reserved self) kind
      (list_set (match dict_get (reserved self) kind with
                 | Some l => l
                 | None => []
                 end) i r).
Proof.
  unfold get. intros H. apply bind_Ok in H as (matches & Hf & H).
  destruct (dict_get matches kind) as [[|[i pick] rest]|] eqn:Eg;
    [| |discriminate].
  - destruct (get_failure _ _ _); cbn [bind] in H; discriminate.
  - apply dict_get_In in Eg.
    destruct (find_matches_unmarked _ _ _ _ _ Hf kind _ i pick Eg
                (or_introl eq_refl)) as [Hn Hm].
    rewrite marked_used in Hm. rewrite Hm in H. injection H as <- <-.
    exists i, pick. repeat split; assumption.
Qed.

Lemma item_match_list_all_used (l : list item) :
  forall i want_item,
    (forall it, In it l -> truthy (get_or_none it USED_KEY) = true) ->
    item_match_list i l want_item (Some USED_KEY) = Ok [].
Proof.
  induction l as [|it l IH]; intros i want_item Hused; cbn [item_match_list];
    [reflexivity|].
  rewrite marked_used, (Hused it) by now left.
  apply IH. intros it' Hin. apply Hused. now right.
Qed.

Lemma item_match_list_any (l : list item) :
  forall i, item_match_list i l (VDict []) None = Ok (seq i (length l)).
Proof.
  induction l as [|it l IH]; intros i; cbn [item_match_list]; [reflexivity|].
  cbn [marked]. rewrite item_matches_empty_want. cbn [bind].
  rewrite IH. reflexivity.
Qed.

Lemma filter_all {A} (p : A -> bool) (l : list A) :
  (forall x, In x l -> p x = true) -> filter p l = l.
Proof.
  induction l as [|x l IH]; intros H; cbn [filter]; [reflexivity|].
  rewrite (H x) by now left. f_equal. apply IH. intros y Hy. apply H. now right.
Qed.

(** With every item of the kind in use, [get] without specifics blames the
    size of the reservation. *)
Lemma get_all_used (self : ReservedResources) kind (l : list item) :
  dict_get (reserved self) kind = Some l -> l <> [] ->
  (forall it, In it l -> truthy (get_or_none it USED_KEY) = true) ->
  get self kind None =
  Raise (NoResourceExn
           (when_trying_msg (length l + 1) kind
              (reserved_only_msg (length l) kind))).
Proof.
  intros Hget Hne Hused.
  assert (Hkey : forall it, In it l -> has_key it USED_KEY = true).
  { intros it Hin. specialize (Hused it Hin). unfold has_key, get_or_none in *.
    destruct (dict_get it USED_KEY); [reflexivity|discriminate]. }
  unfold get, find_matches, sorted_items.
  cbn [fold_right insert_sorted for_each]. unfold find_solution.
  rewrite Hget. cbn [collect_matches].
  rewrite item_match_list_all_used by assumption.
  cbn [bind pick_items dict_set dict_get]. rewrite String.eqb_refl.
  unfold get_failure, find, find_matches, sorted_items.
  cbn [fold_right insert_sorted for_each]. unfold find_solution.
  rewrite Hget. cbn [collect_matches].
  rewrite item_match_list_any.
  destruct l as [|it0 l']; [congruence|].
  cbn [length seq bind collect_matches app].
  unfold solve_or_no_resource, solve.
  cbn [length search_in_permutations nth_error existsb app Nat.eqb bind found
       pick_items dict_set map fst snd dict_get].
  rewrite String.eqb_refl. rewrite filter_all by assumption.
  cbn [length]. rewrite Nat.ltb_irrefl. reflexivity.
Qed.

Lemma failure_messages_distinct (repr : value -> string) :
  forall specifics n kind n' kind' m specifics',
    render repr (none_matches_msg specifics)
      <> render repr (reserved_only_msg n kind) /\
    render repr (none_matches_msg specifics)
      <> render repr (all_in_use_msg n' kind' m specifics') /\
    render repr (reserved_only_msg n kind)
      <> render repr (all_in_use_msg n' kind' m specifics').
Proof.
  intros. unfold render, none_matches_msg, reserved_only_msg, all_in_use_msg.
  cbn [fold_right String.append]. repeat split; discriminate.
Qed.

(** ** Dropping by hash *)

Lemma py_eq_str (s : string) (v : value) :
  py_eq (VStr s) v = true <-> v = VStr s.
Proof.
  destruct v; cbn; try (split; discriminate).
  rewrite String.eqb_eq. split; [now intros ->|now intros [= ->]].
Qed.

Lemma str_hashed_truthy (it : item) :
  str_hashed it -> truthy (hash_of it) = true.
Proof.
  intros (s & -> & Hne). cbn. apply String.eqb_neq in Hne. now rewrite Hne.
Qed.

Lemma same_hash_str (x y : item) :
  str_hashed x -> same_hash x y -> hash_of y = hash_of x.
Proof.
  intros (s & Hs & _) H. unfold same_hash in H. rewrite Hs in H |- *.
  now apply py_eq_str.
Qed.

Lemma dict_get_remove_same {V} (d : list (string * V)) k :
  dict_get (dict_remove d k) k = None.
Proof.
  induction d as [|[k' v'] d IH]; cbn [dict_remove dict_get]; [reflexivity|].
  destruct (String.eqb k' k) eqn:E; [exact IH|].
  cbn [dict_get]. now rewrite E.
Qed.

Lemma dict_get_remove_other {V} (d : list (string * V)) k k' :
  k <> k' -> dict_get (dict_remove d k) k' = dict_get d k'.
Proof.
  intros Hne. induction d as [|[k0 v0] d IH]; cbn [dict_remove dict_get];
    [reflexivity|].
  destruct (String.eqb k0 k) eqn:E.
  - apply String.eqb_eq in E. subst k0.
    apply String.eqb_neq in Hne. now rewrite Hne.
  - cbn [dict_get]. destruct (String.eqb k0 k'); [reflexivity|exact IH].
Qed.

Lemma dict_get_None_keys {V} (d : list (string * V)) k :
  dict_get d k = None <-> ~ In k (dict_keys d).
Proof.
  induction d as [|[k0 v0] d IH]; cbn [dict_get dict_keys map fst].
  - split; [intros _ []|reflexivity].
  - destruct (String.eqb k0 k) eqn:E.
    + apply String.eqb_eq in E. subst. split; [discriminate|].
      intros H. exfalso. apply H. now left.
    + apply String.eqb_neq in E. rewrite IH. unfold dict_keys.
      split; [intros H [?|?]; auto|intros H ?; apply H; now right].
Qed.

Lemma drop_hash_found (l : list item) (h : value) (l' : list item) :
  drop_hash l h = Ok (true, l') ->
  exists l1 x l2,
    l = l1 ++ x :: l2 /\ l' = l1 ++ l2 /\ py_eq (hash_of x) h = true.
Proof.
  revert l'. induction l as [|y l IH]; intros l'; cbn [drop_hash];
    [discriminate|].
  fold (hash_of y). destruct (negb (truthy (hash_of y))); [discriminate|].
  destruct (py_eq (hash_of y) h) eqn:E.
  - intros [= <-]. now exists [], y, l.
  - intros H. apply bind_Ok in H as ([found rest'] & Hd & [= -> <-]).
    destruct (IH _ Hd) as (l1 & x & l2 & -> & -> & Hx).
    now exists (y :: l1), x, l2.
Qed.

Lemma drop_hash_missing (l : list item) (h : value) (l' : list item) :
  drop_hash l h = Ok (false, l') ->
  l' = l /\ forall x, In x l -> py_eq (hash_of x) h = false.
Proof.
  revert l'. induction l as [|y l IH]; intros l'; cbn [drop_hash].
  - intros [= <-]. split; [reflexivity|intros ? []].
  - fold (hash_of y). destruct (negb (truthy (hash_of y))); [discriminate|].
    destruct (py_eq (hash_of y) h) eqn:E; [discriminate|].
    intros H. apply bind_Ok in H as ([found rest'] & Hd & [= -> <-]).
    destruct (IH _ Hd) as [-> Hall]. split; [reflexivity|].
    intros x [<-|Hin]; [assumption|now apply Hall].
Qed.

Lemma drop_hash_total (l : list item) (h : value) :
  (forall x, In x l -> str_hashed x) ->
  exists found l', drop_hash l h = Ok (found, l').
Proof.
  induction l as [|y l IH]; intros Hh; cbn [drop_hash]; [now eexists _, _|].
  fold (hash_of y). rewrite (str_hashed_truthy y) by (apply Hh; now left).
  cbn [negb]. destruct (py_eq (hash_of y) h); [now eexists _, _|].
  destruct IH as (found & l' & ->); [intros x Hx; apply Hh; now right|].
  cbn [bind]. now eexists _, _.
Qed.

(** One step of the loop of [drop_list]. *)
Lemma drop_list_cons key (l : list item) d (rl : list item) f :
  drop_list key l (d :: rl) f =
  (if negb (truthy (hash_of d)) then Raise (RuntimeError unhashed_msg)
   else
     '(found, l1) <- drop_hash l (hash_of d) ;;
     if f && negb found then Raise (RuntimeError (not_found_msg key d))
     else drop_list key l1 rl f).
Proof.
  unfold drop_list at 1. cbn [for_each]. fold (hash_of d).
  destruct (negb (truthy (hash_of d))); [reflexivity|].
  destruct (drop_hash l (hash_of d)) as [[found l1]| |]; cbn [bind];
    [|reflexivity..].
  destruct (f && negb found); reflexivity.
Qed.

(** A completed [drop_list] removed, for each dropped item in turn, one
    item of the same hash, and nothing else. *)
Lemma drop_list_Ok key (rl : list item) :
  forall l l',
    drop_list key l rl true = Ok l' ->
    exists removed,
      Permutation l (removed ++ l') /\ Forall2 same_hash removed rl.
Proof.
  induction rl as [|d rl IH]; intros l l'.
  - intros [= <-]. exists []. split; [reflexivity|constructor].
  - rewrite drop_list_cons.
    destruct (negb (truthy (hash_of d))); [discriminate|].
    intros H. apply bind_Ok in H as ([found l1] & Hd & H).
    destruct found; cbn [andb negb] in H; [|discriminate].
    apply drop_hash_found in Hd as (a & x & b & -> & -> & Hx).
    destruct (IH _ _ H) as (removed & Hperm & Hall).
    exists (x :: removed). split; [|now constructor].
    cbn [app]. rewrite <- Hperm. symmetry. apply Permutation_middle.
Qed.

(** With hashes on every item, [drop_list] succeeds exactly when the
    hashes to drop are among those held, and leaves the others. *)
Lemma drop_list_succeeds key (rl : list item) :
  forall l hs,
    (forall x, In x l -> str_hashed x) ->
    (forall d, In d rl -> str_hashed d) ->
    Permutation (hashes l) (hashes rl ++ hs) ->
    exists l', drop_list key l rl true = Ok l' /\ Permutation (hashes l') hs.
Proof.
  induction rl as [|d rl IH]; intros l hs Hl Hrl Hperm.
  - exists l. split; [reflexivity|exact Hperm].
  - rewrite drop_list_cons.
    rewrite (str_hashed_truthy d) by (apply Hrl; now left). cbn [negb].
    destruct (drop_hash_total l (hash_of d) Hl) as (found & l1 & Hd).
    rewrite Hd. cbn [bind]. destruct found; cbn [andb negb].
    + apply drop_hash_found in Hd as (a & x & b & -> & -> & Hx).
      apply (IH (a ++ b) hs).
      * intros y Hy. apply Hl. apply in_app_or in Hy as [Hy|Hy];
          apply in_or_app; [now left|right; now right].
      * intros y Hy. apply Hrl. now right.
      * assert (Hxd : hash_of x = hash_of d).
        { destruct (Hl x) as (s & Hs & _);
            [apply in_or_app; right; now left|].
          rewrite Hs in Hx |- *. symmetry. now apply py_eq_str. }
        unfold hashes in *. rewrite map_app in Hperm |- *.
        cbn [map app] in Hperm. rewrite Hxd in Hperm.
        apply Permutation_cons_inv with (a := hash_of d).
        rewrite <- Hperm. apply Permutation_middle.
    + exfalso. apply drop_hash_missing in Hd as [_ Hall].
      assert (Hin : In (hash_of d) (hashes l)).
      { apply (Permutation_in _ (Permutation_sym Hperm)). now left. }
      unfold hashes in Hin. apply in_map_iff in Hin as (x & Hxd & Hx).
      specialize (Hall x Hx). rewrite Hxd in Hall.
      destruct (Hrl d (or_introl eq_refl)) as (s & Hs & _).
      rewrite Hs in Hall. cbn in Hall. now rewrite String.eqb_refl in Hall.
Qed.

(** With hashes on every item, [drop_list] ends in no exception other than
    "not found", and ends in it when a hash to drop is not held. *)
Lemma drop_list_hashed key (rl : list item) :
  forall l,
    (forall x, In x l -> str_hashed x) ->
    (forall d, In d rl -> str_hashed d) ->
    (exists l', drop_list key l rl true = Ok l' /\ incl l' l) \/
    (exists it, In it rl /\
                drop_list key l rl true
                = Raise (RuntimeError (not_found_msg key it))).
Proof.
  induction rl as [|d rl IH]; intros l Hl Hrl.
  - left. exists l. split; [reflexivity|apply incl_refl].
  - rewrite drop_list_cons.
    rewrite (str_hashed_truthy d) by (apply Hrl; now left). cbn [negb].
    destruct (drop_hash_total l (hash_of d) Hl) as (found & l1 & Hd).
    rewrite Hd. cbn [bind]. destruct found; cbn [andb negb].
    + apply drop_hash_found in Hd as (a & x & b & -> & -> & Hx).
      assert (Hincl : incl (a ++ b) (a ++ x :: b)).
      { intros y Hy. apply in_app_or in Hy as [Hy|Hy];
          apply in_or_app; [now left|right; now right]. }
      destruct (IH (a ++ b)) as [(l' & -> & Hl')|(it & Hit & ->)].
      * intros y Hy. apply Hl. now apply Hincl.
      * intros y Hy. apply Hrl. now right.
      * left. exists l'. split; [reflexivity|].
        intros y Hy. apply Hincl. now apply Hl'.
      * right. exists it. split; [now right|reflexivity].
    + right. exists d. split; [now left|reflexivity].
Qed.

Lemma drop_list_not_found key (rl : list item) :
  forall l it,
    (forall x, In x l -> str_hashed x) ->
    (forall d, In d rl -> str_hashed d) ->
    In it rl ->
    (forall x, In x l -> py_eq (hash_of x) (hash_of it) = false) ->
    exists it', drop_list key l rl true
                = Raise (RuntimeError (not_found_msg key it')).
Proof.
  intros l it Hl Hrl Hit Hmiss.
  destruct (drop_list_hashed key rl l Hl Hrl) as [(l' & H & _)|(it' & _ & H)];
    [|now exists it'].
  exfalso. apply drop_list_Ok in H as (removed & Hperm & Hall).
  destruct (Forall2_In_r _ _ _ _ Hall Hit) as (x & Hx & Hsame).
  assert (Hxl : In x l).
  { apply (Permutation_in _ (Permutation_sym Hperm)). apply in_or_app.
    now left. }
  specialize (Hmiss x Hxl). unfold same_hash in Hsame. congruence.
Qed.

Lemma drop_list_nil key (rl : list item) f (l' : list item) :
  drop_list key [] rl f = Ok l' -> l' = [].
Proof.
  revert l'. induction rl as [|d rl IH]; intros l'.
  - now intros [= <-].
  - rewrite drop_list_cons. destruct (negb (truthy (hash_of d)));
      [discriminate|].
    cbn [drop_hash bind]. destruct (f && negb false); [discriminate|apply IH].
Qed.

(** Where no list is shared, the loop body of [drop] drops from the list
    held under the key and pops the key once the list is empty. *)
Lemma drop_key_unshared (self : Resources) al f key rl :
  same_list al key = false ->
  drop_key self al f key rl =
  (my_list <- drop_list key (items_of self key) rl f ;;
   match my_list with
   | [] => dict_pop self key
   | _ => Ok (dict_set self key my_list)
   end).
Proof.
  intros Hal. unfold drop_key, items_of.
  destruct (dict_get self key) as [[|x l]|] eqn:Eg.
  - destruct (drop_list key [] rl f) as [l'| |] eqn:Ed; [|reflexivity..].
    apply drop_list_nil in Ed. now subst.
  - now rewrite Hal.
  - destruct (drop_list key [] rl f) as [l'| |] eqn:Ed; [|reflexivity..].
    apply drop_list_nil in Ed. now subst.
Qed.

Lemma items_of_set_same (r : Resources) k l : items_of (dict_set r k l) k = l.
Proof. unfold items_of. now rewrite dict_get_set_same. Qed.

Lemma items_of_remove_same (r : Resources) k : items_of (dict_remove r k) k = [].
Proof. unfold items_of. now rewrite dict_get_remove_same. Qed.

Lemma drop_key_Ok (self self' : Resources) al key rl :
  same_list al key = false ->
  drop_key self al true key rl = Ok self' ->
  (exists removed,
      Permutation (items_of self key) (removed ++ items_of self' key) /\
      Forall2 same_hash removed rl) /\
  (forall k', k' <> key -> dict_get self' k' = dict_get self k').
Proof.
  intros Hal. rewrite drop_key_unshared by assumption. intros H.
  apply bind_Ok in H as (my_list & Hd & H).
  apply drop_list_Ok in Hd as (removed & Hperm & Hall).
  destruct my_list as [|y my_list].
  - unfold dict_pop in H. destruct (dict_get self key); [|discriminate].
    injection H as <-. split.
    + exists removed. rewrite items_of_remove_same. now split.
    + intros k' Hne. apply dict_get_remove_other. congruence.
  - injection H as <-. split.
    + exists removed. rewrite items_of_set_same. now split.
    + intros k' Hne. apply dict_get_set_other. congruence.
Qed.

Lemma In_dict_get {V} (d : list (string * V)) k v :
  NoDup (dict_keys d) -> In (k, v) d -> dict_get d k = Some v.
Proof.
  induction d as [|[k0 v0] d IH]; cbn [dict_keys map fst dict_get];
    intros Hnd; [intros []|].
  inversion Hnd as [|? ? Hnotin Hnd']; subst.
  intros [[= -> ->]|Hin]; [now rewrite String.eqb_refl|].
  destruct (String.eqb k0 k) eqn:E; [|now apply IH].
  apply String.eqb_eq in E. subst k0. exfalso. apply Hnotin.
  now apply (in_map fst _ (k, v)).
Qed.

(** A completed [drop] removed from each kind, for each dropped item in
    turn, one item of the same hash, and nothing else. *)
Lemma drop_Ok (reserved : Resources) :
  forall (self self' : Resources) al,
    (forall k, same_list al k = false) ->
    NoDup (dict_keys reserved) ->
    drop self reserved al true = Ok self' ->
    forall key,
    exists removed,
      Permutation (items_of self key) (removed ++ items_of self' key) /\
      Forall2 same_hash removed (items_of reserved key).
Proof.
  intros self self' al Hal Hnd. unfold drop.
  destruct (same_object al); [discriminate|].
  revert self Hnd. induction reserved as [|[k rl] rest IH]; intros self Hnd.
  - intros [= <-] key. exists []. split; [reflexivity|constructor].
  - cbn [for_each fst snd]. intros H.
    apply bind_Ok in H as (self1 & Hstep & Hrest).
    cbn [dict_keys map fst] in Hnd.
    inversion Hnd as [|? ? Hnotin Hnd']; subst.
    apply drop_key_Ok in Hstep as [(removed & Hperm & Hall) Hother];
      [|apply Hal].
    intros key. destruct (IH self1 Hnd' Hrest key) as (removed' & Hperm' & Hall').
    destruct (String.eqb_spec k key) as [->|Hne].
    + assert (Hnone : items_of rest key = []).
      { unfold items_of.
        now rewrite (proj2 (dict_get_None_keys rest key) Hnotin). }
      rewrite Hnone in Hall'. inversion Hall'; subst. cbn [app] in Hperm'.
      exists removed. unfold items_of at 3. cbn [dict_get].
      rewrite String.eqb_refl. split; [|assumption].
      now rewrite Hperm, Hperm'.
    + exists removed'. unfold items_of at 3. cbn [dict_get].
      apply String.eqb_neq in Hne. rewrite Hne. fold (items_of rest key).
      split; [|assumption].
      unfold items_of at 1. rewrite <- Hother by now apply String.eqb_neq in Hne; congruence.
      exact Hperm'.
Qed.

Lemma dict_remove_In {V} (d : list (string * V)) k k' v :
  In (k', v) (dict_remove d k) -> In (k', v) d.
Proof.
  induction d as [|[k0 v0] d IH]; cbn [dict_remove]; [intros []|].
  destruct (String.eqb k0 k).
  - intros H. right. now apply IH.
  - intros [H|H]; [now left|right; now apply IH].
Qed.

Lemma items_of_hashed (self : Resources) key :
  all_str_hashed self -> forall x, In x (items_of self key) -> str_hashed x.
Proof.
  intros Hh x. unfold items_of.
  destruct (dict_get self key) as [l|] eqn:Eg; [|intros []].
  intros Hx. apply (Hh key l x); [now apply dict_get_In|assumption].
Qed.

Lemma after_drop_key_items (self : Resources) key l :
  items_of (after_drop_key self key l) key = l.
Proof.
  destruct l; cbn [after_drop_key];
    [apply items_of_remove_same|apply items_of_set_same].
Qed.

Lemma after_drop_key_other (self : Resources) key l k' :
  k' <> key ->
  dict_get (after_drop_key self key l) k' = dict_get self k'.
Proof.
  intros Hne. destruct l; cbn [after_drop_key];
    [apply dict_get_remove_other|apply dict_get_set_other]; congruence.
Qed.

Lemma after_drop_key_hashed (self : Resources) key l :
  all_str_hashed self -> (forall x, In x l -> str_hashed x) ->
  all_str_hashed (after_drop_key self key l).
Proof.
  intros Hs Hl k' l' it Hin Hit. destruct l as [|y l]; cbn [after_drop_key] in Hin.
  - apply dict_remove_In in Hin. now apply (Hs k' l').
  - apply dict_set_In in Hin as [[-> ->]|Hin]; [now apply Hl|].
    now apply (Hs k' l').
Qed.

Lemma drop_key_step (self : Resources) al key rl (my_list : list item) :
  same_list al key = false -> dict_get self key <> None ->
  drop_list key (items_of self key) rl true = Ok my_list ->
  drop_key self al true key rl = Ok (after_drop_key self key my_list).
Proof.
  intros Hal Hkey Hd. rewrite drop_key_unshared, Hd by assumption.
  cbn [bind]. destruct my_list; [|reflexivity].
  unfold dict_pop. destruct (dict_get self key); [reflexivity|congruence].
Qed.

(** With hashes on every item and every dropped kind held by the receiver,
    [drop] ends in "not found" as soon as one hash to drop is not held. *)
Lemma drop_not_found (reserved : Resources) :
  forall (self : Resources) al,
    same_object al = false -> (forall k, same_list al k = false) ->
    NoDup (dict_keys reserved) ->
    all_str_hashed self -> all_str_hashed reserved ->
    (forall k, In k (dict_keys reserved) -> dict_get self k <> None) ->
    forall key rl it,
      In (key, rl) reserved -> In it rl ->
      (forall x, In x (items_of self key) ->
                 py_eq (hash_of x) (hash_of it) = false) ->
      exists key' it',
        drop self reserved al true
        = Raise (RuntimeError (not_found_msg key' it')).
Proof.
  intros self al Hobj Hal. unfold drop. rewrite Hobj.
  revert self. induction reserved as [|[k l] rest IH];
    intros self Hnd Hself Hres Hkeys key rl it Hin Hit Hmiss; [destruct Hin|].
  cbn [dict_keys map fst] in Hnd, Hkeys.
  inversion Hnd as [|? ? Hnotin Hnd']; subst.
  cbn [for_each fst snd].
  assert (Hl : forall x, In x (items_of self k) -> str_hashed x)
    by now apply items_of_hashed.
  assert (Hrl : forall d, In d l -> str_hashed d)
    by (intros d Hd; apply (Hres k l d); [now left|assumption]).
  destruct Hin as [[= -> ->]|Hin].
  - destruct (drop_list_not_found key rl (items_of self key) it Hl Hrl Hit Hmiss)
      as (it' & Hd).
    exists key, it'. rewrite drop_key_unshared, Hd by apply Hal. reflexivity.
  - assert (Hne : key <> k).
    { intros ->. apply Hnotin. now apply (in_map fst _ (k, rl)). }
    destruct (drop_list_hashed k l (items_of self k) Hl Hrl)
      as [(l' & Hd & Hincl)|(it' & _ & Hd)].
    + rewrite (drop_key_step self al k l l' (Hal k)
                 (Hkeys k (or_introl eq_refl)) Hd).
      cbn [bind].
      apply (IH (after_drop_key self k l')) with (key := key) (rl := rl)
                                                 (it := it); try assumption.
      * apply after_drop_key_hashed; [assumption|].
        intros x Hx. apply Hl. now apply Hincl.
      * intros k' l0 it0 H0 H1. apply (Hres k' l0 it0); [now right|assumption].
      * intros k' Hk'. rewrite after_drop_key_other; [apply Hkeys; now right|].
        intros ->. contradiction.
      * unfold items_of. rewrite after_drop_key_other by assumption.
        exact Hmiss.
    + exists k, it'. rewrite drop_key_unshared, Hd by apply Hal. reflexivity.
Qed.

(** With hashes on every item, [drop] succeeds when each dropped kind is
    held by the receiver with the hashes to drop among its own; per dropped
    kind the hashes left are the others, and other kinds stay as they are. *)
Lemma drop_succeeds (reserved : Resources) :
  forall (self : Resources) (hs : string -> list value),
    NoDup (dict_keys reserved) ->
    (forall key rl,
        In (key, rl) reserved ->
        dict_get self key <> None /\
        (forall x, In x (items_of self key) -> str_hashed x) /\
        (forall d, In d rl -> str_hashed d) /\
        Permutation (hashes (items_of self key)) (hashes rl ++ hs key)) ->
    exists self',
      drop self reserved no_aliasing true = Ok self' /\
      (forall key, In key (dict_keys reserved) ->
                   Permutation (hashes (items_of self' key)) (hs key)) /\
      (forall key, ~ In key (dict_keys reserved) ->
                   dict_get self' key = dict_get self key) /\
      (forall key, In key (dict_keys reserved) ->
                   dict_get self' key <> Some []).
Proof.
  unfold drop. cbn [same_object no_aliasing].
  induction reserved as [|[k l] rest IH]; intros self hs Hnd Hall.
  - exists self. split; [reflexivity|]. split; [intros ? []|].
    split; [reflexivity|intros ? []].
  - cbn [dict_keys map fst] in Hnd |- *.
    inversion Hnd as [|? ? Hnotin Hnd']; subst.
    destruct (Hall k l (or_introl eq_refl)) as (Hkey & Hl & Hrl & Hperm).
    destruct (drop_list_succeeds k l (items_of self k) (hs k) Hl Hrl Hperm)
      as (l' & Hd & Hperm').
    cbn [for_each fst snd].
    rewrite (drop_key_step self no_aliasing k l l' eq_refl Hkey Hd).
    cbn [bind].
    destruct (IH (after_drop_key self k l') hs Hnd')
      as (self' & Hrun & Hin & Hout & Hfull).
    { intros key rl Hkr.
      assert (Hne : key <> k).
      { intros ->. apply Hnotin. now apply (in_map fst _ (k, rl)). }
      unfold items_of. rewrite after_drop_key_other by assumption.
      apply Hall. now right. }
    exists self'. split; [exact Hrun|]. split.
    + intros key [<-|Hk]; [|now apply Hin].
      unfold items_of. rewrite (Hout k Hnotin). fold (items_of (after_drop_key self k l') k).
      now rewrite after_drop_key_items.
    + split.
      * intros key Hk. rewrite Hout by (intros H; apply Hk; now right).
        apply after_drop_key_other. intros ->. apply Hk. now left.
      * intros key [<-|Hk]; [|now apply Hfull].
        rewrite (Hout k Hnotin). destruct l' as [|y l']; cbn [after_drop_key].
        -- now rewrite dict_get_remove_same.
        -- rewrite dict_get_set_same. discriminate.
Qed.

Lemma drop_hash_no_fuel (l : list item) (h : value) :
  drop_hash l h <> OutOfFuel.
Proof.
  induction l as [|y l IH]; cbn [drop_hash]; [discriminate|].
  destruct (negb _); [discriminate|]. destruct (py_eq _ _); [discriminate|].
  destruct (drop_hash l h) as [[found rest]| |]; cbn [bind];
    [discriminate|discriminate|congruence].
Qed.

Lemma drop_list_no_fuel key (rl : list item) :
  forall l f, drop_list key l rl f <> OutOfFuel.
Proof.
  induction rl as [|d rl IH]; intros l f; [discriminate|].
  rewrite drop_list_cons. destruct (negb _); [discriminate|].
  pose proof (drop_hash_no_fuel l (hash_of d)) as Hh.
  destruct (drop_hash l (hash_of d)) as [[found l1]| |]; cbn [bind];
    [|discriminate|congruence].
  destruct (f && negb found); [discriminate|apply IH].
Qed.

Lemma drop_no_fuel (reserved self : Resources) al f :
  drop self reserved al f <> OutOfFuel.
Proof.
  unfold drop. destruct (same_object al); [discriminate|].
  revert self. induction reserved as [|[k l] rest IH]; intros self;
    cbn [for_each fst snd]; [discriminate|].
  assert (Hk : drop_key self al f k l <> OutOfFuel).
  { unfold drop_key, dict_pop.
    destruct (dict_get self k) as [[|x l0]|];
      try destruct (same_list al k); try discriminate;
      match goal with
      | |- context [drop_list k ?m l f] =>
          pose proof (drop_list_no_fuel k l m f) as Hd;
          destruct (drop_list k m l f) as [[|? ?]| |]; cbn [bind];
          try discriminate; try congruence
      end. }
  destruct (drop_key self al f k l); cbn [bind];
    [apply IH|discriminate|congruence].
Qed.

(** C9 (as amended).  [drop] fails loudly.  Given the receiver itself it
    raises the "Refusing to drop a list of resources from itself" error.
    Given a set that shares no list with the receiver: if some dropped item
    has a hash that no item of the receiver's list for that kind has, [drop]
    raises; the error is "resource was not found" when every item on both
    sides carries its hash and the receiver holds every dropped kind; and
    [free] of the pool raises whatever [drop] raises.  When [drop]
    succeeds, it removed from each kind one item per dropped item, of the
    same hash, and nothing else. *)
Theorem drop_fails_loudly (self reserved : Resources) (al : aliasing) :
  (same_object al = true ->
   forall f,
     drop self reserved al f
     = Raise (RuntimeError
                [Lit "Refusing to drop a list of resources from itself. This is probably a bug where a list of Resources() should have been copied but is passed as-is. use Resources.clear() instead."])) /\
  (same_object al = false -> (forall k, same_list al k = false) ->
   NoDup (dict_keys reserved) ->
   (forall key rl it,
       In (key, rl) reserved -> In it rl ->
       (forall x, In x (items_of self key) ->
                  py_eq (hash_of x) (hash_of it) = false) ->
       (exists e, drop self reserved al true = Raise e) /\
       (all_str_hashed self -> all_str_hashed reserved ->
        (forall k, In k (dict_keys reserved) -> dict_get self k <> None) ->
        exists key' it',
          drop self reserved al true
          = Raise (RuntimeError
                ([Lit "Asked to drop resource from a pool, but the resource was not found: ";
                 FmtS key'; Lit " = "; FmtR (VDict it')])))) /\
   (forall self',
       drop self reserved al true = Ok self' ->
       forall key,
       exists removed,
         Permutation (items_of self key) (removed ++ items_of self' key) /\
         Forall2 same_hash removed (items_of reserved key))) /\
  (forall pool is_remembered e,
      drop (read_reserved (rrfile pool)) reserved no_aliasing true = Raise e ->
      pool_free pool reserved is_remembered = Raise e).
Proof.
  split; [|split].
  - intros Hobj f. unfold drop. now rewrite Hobj.
  - intros Hobj Hal Hnd. split.
    + intros key rl it Hin Hit Hmiss. split.
      * destruct (drop self reserved al true) as [self'|e|] eqn:Ed.
        -- exfalso.
           destruct (drop_Ok reserved self self' al Hal Hnd Ed key)
             as (removed & Hperm & Hall).
           unfold items_of in Hall at 1.
           rewrite (In_dict_get _ _ _ Hnd Hin) in Hall.
           destruct (Forall2_In_r _ _ _ _ Hall Hit) as (x & Hx & Hsame).
           assert (Hxl : In x (items_of self key)).
           { apply (Permutation_in _ (Permutation_sym Hperm)).
             apply in_or_app. now left. }
           specialize (Hmiss x Hxl). unfold same_hash in Hsame. congruence.
        -- now exists e.
        -- exfalso. exact (drop_no_fuel _ _ _ _ Ed).
      * intros Hself Hres Hkeys.
        exact (drop_not_found reserved self al Hobj Hal Hnd Hself Hres Hkeys
                 key rl it Hin Hit Hmiss).
    + intros self' Ed key. exact (drop_Ok reserved self self' al Hal Hnd Ed key).
  - intros pool is_remembered e Ed. unfold pool_free. now rewrite Ed.
Qed.

Lemma drop_fails_loudly_witness :
  let self : Resources := [("modem", [[(HASH_KEY, VStr "a")]])] in
  let reserved : Resources := [("modem", [[(HASH_KEY, VStr "b")]])] in
  same_object no_aliasing = false /\
  (forall k, same_list no_aliasing k = false) /\
  NoDup (dict_keys reserved) /\
  all_str_hashed self /\ all_str_hashed reserved /\
  (forall k, In k (dict_keys reserved) -> dict_get self k <> None) /\
  (forall x, In x (items_of self "modem") ->
             py_eq (hash_of x) (hash_of [(HASH_KEY, VStr "b")]) = false) /\
  exists key' it',
    drop self reserved no_aliasing true
    = Raise (RuntimeError
                ([Lit "Asked to drop resource from a pool, but the resource was not found: ";
                 FmtS key'; Lit " = "; FmtR (VDict it')])).
Proof.
  intros self reserved.
  assert (Hnd : NoDup (dict_keys reserved)).
  { constructor; [intros []|constructor]. }
  assert (Hself : all_str_hashed self).
  { intros key l it [[= <- <-]|[]] [<-|[]]. exists "a". now split. }
  assert (Hres : all_str_hashed reserved).
  { intros key l it [[= <- <-]|[]] [<-|[]]. exists "b". now split. }
  assert (Hkeys : forall k, In k (dict_keys reserved) -> dict_get self k <> None).
  { intros k [<-|[]]. discriminate. }
  assert (Hmiss : forall x, In x (items_of self "modem") ->
                    py_eq (hash_of x) (hash_of [(HASH_KEY, VStr "b")]) = false).
  { intros x [<-|[]]. reflexivity. }
  repeat (split; [assumption || reflexivity|]).
  exact (proj2 (proj1 (proj1 (proj2 (drop_fails_loudly self reserved no_aliasing))
                         eq_refl (fun _ => eq_refl) Hnd)
                      "modem" _ _ (or_introl eq_refl) (or_introl eq_refl) Hmiss)
               Hself Hres Hkeys).
Defined.

(** A dropped item carries a hash the receiver does not hold, yet the error
    is the one about unhashed items: another dropped item has no hash. *)
Lemma drop_unhashed_first :
  let self : Resources := [("modem", [[(HASH_KEY, VStr "a")]])] in
  let reserved : Resources :=
    [("modem", [[("label", VStr "x")]; [(HASH_KEY, VStr "b")]])] in
  In [(HASH_KEY, VStr "b")] (items_of reserved "modem") /\
  (forall x, In x (items_of self "modem") ->
             py_eq (hash_of x) (VStr "b") = false) /\
  drop self reserved no_aliasing true
  = Raise (RuntimeError [Lit "Resources.drop() only works with hashed items"]) /\
  forall key it,
    drop self reserved no_aliasing true
    <> Raise (RuntimeError
                ([Lit "Asked to drop resource from a pool, but the resource was not found: ";
                 FmtS key; Lit " = "; FmtR (VDict it)])).
Proof.
  intros self reserved. split; [right; now left|].
  split; [intros x [<-|[]]; reflexivity|].
  split; [reflexivity|]. intros key it. discriminate.
Qed.

(** ** Giving an item back *)

Lemma dict_set_cons {V} (d : list (string * V)) k v :
  exists kv rest, dict_set d k v = kv :: rest.
Proof.
  destruct d as [|[k0 v0] d]; cbn [dict_set]; [now eexists _, _|].
  destruct (String.eqb k0 k); now eexists _, _.
Qed.

(** [put] completes only on a handle that holds no kind at all: for the
    first kind it meets it either fails to draw one more item or trips over
    the keys of the item drawn. *)
Lemma put_Ok_nothing_reserved (self self' : ReservedResources) (it : item) :
  put self it = Ok self' -> reserved self = [].
Proof.
  unfold put. destruct (negb (truthy (get_or_none it USED_KEY)));
    [discriminate|].
  destruct (negb (truthy (get_or_none it HASH_KEY))); [discriminate|].
  destruct (reserved self) as [|[k l] rest]; [reflexivity|].
  cbn [for_each fst]. intros H. exfalso.
  apply bind_Ok in H as (self1 & H & _).
  apply bind_Ok in H as ([self2 my_list] & Hget & H).
  apply get_Ok in Hget as (i & pick & _ & _ & -> & _).
  destruct (dict_set_cons pick USED_KEY (VBool true)) as ([k0 v0] & more & E).
  rewrite E in H. cbn in H. discriminate.
Qed.

(** C5.  On the handle holding the single modem [{_hash: 'm1'}]:
    [get('modem', {})] draws the item, [put] of it raises instead of
    clearing the marker, and [get('modem', {})] then finds nothing to
    hand out; with a second, unused modem in the handle [put] raises
    [AttributeError]. *)
Theorem put_raises_and_keeps_item_used :
  let m1 : item := [(HASH_KEY, VStr "m1")] in
  let u1 : item := [(HASH_KEY, VStr "m1"); (USED_KEY, VBool true)] in
  let handle l := {| origin := "suite"; reserved_original := None;
                     reserved := [("modem", l)] |} in
  let in_use :=
    NoResourceExn
      [Lit "When trying to use instance nr "; FmtD 2; Lit " of ";
       FmtR (VStr "modem"); Lit ": "; Lit "suite.conf reserved only ";
       FmtD 1; Lit " x "; FmtR (VStr "modem"); Lit "."] in
  get (handle [m1]) "modem" (Some (VDict [])) = Ok (handle [u1], u1) /\
  put (handle [u1]) u1 = Raise in_use /\
  get (handle [u1]) "modem" (Some (VDict [])) = Raise in_use /\
  put (handle [u1; m1]) u1 = Raise AttributeError.
Proof.
  cbv zeta. repeat (split; [reflexivity|]). reflexivity.
Qed.

(** ** Persistent counters *)

(** C6.  [next_zmq_port_range] keeps its value in the file of [next_bvci],
    [last_used_bvci.state]: after one BVCI was handed out, a port range of
    two starts at base port 5 and moves the BVCI counter from 3 to 5, so
    the next BVCI is 6. *)
Theorem zmq_port_range_moves_bvci_counter :
  let pool files := {| all_resources := []; rrfile := None;
                       token_files := files; _remember_to_free := None;
                       _registered_exit_handler := false |} in
  next_bvci (pool []) = Ok (pool [("last_used_bvci.state", "3")], "3") /\
  next_zmq_port_range (pool [("last_used_bvci.state", "3")]) 2 =
    Ok (pool [("last_used_bvci.state", "5")], 5%Z) /\
  next_bvci (pool [("last_used_bvci.state", "5")]) =
    Ok (pool [("last_used_bvci.state", "6")], "6").
Proof.
  cbv zeta. repeat (split; [vm_compute; reflexivity|]).
  vm_compute; reflexivity.
Qed.

(** Whenever [next_zmq_port_range] returns, it has written the file of the
    BVCI counter. *)
Lemma next_zmq_port_range_writes_bvci self num_ports self' base_port :
  next_zmq_port_range self num_ports = Ok (self', base_port) ->
  dict_get (token_files self') (token_path "bvci") <> None.
Proof.
  intros H. unfold next_zmq_port_range in H.
  apply bind_Ok in H as ([self1 base] & H & H').
  apply bind_Ok in H' as (b & _ & [= <- _]).
  unfold next_persistent_value in H.
  apply bind_Ok in H as (last_value & _ & H).
  apply bind_Ok in H as (next_value & _ & [= <- _]).
  cbn [token_files]. rewrite dict_get_set_same. discriminate.
Qed.

(** ** Reserving and freeing *)

Lemma items_of_set_other (r : Resources) k k' l :
  k <> k' -> items_of (dict_set r k l) k' = items_of r k'.
Proof. intros H. unfold items_of. now rewrite dict_get_set_other. Qed.

Lemma items_of_absent (r : Resources) k :
  ~ In k (dict_keys r) -> items_of r k = [].
Proof.
  intros H. unfold items_of. now rewrite (proj2 (dict_get_None_keys r k) H).
Qed.

Lemma items_of_In (r : Resources) k l :
  NoDup (dict_keys r) -> In (k, l) r -> items_of r k = l.
Proof. intros Hnd Hin. unfold items_of. now rewrite (In_dict_get r k l). Qed.

(** [schema_add] appends, kind by kind. *)
Lemma schema_add_items (src : Resources) :
  forall dest,
    NoDup (dict_keys src) ->
    (forall k, items_of (schema_add dest src) k
               = items_of dest k ++ items_of src k) /\
    (forall k, In k (dict_keys src) -> dict_get (schema_add dest src) k <> None) /\
    (forall k, ~ In k (dict_keys src) ->
               dict_get (schema_add dest src) k = dict_get dest k).
Proof.
  unfold schema_add. induction src as [|[k l] rest IH]; intros dest Hnd.
  - cbn [fold_left]. split; [|split].
    + intros k. unfold items_of at 3. cbn [dict_get]. now rewrite app_nil_r.
    + intros k [].
    + reflexivity.
  - cbn [dict_keys map fst] in Hnd |- *.
    inversion Hnd as [|? ? Hnotin Hnd']; subst. cbn [fold_left].
    set (dest1 := match dict_get dest k with
                  | Some l0 => dict_set dest k (l0 ++ l)
                  | None => dict_set dest k l
                  end).
    assert (Hk : items_of dest1 k = items_of dest k ++ l).
    { unfold dest1, items_of at 2.
      destruct (dict_get dest k); now rewrite items_of_set_same. }
    assert (Hother : forall k', k <> k' -> dict_get dest1 k' = dict_get dest k').
    { intros k' Hne. unfold dest1.
      destruct (dict_get dest k); now apply dict_get_set_other. }
    assert (Hsome : dict_get dest1 k <> None).
    { unfold dest1. destruct (dict_get dest k);
        rewrite dict_get_set_same; discriminate. }
    destruct (IH dest1 Hnd') as (Hitems & Hin & Hout).
    split; [|split].
    + intros k'. rewrite Hitems. unfold items_of at 4. cbn [dict_get].
      destruct (String.eqb_spec k k') as [<-|Hne].
      * rewrite Hk, (items_of_absent rest k Hnotin). now rewrite app_nil_r.
      * fold (items_of rest k'). unfold items_of at 1.
        rewrite Hother by assumption. reflexivity.
    + intros k' [<-|Hk']; [|now apply Hin].
      now rewrite Hout.
    + intros k' Hk'. rewrite Hout by (intros H; apply Hk'; now right).
      apply Hother. intros ->. apply Hk'. now left.
Qed.

Lemma dict_set_keys {V} (d : list (string * V)) k v :
  NoDup (dict_keys d) -> NoDup (dict_keys (dict_set d k v)).
Proof.
  induction d as [|[k0 v0] d IH]; cbn [dict_set dict_keys map fst]; intros Hnd.
  - constructor; [intros []|constructor].
  - inversion Hnd as [|? ? Hnotin Hnd']; subst.
    destruct (String.eqb k0 k) eqn:E; cbn [dict_keys map fst];
      [now constructor|].
    constructor; [|now apply IH].
    intros Hin. apply in_map_iff in Hin as ([k1 v1] & Hk1 & Hin).
    cbn in Hk1. subst k1.
    apply dict_set_In in Hin as [[-> _]|Hin].
    + now rewrite String.eqb_refl in E.
    + apply Hnotin. now apply (in_map fst _ (k0, v1)).
Qed.

(** What [find] returns: kinds without repetition, and under each kind
    items the receiver holds under that kind. *)
Lemma find_Ok (self : Resources) want skip rim (found : Resources) :
  find self want skip rim = Ok found ->
  NoDup (dict_keys found) /\
  forall key l it, In (key, l) found -> In it l -> In it (items_of self key).
Proof.
  unfold find. intros H. apply bind_Ok in H as (matches & Hm & [= <-]).
  split.
  - unfold dict_keys. rewrite map_map. cbn [fst].
    change (NoDup (dict_keys matches)).
    unfold find_matches in Hm.
    refine (for_each_invariant (fun m => NoDup (dict_keys m)) _ _ _ [] matches
              (NoDup_nil _) Hm).
    intros m [key want_list] m' _ Hnd Hstep.
    apply bind_Ok in Hstep as (solution & _ & Hstep).
    apply bind_Ok in Hstep as (picked & _ & [= <-]).
    now apply dict_set_keys.
  - intros key l it Hin Hit.
    apply in_map_iff in Hin as ([key' picked] & [= -> <-] & Hin).
    apply in_map_iff in Hit as ([i it'] & Heq & Hit). cbn in Heq. subst it'.
    destruct (find_matches_unmarked _ _ _ _ _ Hm key picked i it Hin Hit)
      as [Hn _].
    apply nth_error_In in Hn. exact Hn.
Qed.

Lemma hash_of_reserved (it : item) origin_id :
  hash_of (dict_set it RESERVED_KEY (VStr origin_id)) = hash_of it.
Proof.
  unfold hash_of, get_or_none. now rewrite dict_get_set_other by discriminate.
Qed.

Lemma mark_reserved_by_keys (r : Resources) origin_id :
  dict_keys (mark_reserved_by r origin_id) = dict_keys r.
Proof.
  unfold mark_reserved_by, dict_keys. rewrite map_map. reflexivity.
Qed.

Lemma mark_reserved_by_In (r : Resources) origin_id key l it :
  In (key, l) (mark_reserved_by r origin_id) -> In it l ->
  exists l0 it0,
    In (key, l0) r /\ In it0 l0 /\ hash_of it = hash_of it0.
Proof.
  unfold mark_reserved_by. intros Hin Hit.
  apply in_map_iff in Hin as ([key' l0] & [= -> <-] & Hin).
  apply in_map_iff in Hit as (it0 & <- & Hit).
  exists l0, it0. repeat split; try assumption. apply hash_of_reserved.
Qed.

Lemma drop_key_Ok_after (self self' : Resources) al key rl :
  same_list al key = false ->
  drop_key self al true key rl = Ok self' ->
  exists l',
    drop_list key (items_of self key) rl true = Ok l' /\
    self' = after_drop_key self key l'.
Proof.
  intros Hal. rewrite drop_key_unshared by assumption. intros H.
  apply bind_Ok in H as (l' & Hd & H). exists l'. split; [assumption|].
  destruct l' as [|y l']; cbn [after_drop_key]; [|congruence].
  unfold dict_pop in H. destruct (dict_get self key); congruence.
Qed.

(** A completed [drop] from a receiver whose items all carry a string hash
    shows that the dropped items carry one too, and leaves such a
    receiver. *)
Lemma drop_Ok_hashed (reserved : Resources) :
  forall (self self' : Resources) al,
    (forall k, same_list al k = false) ->
    all_str_hashed self ->
    drop self reserved al true = Ok self' ->
    all_str_hashed self' /\ all_str_hashed reserved /\
    (forall key it, In it (items_of self' key) -> In it (items_of self key)).
Proof.
  intros self self' al Hal. unfold drop.
  destruct (same_object al); [discriminate|].
  revert self. induction reserved as [|[k rl] rest IH]; intros self Hself.
  - intros [= <-]. split; [assumption|]. split; [intros ? ? ? []|auto].
  - cbn [for_each fst snd]. intros H.
    apply bind_Ok in H as (self1 & Hstep & Hrest).
    apply drop_key_Ok_after in Hstep as (l' & Hd & ->); [|apply Hal].
    pose proof Hd as Hd'.
    apply drop_list_Ok in Hd as (removed & Hperm & Hall).
    assert (Hl : forall x, In x (items_of self k) -> str_hashed x)
      by now apply items_of_hashed.
    assert (Hincl : forall x, In x l' -> In x (items_of self k)).
    { intros x Hx. apply (Permutation_in _ (Permutation_sym Hperm)).
      apply in_or_app. now right. }
    destruct (IH (after_drop_key self k l')) as (H1 & H2 & H3);
      [apply after_drop_key_hashed; auto|assumption|].
    split; [assumption|]. split.
    + intros key l it [[= <- <-]|Hin] Hit; [|now apply (H2 key l)].
      destruct (Forall2_In_r _ _ _ _ Hall Hit) as (x & Hx & Hsame).
      assert (Hxs : str_hashed x).
      { apply Hl. apply (Permutation_in _ (Permutation_sym Hperm)).
        apply in_or_app. now left. }
      destruct Hxs as (s & Hs & Hne). exists s. split; [|assumption].
      rewrite (same_hash_str x it); [assumption| |assumption].
      now exists s.
    + intros key it Hit. apply H3 in Hit.
      destruct (String.eqb_spec key k) as [->|Hne].
      * rewrite after_drop_key_items in Hit. now apply Hincl.
      * unfold items_of in Hit |- *.
        now rewrite after_drop_key_other in Hit.
Qed.

Lemma hashes_nil (l : list item) : Permutation (hashes l) [] -> l = [].
Proof.
  intros H. apply Permutation_sym, Permutation_nil in H.
  destruct l; [reflexivity|discriminate].
Qed.

Lemma hashes_app (l1 l2 : list item) : hashes (l1 ++ l2) = hashes l1 ++ hashes l2.
Proof. apply map_app. Qed.

(** Dropping what was just added leaves, kind by kind, the hashes that
    were there before. *)
Lemma add_then_drop (dest src : Resources) :
  NoDup (dict_keys src) -> all_str_hashed dest -> all_str_hashed src ->
  exists dest',
    drop (schema_add dest src) src no_aliasing true = Ok dest' /\
    (forall k, Permutation (hashes (items_of dest' k)) (hashes (items_of dest k))) /\
    (forall k, In k (dict_keys dest') -> In k (dict_keys dest)).
Proof.
  intros Hnd Hdest Hsrc.
  destruct (schema_add_items src dest Hnd) as (Hitems & Hin & Hout).
  destruct (drop_succeeds src (schema_add dest src)
              (fun k => hashes (items_of dest k)) Hnd)
    as (dest' & Hrun & Hkin & Hkout & Hfull).
  { intros key rl Hkr.
    assert (Hrl : items_of src key = rl) by now apply items_of_In.
    split; [apply Hin; now apply (in_map fst _ (key, rl))|].
    rewrite Hitems, Hrl. split; [|split].
    - intros x Hx. apply in_app_or in Hx as [Hx|Hx].
      + now apply (items_of_hashed dest key).
      + now apply (Hsrc key rl).
    - intros d Hd. now apply (Hsrc key rl).
    - rewrite hashes_app. apply Permutation_app_comm. }
  assert (Hperm : forall k, Permutation (hashes (items_of dest' k))
                                        (hashes (items_of dest k))).
  { intros k. destruct (in_dec string_dec k (dict_keys src)) as [Hk|Hk].
    - now apply Hkin.
    - unfold items_of. now rewrite (Hkout k Hk), (Hout k Hk). }
  exists dest'. split; [exact Hrun|]. split; [exact Hperm|].
  intros k Hk'. destruct (dict_get dest k) as [l|] eqn:Eg.
  - apply dict_get_In in Eg. now apply (in_map fst _ (k, l)).
  - exfalso. destruct (in_dec string_dec k (dict_keys src)) as [Hk|Hk].
    + specialize (Hperm k). specialize (Hfull k Hk).
      unfold items_of in Hperm at 2. rewrite Eg in Hperm.
      apply hashes_nil in Hperm. unfold items_of in Hperm.
      destruct (dict_get dest' k) as [l|] eqn:Eg'.
      * subst l. congruence.
      * apply dict_get_None_keys in Eg'. contradiction.
    + rewrite <- (Hout k Hk), <- (Hkout k Hk) in Eg.
      apply dict_get_None_keys in Eg. contradiction.
Qed.

Lemma dict_remove_keys {V} (d : list (string * V)) k :
  NoDup (dict_keys d) -> NoDup (dict_keys (dict_remove d k)).
Proof.
  induction d as [|[k0 v0] d IH]; cbn [dict_remove dict_keys map fst];
    intros Hnd; [constructor|].
  inversion Hnd as [|? ? Hnotin Hnd']; subst.
  destruct (String.eqb k0 k); [now apply IH|].
  cbn [dict_keys map fst]. constructor; [|now apply IH].
  intros Hin. apply in_map_iff in Hin as ([k1 v1] & Hk1 & Hin).
  cbn in Hk1. subst k1. apply dict_remove_In in Hin.
  apply Hnotin. now apply (in_map fst _ (k0, v1)).
Qed.

Lemma after_drop_key_keys (self : Resources) key l :
  NoDup (dict_keys self) -> NoDup (dict_keys (after_drop_key self key l)).
Proof.
  intros H. destruct l; cbn [after_drop_key];
    [now apply dict_remove_keys|now apply dict_set_keys].
Qed.

Lemma schema_add_keys (src : Resources) :
  forall dest, NoDup (dict_keys dest) -> NoDup (dict_keys (schema_add dest src)).
Proof.
  unfold schema_add. induction src as [|[k l] rest IH]; intros dest Hnd;
    cbn [fold_left]; [assumption|].
  apply IH. destruct (dict_get dest k); now apply dict_set_keys.
Qed.

(** A completed [drop] keeps the kinds of the receiver distinct and found
    every dropped kind in the receiver. *)
Lemma drop_Ok_keys (reserved : Resources) :
  forall (self self' : Resources) al,
    (forall k, same_list al k = false) ->
    NoDup (dict_keys reserved) ->
    drop self reserved al true = Ok self' ->
    (NoDup (dict_keys self) -> NoDup (dict_keys self')) /\
    (forall k, In k (dict_keys reserved) -> dict_get self k <> None).
Proof.
  intros self self' al Hal. unfold drop.
  destruct (same_object al); [discriminate|].
  revert self. induction reserved as [|[k rl] rest IH]; intros self Hnd.
  - intros [= <-]. split; [auto|intros ? []].
  - cbn [dict_keys map fst] in Hnd |- *.
    inversion Hnd as [|? ? Hnotin Hnd']; subst.
    cbn [for_each fst snd]. intros H.
    apply bind_Ok in H as (self1 & Hstep & Hrest).
    assert (Hk : dict_get self k <> None).
    { rewrite drop_key_unshared in Hstep by apply Hal.
      apply bind_Ok in Hstep as (l' & Hd & Hstep).
      intros Hnone. assert (Hi : items_of self k = [])
        by (unfold items_of; now rewrite Hnone).
      rewrite Hi in Hd. apply drop_list_nil in Hd. subst l'.
      unfold dict_pop in Hstep. now rewrite Hnone in Hstep. }
    apply drop_key_Ok_after in Hstep as (l' & Hd & ->); [|apply Hal].
    destruct (IH _ Hnd' Hrest) as [Hkeys Hpresent]. split.
    + intros Hs. apply Hkeys. now apply after_drop_key_keys.
    + intros k' [<-|Hk']; [assumption|].
      rewrite <- (after_drop_key_other self k l' k'); [now apply Hpresent|].
      intros ->. contradiction.
Qed.

Lemma same_hash_hashes (removed rl : list item) :
  (forall x, In x removed -> str_hashed x) ->
  Forall2 same_hash removed rl -> hashes removed = hashes rl.
Proof.
  intros Hh H. induction H as [|x y removed rl Hxy _ IH]; [reflexivity|].
  cbn [hashes map]. fold (hashes removed) (hashes rl).
  rewrite IH by (intros z Hz; apply Hh; now right).
  now rewrite (same_hash_str x y) by (try apply Hh; auto; now left).
Qed.

(** What is left of the catalog after dropping a record depends, hash for
    hash, only on the hashes the record holds per kind. *)
Lemma without_same_hashes (catalog r1 r2 avail1 : Resources) :
  all_str_hashed catalog -> all_str_hashed r2 ->
  NoDup (dict_keys r1) -> NoDup (dict_keys r2) ->
  (forall k, Permutation (hashes (items_of r2 k)) (hashes (items_of r1 k))) ->
  (forall k, In k (dict_keys r2) -> In k (dict_keys r1)) ->
  without catalog r1 = Ok avail1 ->
  exists avail2,
    without catalog r2 = Ok avail2 /\
    forall k, Permutation (hashes (items_of avail2 k))
                          (hashes (items_of avail1 k)).
Proof.
  unfold without. intros Hcat Hr2 Hnd1 Hnd2 Hperm Hsub H1.
  pose proof (drop_Ok r1 catalog avail1 no_aliasing (fun _ => eq_refl) Hnd1 H1)
    as Hok.
  destruct (drop_Ok_keys r1 catalog avail1 no_aliasing (fun _ => eq_refl) Hnd1 H1)
    as [_ Hpresent].
  assert (Hsplit : forall k,
             Permutation (hashes (items_of catalog k))
               (hashes (items_of r1 k) ++ hashes (items_of avail1 k))).
  { intros k. destruct (Hok k) as (removed & Hp & Hall).
    rewrite <- (same_hash_hashes removed (items_of r1 k)); [| |assumption].
    - rewrite <- hashes_app. unfold hashes. now apply Permutation_map.
    - intros x Hx. apply (items_of_hashed catalog k Hcat).
      apply (Permutation_in _ (Permutation_sym Hp)). apply in_or_app.
      now left. }
  destruct (drop_succeeds r2 catalog (fun k => hashes (items_of avail1 k)) Hnd2)
    as (avail2 & Hrun & Hin & Hout & _).
  { intros key rl Hkr.
    assert (Hrl : items_of r2 key = rl) by now apply items_of_In.
    split; [apply Hpresent, Hsub; now apply (in_map fst _ (key, rl))|].
    split; [now apply items_of_hashed|].
    split; [intros d Hd; now apply (Hr2 key rl)|].
    rewrite <- Hrl, Hperm. apply Hsplit. }
  exists avail2. split; [exact Hrun|].
  intros k. destruct (in_dec string_dec k (dict_keys r2)) as [Hk|Hk];
    [now apply Hin|].
  unfold items_of at 1. rewrite (Hout k Hk). fold (items_of catalog k).
  rewrite Hsplit.
  specialize (Hperm k). rewrite (items_of_absent r2 k Hk) in Hperm.
  cbn [hashes map] in Hperm.
  rewrite (hashes_nil (items_of r1 k)) by now apply Permutation_sym.
  reflexivity.
Qed.

Lemma schema_add_hashed (src : Resources) :
  forall dest,
    all_str_hashed dest -> all_str_hashed src ->
    all_str_hashed (schema_add dest src).
Proof.
  unfold schema_add. induction src as [|[k l] rest IH]; intros dest Hd Hs;
    cbn [fold_left]; [assumption|].
  apply IH.
  - intros k' l' it Hin Hit.
    destruct (dict_get dest k) as [l0|] eqn:Eg;
      apply dict_set_In in Hin as [[-> ->]|Hin];
      try (now apply (Hd k' l')).
    + apply in_app_or in Hit as [Hit|Hit].
      * apply (Hd k l0); [now apply dict_get_In|assumption].
      * apply (Hs k l); [now left|assumption].
    + apply (Hs k l); [now left|assumption].
  - intros k' l' it Hin Hit. apply (Hs k' l'); [now right|assumption].
Qed.

(** A pool fresh from [read_conf] is in order, given that fingerprints are
    never empty. *)
Lemma read_conf_ok (hash_obj : item -> string) (conf : Resources) :
  (forall it, hash_obj it <> "") -> pool_ok (read_conf hash_obj conf).
Proof.
  intros Hne. split; [|split].
  - intros key l it Hin Hit. cbn [read_conf all_resources] in Hin.
    unfold set_hashes in Hin.
    apply in_map_iff in Hin as ([key' l0] & [= -> <-] & _).
    apply in_map_iff in Hit as (it0 & <- & _).
    exists (hash_obj it0). split; [|apply Hne].
    unfold hash_of. apply get_or_none_set_same.
  - constructor.
  - intros key l it [].
Qed.

(** C3.  Whenever [reserve] succeeds, [free] on the handle it returned
    succeeds too, and the persisted record then holds, kind by kind, the
    hashes it held before the reservation (as many of each), so that the
    catalog without the record is, hash for hash, what it was before. *)
Theorem reserve_then_free_restores_record
    (schema_validate : Want -> res unit)
    (overlay : Resources -> Want -> res Resources)
    (pool pool1 : ResourcesPool) (origin_id : string) (want modifiers : Want)
    (handle : ReservedResources) :
  pool_ok pool ->
  reserve schema_validate overlay pool origin_id want modifiers
    = Ok (pool1, handle) ->
  exists pool2 handle2 avail avail2,
    free pool1 handle = Ok (pool2, handle2) /\
    (forall kind,
        Permutation (hashes (items_of (record pool2) kind))
                    (hashes (items_of (record pool) kind))) /\
    (forall kind h,
        In h (hashes (items_of (record pool2) kind)) <->
        In h (hashes (items_of (record pool) kind))) /\
    without (all_resources pool) (record pool) = Ok avail /\
    without (all_resources pool2) (record pool2) = Ok avail2 /\
    (forall kind,
        Permutation (hashes (items_of avail2 kind))
                    (hashes (items_of avail kind))).
Proof.
  intros (Hcat & Hnd & Hrem) H. unfold reserve in H.
  apply bind_Ok in H as (_ & _ & H). apply bind_Ok in H as (_ & _ & H).
  apply bind_Ok in H as ([reserved' to_be_reserved] & Hdec & H).
  apply bind_Ok in H as (pool1' & Hremember & H).
  apply bind_Ok in H as (handle' & Hnew & [= <- <-]).
  (* the decision taken under the lock *)
  unfold reserve_decision in Hdec. fold (record pool) in Hdec.
  apply bind_Ok in Hdec as (avail & Hwithout & Hdec).
  apply bind_Ok in Hdec as (found & Hfind & Hdec).
  cbn [add bind] in Hdec. injection Hdec as <- <-.
  set (granted := mark_reserved_by found origin_id) in *.
  destruct (drop_Ok_hashed _ _ _ no_aliasing (fun _ => eq_refl) Hcat Hwithout)
    as (Havail & Hrec & Hsub).
  destruct (find_Ok _ _ _ _ _ Hfind) as [Hfnd Hfin].
  assert (Hgnd : NoDup (dict_keys granted))
    by (unfold granted; now rewrite mark_reserved_by_keys).
  assert (Hgranted : all_str_hashed granted).
  { intros key l it Hin Hit.
    destruct (mark_reserved_by_In _ _ _ _ _ Hin Hit) as (l0 & it0 & H0 & H1 & Hh).
    destruct (items_of_hashed avail key Havail it0) as (s & Hs & Hne);
      [now apply (Hfin key l0)|].
    exists s. split; [congruence|assumption]. }
  (* the handle and the pool after [reserve] *)
  unfold new_ReservedResources in Hnew.
  apply bind_Ok in Hnew as (overlaid & _ & [= <-]).
  unfold remember_to_free in Hremember. cbn [add bind rrfile] in Hremember.
  injection Hremember as <-.
  set (remembered := if falsy (_remember_to_free pool) then []
                     else read_reserved (_remember_to_free pool)) in *.
  assert (Hremembered : all_str_hashed remembered).
  { unfold remembered. destruct (falsy _); [intros ? ? ? []|assumption]. }
  (* [free] *)
  destruct (add_then_drop (record pool) granted Hgnd Hrec Hgranted)
    as (record2 & Hdrop & Hperm & Hkeys).
  destruct (add_then_drop remembered granted Hgnd Hremembered Hgranted)
    as (remembered2 & Hdrop' & _ & _).
  assert (Hnd2 : NoDup (dict_keys record2)).
  { apply (proj1 (drop_Ok_keys _ _ _ no_aliasing (fun _ => eq_refl) Hgnd Hdrop)).
    now apply schema_add_keys. }
  assert (Hrec2 : all_str_hashed record2).
  { apply (drop_Ok_hashed _ _ _ no_aliasing (fun _ => eq_refl)
             (schema_add_hashed _ _ Hrec Hgranted) Hdrop). }
  destruct (without_same_hashes _ _ _ _ Hcat Hrec2 Hnd Hnd2 Hperm Hkeys Hwithout)
    as (avail2 & Hwithout2 & Hperm2).
  unfold free. cbn [reserved_original read_reserved].
  destruct granted as [|kl granted'] eqn:Eg; cbn [falsy bind].
  - eexists _, _, avail, avail. split; [reflexivity|].
    cbn [record rrfile read_reserved schema_add fold_left all_resources].
    fold (record pool).
    repeat split; try reflexivity; auto.
  - unfold pool_free.
    cbn [rrfile read_reserved]. rewrite Hdrop. cbn [bind].
    unfold forget_freed. cbn [_remember_to_free]. rewrite Hdrop'. cbn [bind].
    eexists _, _, avail, avail2. split; [reflexivity|].
    cbn [record rrfile read_reserved all_resources].
    split; [exact Hperm|]. split.
    + intros kind h. split; apply Permutation_in;
        [apply Hperm|apply Permutation_sym, Hperm].
    + split; [exact Hwithout|]. split; [exact Hwithout2|exact Hperm2].
Qed.

Lemma reserve_then_free_restores_record_witness :
  let m1 : item := [(HASH_KEY, VStr "m1")] in
  let m2 : item := [(HASH_KEY, VStr "m2")] in
  let r1 : item := [(HASH_KEY, VStr "m1"); (RESERVED_KEY, VStr "suite-1")] in
  let catalog : Resources := [("modem", [m1; m2])] in
  let pool := {| all_resources := catalog; rrfile := None;
                 token_files := []; _remember_to_free := None;
                 _registered_exit_handler := false |} in
  let pool1 := {| all_resources := catalog;
                  rrfile := Some [("modem", [r1])];
                  token_files := [];
                  _remember_to_free := Some [("modem", [r1])];
                  _registered_exit_handler := true |} in
  let handle := {| origin := "suite-1";
                   reserved_original := Some [("modem", [r1])];
                   reserved := [("modem", [r1])] |} in
  let validate (_ : Want) : res unit := Ok tt in
  let overlay (r : Resources) (_ : Want) : res Resources := Ok r in
  pool_ok pool /\
  reserve validate overlay pool "suite-1" [("modem", [VDict []])] []
    = Ok (pool1, handle) /\
  exists pool2 handle2,
    free pool1 handle = Ok (pool2, handle2) /\
    forall kind,
      Permutation (hashes (items_of (record pool2) kind))
                  (hashes (items_of (record pool) kind)).
Proof.
  intros m1 m2 r1 catalog pool pool1 handle validate overlay.
  assert (Hok : pool_ok pool).
  { split; [|split].
    - intros key l it [[= <- <-]|[]] [<-|[<-|[]]];
        eexists; (split; [reflexivity|discriminate]).
    - constructor.
    - intros key l it []. }
  assert (Hres : reserve validate overlay pool "suite-1"
                   [("modem", [VDict []])] [] = Ok (pool1, handle))
    by reflexivity.
  split; [exact Hok|]. split; [exact Hres|].
  destruct (reserve_then_free_restores_record _ _ _ _ _ _ _ _ Hok Hres)
    as (pool2 & handle2 & _ & _ & Hfree & Hperm & _).
  exists pool2, handle2. split; assumption.
Defined.

Lemma get_never_picks_used_item_witness :
  let u1 : item := [(HASH_KEY, VStr "m1"); (USED_KEY, VBool true)] in
  let m2 : item := [(HASH_KEY, VStr "m2")] in
  let self := {| origin := "suite"; reserved_original := None;
                 reserved := [("modem", [u1; m2])] |} in
  find_matches (reserved self) [("modem", [VDict []])] (Some USED_KEY) false
    = Ok [("modem", [(1, m2)])] /\
  nth_error [u1; m2] 1 = Some m2 /\
  truthy (get_or_none m2 USED_KEY) = false.
Proof.
  intros u1 m2 self.
  assert (Hf : find_matches (reserved self) [("modem", [VDict []])]
                 (Some USED_KEY) false = Ok [("modem", [(1, m2)])])
    by reflexivity.
  split; [exact Hf|].
  exact (proj1 (get_never_picks_used_item self "modem" None)
           _ _ _ Hf "modem" [(1, m2)] 1 m2
           (or_introl eq_refl) (or_introl eq_refl)).
Defined.

(** ** Matching *)

Lemma size_pos (v : value) : 1 <= size v.
Proof. destruct v; cbn [size]; lia. Qed.

Lemma size_list_elem (l : list value) (x : value) :
  In x l -> size x < size (VList l).
Proof.
  cbn [size]. induction l as [|y l IH]; [intros []|].
  cbn [fold_right]. intros [<-|Hin]; [lia|]. specialize (IH Hin). lia.
Qed.

Lemma size_dict_elem (d : list (string * value)) (k : string) (x : value) :
  In (k, x) d -> size x < size (VDict d).
Proof.
  cbn [size]. induction d as [|[k0 y] d IH]; [intros []|].
  cbn [fold_right]. intros [[= <- <-]|Hin]; [lia|]. specialize (IH Hin). lia.
Qed.

Lemma size_get_or_none (d : list (string * value)) (k : string) :
  size (get_or_none d k) <= size (VDict d).
Proof.
  unfold get_or_none. destruct (dict_get d k) as [v|] eqn:E.
  - apply dict_get_In in E. apply size_dict_elem in E. lia.
  - apply size_pos.
Qed.

Lemma elem_or_empty_Ok (l : list value) (i : nat) (t : pytype) (x : value) :
  elem_or_empty l i t = Ok x ->
  (i < length l /\ In x l) \/ (length l <= i /\ size x = 1).
Proof.
  unfold elem_or_empty. destruct (nth_error l i) as [y|] eqn:E.
  - intros [= <-]. left. split; [|now apply nth_error_In in E].
    apply nth_error_Some. congruence.
  - intros H. right. split; [now apply nth_error_None|].
    destruct t; cbn in H; try discriminate; now injection H as <-.
Qed.

Lemma all_ok_ext_in {A} (f g : A -> res bool) (l : list A) :
  (forall x, In x l -> f x = g x) -> all_ok f l = all_ok g l.
Proof.
  induction l as [|x l IH]; intros H; cbn [all_ok]; [reflexivity|].
  rewrite (H x) by now left. destruct (g x) as [[|]| |]; cbn [bind];
    try reflexivity.
  apply IH. intros y Hy. apply H. now right.
Qed.

(** Past the total size of its arguments, more fuel changes nothing. *)
Lemma item_matches_fuel_stable (n : nat) :
  forall item wanted ik m,
    size item + size wanted <= n -> size item + size wanted <= m ->
    item_matches_fuel n item wanted ik = item_matches_fuel m item wanted ik.
Proof.
  induction n as [|n IH]; intros item wanted ik m Hn Hm.
  { pose proof (size_pos item). lia. }
  destruct m as [|m]; [pose proof (size_pos item); lia|].
  cbn [item_matches_fuel].
  destruct wanted as [| | | |wl|wd]; try reflexivity.
  - destruct item as [| | | |l|d]; try reflexivity.
    destruct (list_validate_same_elem_type (wl ++ l)) as [[t|]| |];
      cbn [bind]; try reflexivity.
    destruct (structured t); [|reflexivity].
    apply all_ok_ext_in. intros i Hi. apply in_seq in Hi.
    destruct (elem_or_empty l i t) as [sub| |] eqn:Es; cbn [bind];
      try reflexivity.
    destruct (elem_or_empty wl i t) as [wsub| |] eqn:Ew; cbn [bind];
      try reflexivity.
    apply elem_or_empty_Ok in Es, Ew.
    pose proof (size_pos sub). pose proof (size_pos wsub).
    assert (Hlt : size sub + size wsub < size (VList l) + size (VList wl)).
    { destruct Es as [[_ Hs]|[Hs1 Hs2]], Ew as [[_ Hw]|[Hw1 Hw2]];
        try apply size_list_elem in Hs; try apply size_list_elem in Hw;
        cbn [size] in *; lia. }
    apply IH; lia.
  - destruct item as [| | | |l|d]; try reflexivity.
    apply all_ok_ext_in. intros [key wanted_val] Hin.
    destruct (ignored ik key); [reflexivity|].
    pose proof (size_get_or_none d key).
    apply size_dict_elem in Hin. apply IH; lia.
Qed.

(** The equations of [item_matches], its recursive calls included. *)
Lemma item_matches_dict (d wanted : list (string * value)) ik :
  item_matches (VDict d) (VDict wanted) ik =
  all_ok (fun kv : string * value =>
            let '(key, wanted_val) := kv in
            if ignored ik key then Ok true
            else item_matches (get_or_none d key) wanted_val ik)
         wanted.
Proof.
  unfold item_matches at 1.
  destruct (size (VDict d) + size (VDict wanted)) as [|n] eqn:En;
    [cbn [size] in En; lia|].
  cbn [item_matches_fuel]. apply all_ok_ext_in. intros [key wanted_val] Hin.
  destruct (ignored ik key); [reflexivity|].
  pose proof (size_get_or_none d key). apply size_dict_elem in Hin.
  unfold item_matches. apply item_matches_fuel_stable; lia.
Qed.

Lemma item_matches_list (l wanted : list value) ik :
  item_matches (VList l) (VList wanted) ik =
  (t <- list_validate_same_elem_type (wanted ++ l) ;;
   match t with
   | None => Ok true
   | Some t =>
       if structured t then
         all_ok (fun i =>
                   subitem <- elem_or_empty l i t ;;
                   wanted_subitem <- elem_or_empty wanted i t ;;
                   item_matches subitem wanted_subitem ik)
                (seq 0 (Nat.max (length wanted) (length l)))
       else all_ok (fun val => Ok (py_in val l)) wanted
   end).
Proof.
  unfold item_matches at 1.
  destruct (size (VList l) + size (VList wanted)) as [|n] eqn:En;
    [cbn [size] in En; lia|].
  cbn [item_matches_fuel].
  destruct (list_validate_same_elem_type (wanted ++ l)) as [[t|]| |];
    cbn [bind]; try reflexivity.
  destruct (structured t); [|reflexivity].
  apply all_ok_ext_in. intros i Hi. apply in_seq in Hi.
  destruct (elem_or_empty l i t) as [sub| |] eqn:Es; cbn [bind];
    try reflexivity.
  destruct (elem_or_empty wanted i t) as [wsub| |] eqn:Ew; cbn [bind];
    try reflexivity.
  apply elem_or_empty_Ok in Es, Ew.
  pose proof (size_pos sub). pose proof (size_pos wsub).
  assert (Hlt : size sub + size wsub < size (VList l) + size (VList wanted)).
  { destruct Es as [[_ Hs]|[Hs1 Hs2]], Ew as [[_ Hw]|[Hw1 Hw2]];
      try apply size_list_elem in Hs; try apply size_list_elem in Hw;
      cbn [size] in *; lia. }
  unfold item_matches. apply item_matches_fuel_stable; lia.
Qed.

Lemma item_matches_not_dict (item : value) wanted ik :
  (forall d, item <> VDict d) ->
  item_matches item (VDict wanted) ik = Ok false.
Proof.
  intros H. unfold item_matches.
  destruct (size item + size (VDict wanted)) as [|n] eqn:En;
    [pose proof (size_pos item); lia|].
  cbn [item_matches_fuel]. destruct item; try reflexivity.
  now destruct (H d).
Qed.

Lemma item_matches_not_list (item : value) wanted ik :
  (forall l, item <> VList l) ->
  item_matches item (VList wanted) ik = Ok false.
Proof.
  intros H. unfold item_matches.
  destruct (size item + size (VList wanted)) as [|n] eqn:En;
    [pose proof (size_pos item); lia|].
  cbn [item_matches_fuel]. destruct item; try reflexivity.
  now destruct (H l).
Qed.

Lemma item_matches_scalar (item wanted : value) ik :
  scalar wanted -> item_matches item wanted ik = Ok (py_eq item wanted).
Proof.
  intros H. unfold item_matches.
  destruct (size item + size wanted) as [|n] eqn:En;
    [pose proof (size_pos item); lia|].
  cbn [item_matches_fuel]. destruct wanted; try reflexivity; destruct H.
Qed.

Lemma all_ok_true {A} (f : A -> res bool) (l : list A) :
  all_ok f l = Ok true <-> forall x, In x l -> f x = Ok true.
Proof.
  induction l as [|x l IH]; cbn [all_ok].
  - split; [intros _ ? []|reflexivity].
  - split.
    + intros H. apply bind_Ok in H as (b & Hb & H).
      destruct b; [|discriminate]. intros y [<-|Hy]; [assumption|].
      now apply IH.
    + intros H. rewrite (H x) by now left. cbn [bind].
      apply IH. intros y Hy. apply H. now right.
Qed.

(** Only the want [None] is matched by [None], which is what an absent key
    reads as. *)
Lemma item_matches_none (wanted : value) ik :
  item_matches VNone wanted ik = Ok true <-> wanted = VNone.
Proof.
  destruct wanted as [| | | |wl|wd].
  - rewrite item_matches_scalar by exact I. cbn. tauto.
  - rewrite item_matches_scalar by exact I. cbn. split; discriminate.
  - rewrite item_matches_scalar by exact I. cbn. split; discriminate.
  - rewrite item_matches_scalar by exact I. cbn. split; discriminate.
  - rewrite item_matches_not_list by discriminate. split; discriminate.
  - rewrite item_matches_not_dict by discriminate. split; discriminate.
Qed.

(** C8 (as amended).  Matching is recursive containment.  A want mapping
    matches an item iff the item is a mapping and every key of the want is
    either present in the item with a recursively matching value, or
    absent from it and wanted as [None]; the empty want matches every
    mapping.  A want list matches only a list: two empty lists match;
    lists of mappings or lists are compared index by index, the shorter
    one continued with empty instances; lists of scalars match when every
    wanted value occurs in the item's list.  A scalar want matches what
    equals it.  [find] picks the item [{type: 'sysmo', band: 'GSM-1800'}]
    for the want [{type: 'sysmo'}] and has no match for
    [{type: 'sysmo', band: 'GSM-900'}]. *)
Theorem item_matches_is_containment :
  (forall item wanted,
      item_matches item (VDict wanted) None = Ok true <->
      exists d,
        item = VDict d /\
        forall key wanted_val,
          In (key, wanted_val) wanted ->
          (exists v, dict_get d key = Some v /\
                     item_matches v wanted_val None = Ok true) \/
          (dict_get d key = None /\ wanted_val = VNone)) /\
  (forall d, item_matches (VDict d) (VDict []) None = Ok true) /\
  (forall item wanted,
      (forall l, item <> VList l) ->
      item_matches item (VList wanted) None = Ok false) /\
  item_matches (VList []) (VList []) None = Ok true /\
  (forall l wanted t,
      list_validate_same_elem_type (wanted ++ l) = Ok (Some t) ->
      (structured t = true ->
       (item_matches (VList l) (VList wanted) None = Ok true <->
        forall i, i < Nat.max (length wanted) (length l) ->
          exists subitem wanted_subitem,
            elem_or_empty l i t = Ok subitem /\
            elem_or_empty wanted i t = Ok wanted_subitem /\
            item_matches subitem wanted_subitem None = Ok true)) /\
      (structured t = false ->
       (item_matches (VList l) (VList wanted) None = Ok true <->
        forall val, In val wanted -> py_in val l = true))) /\
  (forall item wanted,
      scalar wanted -> item_matches item wanted None = Ok (py_eq item wanted)) /\
  (let sysmo : item := [("type", VStr "sysmo"); ("band", VStr "GSM-1800")] in
   let want1 := VDict [("type", VStr "sysmo")] in
   let want2 := VDict [("type", VStr "sysmo"); ("band", VStr "GSM-900")] in
   item_matches (VDict sysmo) want1 None = Ok true /\
   item_matches (VDict sysmo) want2 None = Ok false /\
   find [("bts", [sysmo])] [("bts", [want1])] None true
     = Ok [("bts", [sysmo])] /\
   find [("bts", [sysmo])] [("bts", [want2])] None true
     = Raise (NoResourceExn
                [Lit "No matching resource available for "; FmtS "bts";
                 Lit " = "; FmtR want2])).
Proof.
  split; [|split; [|split; [|split; [|split; [|split]]]]].
  - intros item wanted. split.
    + intros H. destruct item as [| | | |l|d];
        try (rewrite item_matches_not_dict in H by discriminate; discriminate).
      exists d. split; [reflexivity|]. intros key wanted_val Hin.
      rewrite item_matches_dict in H.
      pose proof (proj1 (all_ok_true _ _) H (key, wanted_val) Hin) as Hk.
      cbn [ignored] in Hk. unfold get_or_none in Hk.
      destruct (dict_get d key) as [v|]; [left; now exists v|].
      right. split; [reflexivity|]. now apply (item_matches_none _ None).
    + intros (d & -> & H). rewrite item_matches_dict. apply all_ok_true.
      intros [key wanted_val] Hin. cbn [ignored]. unfold get_or_none.
      destruct (H key wanted_val Hin) as [(v & -> & Hv)|[-> ->]];
        [assumption|reflexivity].
  - intros d. apply item_matches_empty_want.
  - intros item wanted H. now apply item_matches_not_list.
  - reflexivity.
  - intros l wanted t Ht. split; intros Hs; rewrite item_matches_list, Ht;
      cbn [bind]; rewrite Hs; rewrite all_ok_true.
    + split.
      * intros H i Hi. specialize (H i). rewrite in_seq in H.
        specialize (H (conj (Nat.le_0_l i) Hi)).
        apply bind_Ok in H as (sub & Hsub & H).
        apply bind_Ok in H as (wsub & Hwsub & H). now exists sub, wsub.
      * intros H i Hi. apply in_seq in Hi.
        destruct (H i) as (sub & wsub & -> & -> & Hm); [lia|]. exact Hm.
    + split.
      * intros H val Hval. specialize (H val Hval). now injection H.
      * intros H val Hval. now rewrite (H val Hval).
  - intros item wanted. apply item_matches_scalar.
  - cbv zeta. repeat (split; [reflexivity|]). reflexivity.
Qed.

Lemma item_matches_is_containment_witness :
  let sysmo : item := [("type", VStr "sysmo"); ("band", VStr "GSM-1800")] in
  let wanted := [("type", VStr "sysmo")] in
  item_matches (VDict sysmo) (VDict wanted) None = Ok true /\
  exists d,
    VDict sysmo = VDict d /\
    forall key wanted_val,
      In (key, wanted_val) wanted ->
      (exists v, dict_get d key = Some v /\
                 item_matches v wanted_val None = Ok true) \/
      (dict_get d key = None /\ wanted_val = VNone).
Proof.
  intros sysmo wanted.
  assert (H : item_matches (VDict sysmo) (VDict wanted) None = Ok true)
    by reflexivity.
  split; [exact H|].
  exact (proj1 (proj1 item_matches_is_containment (VDict sysmo) wanted) H).
Defined.

(** A key the item lacks is matched by the want value [None]. *)
Lemma absent_key_matches_none :
  item_matches (VDict []) (VDict [("band", VNone)]) None = Ok true /\
  dict_get ([] : item) "band" = None /\
  ~ (forall d wanted,
        item_matches (VDict d) (VDict wanted) None = Ok true <->
        forall key wanted_val,
          In (key, wanted_val) wanted ->
          exists v, dict_get d key = Some v /\
                    item_matches v wanted_val None = Ok true).
Proof.
  split; [reflexivity|]. split; [reflexivity|].
  intros H.
  destruct (proj1 (H [] [("band", VNone)]) eq_refl "band" VNone
              (or_introl eq_refl)) as (v & Hv & _).
  discriminate.
Qed.

(** ** Two callers, one item *)


(** Under one lock file for all callers the same interleaving cannot
    happen: the second caller waits. *)
Lemma one_lock_file_blocks_second_caller :
  let caller origin_id :=
    {| p_origin_id := origin_id; p_want := [("modem", [VDict []])];
       p_stage := Calling |} in
  let w0 := {| w_all_resources := [("modem", [[(HASH_KEY, VStr "m1")]])];
               w_rrfile := None;
               w_locks := [];
               w_processes := [caller "suite_a-100"; caller "suite_b-200"] |} in
  run (fun _ => "lock") [0; 1] w0 = None.
Proof. reflexivity. Qed.

(** * Further properties *)

(** ** What [find] picks *)

Lemma item_match_list_candidates (my_list : list item) :
  forall i want_item skip c,
    item_match_list i my_list want_item skip = Ok c ->
    forall j, In j c -> i <= j /\ candidate_at my_list skip want_item (j - i).
Proof.
  induction my_list as [|my_item rest IH]; intros i want_item skip c;
    cbn [item_match_list].
  - intros [= <-] j [].
  - destruct (marked skip my_item) eqn:Em.
    + intros H j Hj. destruct (IH _ _ _ _ H j Hj) as (Hle & it & Hn & Hm & Hi).
      split; [lia|]. exists it. repeat split; try assumption.
      replace (j - i) with (S (j - S i)) by lia. exact Hn.
    + intros H. apply bind_Ok in H as (b & Hb & H).
      apply bind_Ok in H as (more & Hmore & [= <-]).
      intros j Hj.
      assert (Hcase : (b = true /\ j = i) \/ In j more).
      { destruct b; [destruct Hj as [<-|Hj]|]; auto. }
      destruct Hcase as [[-> ->]|Hin].
      * split; [lia|]. exists my_item. rewrite Nat.sub_diag. now repeat split.
      * destruct (IH _ _ _ _ Hmore j Hin) as (Hle & it & Hn & Hm & Hi).
        split; [lia|]. exists it. repeat split; try assumption.
        replace (j - i) with (S (j - S i)) by lia. exact Hn.
Qed.

(** Where comparing raises nothing, the inner loop of [find] completes and
    lists exactly the candidates. *)
Lemma item_match_list_complete (my_list : list item) :
  forall i want_item skip,
    (forall it, In it my_list ->
                exists b, item_matches (VDict it) want_item None = Ok b) ->
    exists c,
      item_match_list i my_list want_item skip = Ok c /\
      forall j, i <= j -> candidate_at my_list skip want_item (j - i) ->
                In j c.
Proof.
  induction my_list as [|my_item rest IH]; intros i want_item skip Hcmp;
    cbn [item_match_list].
  - exists []. split; [reflexivity|].
    intros j _ (it & Hn & _). destruct (j - i); discriminate.
  - destruct (IH (S i) want_item skip) as (more & Hmore & Hall).
    { intros it Hit. apply Hcmp. now right. }
    destruct (marked skip my_item) eqn:Em.
    + exists more. split; [assumption|]. intros j Hle (it & Hn & Hm & Hi).
      destruct (j - i) as [|d] eqn:Ed.
      * cbn in Hn. injection Hn as <-. congruence.
      * apply Hall; [lia|]. exists it. replace (j - S i) with d by lia.
        now repeat split.
    + destruct (Hcmp my_item (or_introl eq_refl)) as (b & Hb).
      rewrite Hb, Hmore. cbn [bind]. eexists. split; [reflexivity|].
      intros j Hle (it & Hn & Hm & Hi).
      destruct (j - i) as [|d] eqn:Ed.
      * cbn in Hn. injection Hn as <-. assert (b = true) by congruence.
        subst b. left. lia.
      * assert (Hj : In j more).
        { apply Hall; [lia|]. exists it. replace (j - S i) with d by lia.
          now repeat split. }
        destruct b; [now right|assumption].
Qed.

(** When the loop over the wanted slots does not give up, it has found for
    each slot a non-empty list of candidates. *)
Lemma collect_matches_candidates key my_list (want_list : list value) :
  forall skip rim acc all_matches,
    collect_matches key my_list want_list skip rim acc = Ok all_matches ->
    rim = true \/ all_matches <> [] ->
    exists cl,
      all_matches = acc ++ cl /\
      Forall2 (fun w c => c <> [] /\
                          forall j, In j c -> candidate_at my_list skip w j)
              want_list cl.
Proof.
  induction want_list as [|w rest IH]; intros skip rim acc all_matches;
    cbn [collect_matches].
  - intros [= <-] _. exists []. split; [now rewrite app_nil_r|constructor].
  - intros H Hrim. apply bind_Ok in H as (c & Hc & H).
    destruct c as [|j0 c'].
    + destruct rim; [discriminate|]. injection H as <-.
      destruct Hrim as [?|?]; [discriminate|congruence].
    + destruct (IH _ _ _ _ H Hrim) as (cl & -> & Hall).
      exists ((j0 :: c') :: cl). split; [now rewrite <- app_assoc|].
      constructor; [|assumption]. split; [discriminate|].
      intros j Hj.
      destruct (item_match_list_candidates _ _ _ _ _ Hc j Hj) as [_ Hcand].
      now rewrite Nat.sub_0_r in Hcand.
Qed.

Lemma Forall2_compose {A B C} (P : A -> B -> Prop) (Q : B -> C -> Prop)
    (R : A -> C -> Prop) (la : list A) :
  (forall a b c, P a b -> Q b c -> R a c) ->
  forall lb lc, Forall2 P la lb -> Forall2 Q lb lc -> Forall2 R la lc.
Proof.
  intros H. induction la as [|a la IH]; intros lb lc Hp Hq.
  - inversion Hp; subst. inversion Hq; subst. constructor.
  - inversion Hp as [|? b ? lb' Hab Hrest]; subst.
    inversion Hq as [|? c ? lc' Hbc Hrest']; subst.
    constructor; [now apply (H a b c)|now apply (IH lb' lc')].
Qed.

(** What [find] settles for a kind serves every wanted slot, unless it gave
    up on the kind. *)
Lemma find_solution_serves self key want_list skip rim solution :
  find_solution self key want_list skip rim = Ok solution ->
  rim = true \/ solution <> [] ->
  serves (items_of self key) skip want_list solution.
Proof.
  unfold find_solution. fold (items_of self key). intros H Hrim.
  apply bind_Ok in H as (all_matches & Hc & H).
  destruct all_matches as [|c cl].
  - injection H as <-. destruct Hrim as [->|?]; [|congruence].
    destruct (collect_matches_candidates _ _ _ _ _ _ _ Hc (or_introl eq_refl))
      as (cl' & E & Hall).
    cbn [app] in E. subst cl'. inversion Hall; subst.
    split; constructor.
  - unfold solve_or_no_resource in H.
    destruct (solve (c :: cl)) as [a|e|] eqn:Es;
      [|destruct e; discriminate|discriminate].
    injection H as <-. apply solve_Ok_drawn in Es as [Hin Hnd].
    assert (Hne : c :: cl <> []) by discriminate.
    destruct (collect_matches_candidates _ _ _ _ _ _ _ Hc (or_intror Hne))
      as (cl' & E & Hall).
    cbn [app] in E. subst cl'. split; [assumption|].
    refine (Forall2_compose _ _ _ _ _ _ _ Hall Hin).
    intros w c0 j [_ Hc0] Hj. now apply Hc0.
Qed.

Lemma insert_sorted_perm {V} (kv : string * V) (l : list (string * V)) :
  Permutation (insert_sorted kv l) (kv :: l).
Proof.
  induction l as [|kv' l IH]; cbn [insert_sorted]; [reflexivity|].
  destruct (String.leb (fst kv) (fst kv')); [reflexivity|].
  rewrite IH. apply perm_swap.
Qed.

Lemma sorted_items_perm {V} (d : list (string * V)) :
  Permutation (sorted_items d) d.
Proof.
  unfold sorted_items. induction d as [|kv d IH]; cbn [fold_right];
    [reflexivity|].
  rewrite insert_sorted_perm. now constructor.
Qed.

(** The loop of [find] over the wanted kinds leaves under each kind what it
    settled for that kind. *)
Lemma find_matches_per_kind self skip rim (want : Want) :
  forall matches0 matches,
    NoDup (dict_keys want) ->
    for_each (fun matches (kw : string * list value) =>
                let '(key, want_list) := kw in
                let my_list :=
                  match dict_get self key with Some l => l | None => [] end in
                solution <- find_solution self key want_list skip rim ;;
                picked <- pick_items my_list solution ;;
                Ok (dict_set matches key picked))
             want matches0 = Ok matches ->
    forall key want_list,
      In (key, want_list) want ->
      exists solution picked,
        find_solution self key want_list skip rim = Ok solution /\
        pick_items (items_of self key) solution = Ok picked /\
        dict_get matches key = Some picked.
Proof.
  induction want as [|[k wl] rest IH]; intros matches0 matches Hnd H key
    want_list Hin; [destruct Hin|].
  cbn [dict_keys map fst] in Hnd. inversion Hnd as [|? ? Hnotin Hnd']; subst.
  cbn [for_each] in H. apply bind_Ok in H as (m1 & Hstep & Hrest).
  apply bind_Ok in Hstep as (solution & Hsol & Hstep).
  apply bind_Ok in Hstep as (picked & Hpick & [= <-]).
  destruct Hin as [[= -> ->]|Hin].
  - exists solution, picked. repeat split; try assumption.
    assert (Hkeep : forall (l : Want) m0 m,
               ~ In key (dict_keys l) ->
               for_each (fun matches (kw : string * list value) =>
                let '(key, want_list) := kw in
                let my_list :=
                  match dict_get self key with Some l => l | None => [] end in
                solution <- find_solution self key want_list skip rim ;;
                picked <- pick_items my_list solution ;;
                Ok (dict_set matches key picked)) l m0 = Ok m ->
               dict_get m key = dict_get m0 key).
    { clear. induction l as [|[k wl] l IHl]; intros m0 m Hk H.
      - now injection H as <-.
      - cbn [for_each] in H. apply bind_Ok in H as (m1 & Hstep & Hrest).
        apply bind_Ok in Hstep as (solution & _ & Hstep).
        apply bind_Ok in Hstep as (picked & _ & [= <-]).
        rewrite (IHl _ _ (fun H => Hk (or_intror H)) Hrest).
        apply dict_get_set_other. intros ->. apply Hk. now left. }
    rewrite (Hkeep rest _ _ Hnotin Hrest). apply dict_get_set_same.
  - exact (IH _ _ Hnd' Hrest key want_list Hin).
Qed.

Lemma pick_items_Forall2 my_list (solution : list nat) :
  forall picked,
    pick_items my_list solution = Ok picked ->
    Forall2 (fun i (p : nat * item) =>
               fst p = i /\ nth_error my_list i = Some (snd p))
            solution picked.
Proof.
  induction solution as [|i rest IH]; intros picked; cbn [pick_items].
  - intros [= <-]. constructor.
  - destruct (nth_error my_list i) as [x|] eqn:En; [|discriminate].
    intros H. apply bind_Ok in H as (more & Hmore & [= <-]).
    constructor; [now split|now apply IH].
Qed.

Lemma Forall2_map_r {A B C} (R : A -> C -> Prop) (f : B -> C) (la : list A)
    (lb : list B) :
  Forall2 (fun a b => R a (f b)) la lb -> Forall2 R la (map f lb).
Proof. induction 1; cbn [map]; constructor; assumption. Qed.

Lemma find_Ok_per_kind (self : Resources) (want : Want)
    (skip : option string) (found : Resources) :
  NoDup (dict_keys want) ->
  find self want skip true = Ok found ->
  forall key want_list,
    In (key, want_list) want ->
    exists solution picked,
      dict_get found key = Some picked /\
      NoDup solution /\
      Forall2 (fun i it => nth_error (items_of self key) i = Some it)
              solution picked /\
      Forall2 (fun w it => marked skip it = false /\
                           item_matches (VDict it) w None = Ok true)
              want_list picked.
Proof.
  intros Hnd H key want_list Hin. unfold find in H.
  apply bind_Ok in H as (matches & Hm & [= <-]). unfold find_matches in Hm.
  assert (Hnd' : NoDup (dict_keys (sorted_items want))).
  { unfold dict_keys.
    apply (Permutation_NoDup
             (Permutation_map fst (Permutation_sym (sorted_items_perm want)))).
    exact Hnd. }
  assert (Hin' : In (key, want_list) (sorted_items want))
    by (apply (Permutation_in _ (Permutation_sym (sorted_items_perm want)));
        exact Hin).
  destruct (find_matches_per_kind _ _ _ _ _ _ Hnd' Hm key want_list Hin')
    as (solution & picked & Hsol & Hpick & Hget).
  destruct (find_solution_serves _ _ _ _ _ _ Hsol (or_introl eq_refl))
    as [Hdistinct Hserve].
  apply pick_items_Forall2 in Hpick.
  exists solution, (map snd picked). split; [|split; [assumption|split]].
  - clear - Hget. induction matches as [|[k0 v0] matches IH];
      cbn [dict_get map fst snd] in *; [discriminate|].
    destruct (String.eqb k0 key); [now injection Hget as ->|now apply IH].
  - apply Forall2_map_r.
    refine (Forall2_impl _ _ Hpick). intros i p [_ Hp]. exact Hp.
  - apply Forall2_map_r.
    refine (Forall2_compose _ _ _ _ _ _ _ Hserve Hpick).
    intros w i p (it & Hn & Hmk & Hit) [_ Hp].
    rewrite Hn in Hp. injection Hp as <-. now split.
Qed.

(** X1.  When [find] returns under [raise_if_missing], it holds for each
    wanted kind one item per wanted slot, in the order of the slots: the
    items are objects of the receiver's list for the kind at pairwise
    distinct indexes, none carries a truthy skip marker, and each matches
    the want of its slot. *)
Theorem find_serves_every_slot (self : Resources) (want : Want)
    (skip : option string) (found : Resources) :
  NoDup (dict_keys want) ->
  find self want skip true = Ok found ->
  forall key want_list,
    In (key, want_list) want ->
    exists solution picked,
      dict_get found key = Some picked /\
      NoDup solution /\
      Forall2 (fun i it => nth_error (items_of self key) i = Some it)
              solution picked /\
      Forall2 (fun w it => marked skip it = false /\
                           item_matches (VDict it) w None = Ok true)
              want_list picked.
Proof. apply find_Ok_per_kind. Qed.

Lemma collect_matches_complete key my_list (want_list : list value) :
  forall skip rim acc,
    comparable my_list want_list ->
    (forall w, In w want_list -> exists j, candidate_at my_list skip w j) ->
    exists cl,
      collect_matches key my_list want_list skip rim acc = Ok (acc ++ cl) /\
      Forall2 (fun w c => forall j, candidate_at my_list skip w j -> In j c)
              want_list cl.
Proof.
  induction want_list as [|w rest IH]; intros skip rim acc Hcmp Hex;
    cbn [collect_matches].
  - exists []. split; [now rewrite app_nil_r|constructor].
  - destruct (item_match_list_complete my_list 0 w skip) as (c & Hc & Hall).
    { intros it Hit. apply Hcmp; [assumption|now left]. }
    rewrite Hc. cbn [bind].
    assert (Hall' : forall j, candidate_at my_list skip w j -> In j c).
    { intros j Hj. apply Hall; [lia|]. now rewrite Nat.sub_0_r. }
    destruct (Hex w (or_introl eq_refl)) as (j0 & Hj0).
    destruct c as [|j c']; [destruct (Hall' j0 Hj0)|].
    destruct (IH skip rim (acc ++ [j :: c'])) as (cl & Hcl & Hrest).
    { intros it w' Hit Hw'. apply Hcmp; [assumption|now right]. }
    { intros w' Hw'. apply Hex. now right. }
    exists ((j :: c') :: cl). split.
    + rewrite Hcl. now rewrite <- app_assoc.
    + now constructor.
Qed.

Lemma Forall2_flip_compose {A B C} (P : A -> B -> Prop) (Q : A -> C -> Prop)
    (R : B -> C -> Prop) (la : list A) :
  (forall a b c, P a b -> Q a c -> R b c) ->
  forall lb lc, Forall2 P la lb -> Forall2 Q la lc -> Forall2 R lb lc.
Proof.
  intros H. induction la as [|a la IH]; intros lb lc Hp Hq.
  - inversion Hp; subst. inversion Hq; subst. constructor.
  - inversion Hp as [|? b ? lb' Hab Hrest]; subst.
    inversion Hq as [|? c ? lc' Hac Hrest']; subst.
    constructor; [now apply (H a b c)|now apply (IH lb' lc')].
Qed.

(** Where comparing raises nothing and the slots can be served, [find]
    settles the kind. *)
Lemma find_solution_complete self key want_list skip rim a :
  comparable (items_of self key) want_list ->
  serves (items_of self key) skip want_list a ->
  exists solution,
    find_solution self key want_list skip rim = Ok solution /\
    serves (items_of self key) skip want_list solution.
Proof.
  intros Hcmp [Hnd Ha].
  assert (Hex : forall w, In w want_list ->
                          exists j, candidate_at (items_of self key) skip w j).
  { intros w Hw. clear - Ha Hw. induction Ha as [|w0 j l l' Hj _ IH];
      [destruct Hw|]. destruct Hw as [<-|Hw]; [now exists j|now apply IH]. }
  destruct (collect_matches_complete key (items_of self key) want_list skip rim
              [] Hcmp Hex) as (cl & Hc & Hall).
  cbn [app] in Hc.
  assert (Hfs : exists solution,
             find_solution self key want_list skip rim = Ok solution).
  { unfold find_solution. fold (items_of self key). rewrite Hc. cbn [bind].
    destruct cl as [|c cl']; [now exists []|].
    assert (Hasg : is_assignment (c :: cl') a).
    { split; [|assumption].
      refine (Forall2_flip_compose _ _ _ _ _ _ _ Hall Ha).
      intros w c0 j Hc0 Hj. now apply Hc0. }
    destruct (first_assignment_exists _ _ Hasg) as (a' & Ha').
    unfold solve_or_no_resource.
    rewrite solve_first_assignment by discriminate. rewrite Ha'.
    now exists a'. }
  destruct Hfs as (solution & Hsol). exists solution. split; [assumption|].
  destruct solution as [|i sol].
  - apply (find_solution_serves _ _ _ _ true).
    + unfold find_solution in Hsol |- *. fold (items_of self key) in Hsol |- *.
      rewrite Hc in Hsol. cbn [bind] in Hsol.
      destruct (collect_matches_complete key (items_of self key) want_list
                  skip true [] Hcmp Hex) as (cl2 & Hc2 & Hall2).
      cbn [app] in Hc2. rewrite Hc2. cbn [bind].
      assert (cl = []).
      { destruct cl as [|c cl']; [reflexivity|].
        unfold solve_or_no_resource in Hsol.
        destruct (solve (c :: cl')) as [s|e|] eqn:Es;
          [|destruct e; discriminate|discriminate].
        injection Hsol as ->. apply solve_Ok_drawn in Es as [Hin _].
        inversion Hin. }
      subst cl. inversion Hall; subst. inversion Hall2; subst. reflexivity.
    + now left.
  - apply (find_solution_serves _ _ _ _ rim); [assumption|right; discriminate].
Qed.

Lemma pick_items_total my_list (solution : list nat) :
  (forall i, In i solution -> exists it, nth_error my_list i = Some it) ->
  exists picked, pick_items my_list solution = Ok picked.
Proof.
  induction solution as [|i rest IH]; intros H; cbn [pick_items];
    [now exists []|].
  destruct (H i (or_introl eq_refl)) as (it & ->).
  destruct IH as (more & ->); [intros j Hj; apply H; now right|].
  cbn [bind]. now eexists.
Qed.

Lemma for_each_total {A S} (f : S -> A -> res S) (l : list A) :
  (forall s x, In x l -> exists s', f s x = Ok s') ->
  forall s, exists s', for_each f l s = Ok s'.
Proof.
  induction l as [|x l IH]; intros H s; cbn [for_each]; [now exists s|].
  destruct (H s x (or_introl eq_refl)) as (s1 & ->). cbn [bind].
  apply IH. intros s0 y Hy. apply H. now right.
Qed.

Lemma Forall2_In_r_ex {A B} (R : A -> B -> Prop) (l : list A) (l' : list B) :
  Forall2 R l l' -> forall y, In y l' -> exists x, R x y.
Proof.
  intros H y Hy. destruct (Forall2_In_r _ _ _ _ H Hy) as (x & _ & Hx).
  now exists x.
Qed.

(** X2.  [find] is exact: where comparing items with wants raises nothing
    and, for every wanted kind, the slots can be served by distinct matching
    items that are not skipped, [find] succeeds, whichever slot a loosely
    constrained want could have taken from a tighter one. *)
Theorem find_succeeds_when_servable (self : Resources) (want : Want)
    (skip : option string) (raise_if_missing : bool) :
  (forall key want_list,
      In (key, want_list) want ->
      comparable (items_of self key) want_list /\
      exists a, serves (items_of self key) skip want_list a) ->
  exists found, find self want skip raise_if_missing = Ok found.
Proof.
  intros H.
  assert (Hm : exists matches,
             find_matches self want skip raise_if_missing = Ok matches).
  { unfold find_matches. apply for_each_total.
    intros matches [key want_list] Hin.
    apply (Permutation_in _ (sorted_items_perm want)) in Hin.
    destruct (H key want_list Hin) as (Hcmp & a & Ha).
    destruct (find_solution_complete self key want_list skip raise_if_missing
                a Hcmp Ha) as (solution & -> & [_ Hserve]).
    cbn [bind]. fold (items_of self key).
    destruct (pick_items_total (items_of self key) solution) as (picked & ->).
    { intros i Hi.
      destruct (Forall2_In_r_ex _ _ _ Hserve i Hi) as (w & it & Hn & _).
      now exists it. }
    cbn [bind]. now eexists. }
  destruct Hm as (matches & Hm). unfold find. rewrite Hm. cbn [bind].
  now eexists.
Qed.

Lemma collect_matches_unmet key my_list skip w (post pre : list value) :
  forall rim acc,
    comparable my_list (pre ++ [w]) ->
    (forall w', In w' pre -> exists j, candidate_at my_list skip w' j) ->
    (forall j, ~ candidate_at my_list skip w j) ->
    collect_matches key my_list (pre ++ w :: post) skip rim acc =
    if rim then Raise (NoResourceExn (no_match_msg key w)) else Ok [].
Proof.
  induction pre as [|w0 pre IH]; intros rim acc Hcmp Hex Hno;
    cbn [app collect_matches].
  - destruct (item_match_list_complete my_list 0 w skip) as (c & Hc & _).
    { intros it Hit. apply Hcmp; [assumption|now left]. }
    rewrite Hc. cbn [bind]. destruct c as [|j c']; [reflexivity|].
    exfalso.
    destruct (item_match_list_candidates _ _ _ _ _ Hc j (or_introl eq_refl))
      as [_ Hj].
    rewrite Nat.sub_0_r in Hj. exact (Hno j Hj).
  - destruct (item_match_list_complete my_list 0 w0 skip) as (c & Hc & Hall).
    { intros it Hit. apply Hcmp; [assumption|now left]. }
    rewrite Hc. cbn [bind].
    destruct (Hex w0 (or_introl eq_refl)) as (j0 & Hj0).
    destruct c as [|j c'].
    + exfalso. apply (Hall j0); [lia|now rewrite Nat.sub_0_r].
    + apply IH.
      * intros it w' Hit Hw'. apply Hcmp; [assumption|now right].
      * intros w' Hw'. apply Hex. now right.
      * assumption.
Qed.

Lemma dict_get_picked (matches : list (string * list (nat * item))) key :
  dict_get (map (fun kl : string * list (nat * item) =>
                   (fst kl, map snd (snd kl))) matches) key
  = option_map (map snd) (dict_get matches key).
Proof.
  induction matches as [|[k v] matches IH]; cbn [map dict_get fst snd];
    [reflexivity|].
  destruct (String.eqb k key); [reflexivity|exact IH].
Qed.

(** X3.  [find] stops at the first wanted slot that no item serves.  The
    kinds that [sorted] puts before the kind of that slot settle, and
    comparing the items of the kind with its wants up to that slot raises
    nothing.  Then under [raise_if_missing] [find] raises [NoResourceExn]
    "No matching resource available for kind = want" with the want of that
    slot; and without it, when the other kinds settle too, [find] returns
    with an empty list under the kind -- whatever the later slots of the
    kind ask for. *)
Theorem find_reports_first_unmet_slot (self : Resources) (want : Want)
    (before after : list (string * list value)) (key : string)
    (pre post : list value) (w : value) (skip : option string) :
  sorted_items want = before ++ (key, pre ++ w :: post) :: after ->
  comparable (items_of self key) (pre ++ [w]) ->
  (forall w', In w' pre -> exists j, candidate_at (items_of self key) skip w' j) ->
  (forall j, ~ candidate_at (items_of self key) skip w j) ->
  ((forall key' want_list',
       In (key', want_list') before ->
       exists found, find self [(key', want_list')] skip true = Ok found) ->
   find self want skip true
   = Raise (NoResourceExn
              [Lit "No matching resource available for "; FmtS key;
               Lit " = "; FmtR w])) /\
  (NoDup (dict_keys want) ->
   (forall key' want_list',
       In (key', want_list') (before ++ after) ->
       exists found, find self [(key', want_list')] skip false = Ok found) ->
   exists found,
     find self want skip false = Ok found /\ dict_get found key = Some []).
Proof.
  intros Hsorted Hcmp Hex Hno.
  assert (Hsol : forall rim,
             find_solution self key (pre ++ w :: post) skip rim
             = if rim then Raise (NoResourceExn (no_match_msg key w))
               else Ok []).
  { intros rim. unfold find_solution. fold (items_of self key).
    rewrite (collect_matches_unmet key (items_of self key) skip w post pre)
      by assumption.
    destruct rim; reflexivity. }
  split.
  - intros Hbefore.
    exact (find_raises_at_kind self want skip true before key _ after _
             Hsorted Hbefore (Hsol true)).
  - intros Hnd Hothers.
    assert (Hkeys : forall key' want_list',
               In (key', want_list') after -> key' <> key).
    { assert (Hnd' : NoDup (map fst (sorted_items want))).
      { apply (Permutation_NoDup
                 (Permutation_map fst (Permutation_sym (sorted_items_perm want)))).
        exact Hnd. }
      rewrite Hsorted, map_app in Hnd'. apply NoDup_app_remove_l in Hnd'.
      cbn [map fst] in Hnd'. inversion Hnd' as [|? ? Hnotin _]; subst.
      intros key' want_list' Hin ->. apply Hnotin.
      now apply (in_map fst _ (key, want_list')). }
    unfold find, find_matches. rewrite Hsorted.
    match goal with
    | |- context [for_each ?f0 _ _] => set (f := f0)
    end.
    assert (Hf : forall matches key' want_list',
               In (key', want_list') (before ++ after) ->
               exists picked,
                 f matches (key', want_list')
                 = Ok (dict_set matches key' picked)).
    { intros matches key' want_list' Hin.
      destruct (Hothers key' want_list' Hin) as [found Hfound].
      apply find_one_kind in Hfound as (solution & picked & Hsol' & Hpick).
      exists picked. unfold f. fold (items_of self key').
      rewrite Hsol'. cbn [bind]. rewrite Hpick. reflexivity. }
    destruct (for_each_prefix f before) with
      (rest := (key, pre ++ w :: post) :: after)
      (s := @nil (string * list (nat * item))) as [matches1 ->].
    { intros [key' want_list'] Hin matches.
      destruct (Hf matches key' want_list') as [picked Hp];
        [apply in_or_app; now left|].
      eexists. exact Hp. }
    cbn [for_each].
    assert (Hstep : f matches1 (key, pre ++ w :: post)
                    = Ok (dict_set matches1 key [])).
    { unfold f. rewrite (Hsol false). reflexivity. }
    rewrite Hstep. cbn [bind].
    destruct (for_each_total f after) with (s := dict_set matches1 key [])
      as [matches2 Hrun].
    { intros matches [key' want_list'] Hin.
      destruct (Hf matches key' want_list') as [picked Hp];
        [apply in_or_app; now right|].
      eexists. exact Hp. }
    rewrite Hrun. cbn [bind]. eexists. split; [reflexivity|].
    rewrite dict_get_picked.
    assert (Hinv : dict_get matches2 key = Some []).
    { refine (for_each_invariant (fun m => dict_get m key = Some []) f after
                _ _ matches2 (dict_get_set_same _ _ _) Hrun).
      intros matches [key' want_list'] matches' Hin Hget Hone.
      destruct (Hf matches key' want_list') as [picked Hp];
        [apply in_or_app; now right|].
      rewrite Hp in Hone. injection Hone as <-.
      rewrite dict_get_set_other; [exact Hget|].
      exact (Hkeys key' want_list' Hin). }
    rewrite Hinv. reflexivity.
Qed.

(** ** Drawing items for use *)

Lemma solve_single (j : nat) (c : list nat) : solve [j :: c] = Ok [j].
Proof. reflexivity. Qed.

(** [find] for the request of [get]: one kind, one slot, no raising. *)
Lemma find_matches_single (self : Resources) kind (sp : value) skip :
  find_matches self [(kind, [sp])] skip false =
  (c <- item_match_list 0 (items_of self kind) sp skip ;;
   match c with
   | [] => Ok [(kind, [])]
   | j :: _ =>
       picked <- pick_items (items_of self kind) [j] ;;
       Ok [(kind, picked)]
   end).
Proof.
  unfold find_matches, sorted_items.
  cbn [fold_right insert_sorted for_each]. unfold find_solution.
  fold (items_of self kind). cbn [collect_matches].
  destruct (item_match_list 0 (items_of self kind) sp skip) as [[|j c]| |];
    cbn [bind app]; try reflexivity.
  unfold solve_or_no_resource. rewrite solve_single.
  cbn [bind pick_items].
  destruct (nth_error (items_of self kind) j); reflexivity.
Qed.

Lemma item_match_list_first (my_list : list item) :
  forall i want_item skip j c,
    item_match_list i my_list want_item skip = Ok (j :: c) ->
    forall j', i <= j' -> j' < j ->
               ~ candidate_at my_list skip want_item (j' - i).
Proof.
  induction my_list as [|my_item rest IH]; intros i want_item skip j c;
    cbn [item_match_list]; [discriminate|].
  destruct (marked skip my_item) eqn:Em.
  - intros H j' Hle Hlt (it & Hn & Hm & Hi).
    destruct (j' - i) as [|d] eqn:Ed.
    + cbn in Hn. injection Hn as <-. congruence.
    + apply (IH _ _ _ _ _ H j'); [lia|assumption|].
      exists it. replace (j' - S i) with d by lia. now repeat split.
  - intros H. apply bind_Ok in H as (b & Hb & H).
    apply bind_Ok in H as (more & Hmore & [= Heq]).
    intros j' Hle Hlt (it & Hn & Hm & Hi).
    destruct b.
    + injection Heq as <- <-. lia.
    + subst more. destruct (j' - i) as [|d] eqn:Ed.
      * cbn in Hn. injection Hn as <-. congruence.
      * apply (IH _ _ _ _ _ Hmore j'); [lia|assumption|].
        exists it. replace (j' - S i) with d by lia. now repeat split.
Qed.

(** X4.  A call of [get] that returns has picked, among the handle's items
    of the kind, the first one that carries no truthy [_used] and matches
    the specifics; it marks that item used in the handle's record, leaves
    the rest of the record as it is, and returns the marked item. *)
Theorem get_hands_out_first_candidate (self self' : ReservedResources)
    (kind : string) (specifics : option value) (r : item) :
  get self kind specifics = Ok (self', r) ->
  let sp := match specifics with Some s => s | None => VDict [] end in
  let l := items_of (reserved self) kind in
  exists i pick,
    nth_error l i = Some pick /\
    marked (Some USED_KEY) pick = false /\
    item_matches (VDict pick) sp None = Ok true /\
    (forall i', i' < i -> ~ candidate_at l (Some USED_KEY) sp i') /\
    r = dict_set pick USED_KEY (VBool true) /\
    reserved self' = dict_set (reserved self) kind (list_set l i r) /\
    reserved_original self' = reserved_original self.
Proof.
  intros H sp l. unfold get in H. fold sp in H.
  rewrite find_matches_single in H. fold l in H.
  apply bind_Ok in H as (matches & Hm & H).
  apply bind_Ok in Hm as (c & Hc & Hm).
  destruct c as [|j c'].
  - injection Hm as <-. cbn [dict_get] in H. rewrite String.eqb_refl in H.
    destruct (get_failure self kind sp); discriminate.
  - cbn [pick_items] in Hm.
    destruct (nth_error l j) as [pick|] eqn:En; [|discriminate].
    cbn [bind] in Hm. injection Hm as <-.
    cbn [dict_get] in H. rewrite String.eqb_refl in H.
    destruct (item_match_list_candidates _ _ _ _ _ Hc j (or_introl eq_refl))
      as (_ & it & Hn & Hmk & Hit).
    rewrite Nat.sub_0_r, En in Hn. injection Hn as <-.
    rewrite marked_used in Hmk. rewrite Hmk in H.
    injection H as <- <-. exists j, pick.
    repeat split; try assumption.
    + now rewrite marked_used.
    + intros i' Hlt Hcand.
      apply (item_match_list_first _ _ _ _ _ _ Hc i'); [lia|assumption|].
      now rewrite Nat.sub_0_r.
Qed.

Lemma length_list_set {A} (l : list A) i x :
  length (list_set l i x) = length l.
Proof.
  revert i. induction l as [|y l IH]; intros [|i]; cbn [list_set length];
    auto.
Qed.

Lemma map_list_set {A B} (f : A -> B) (l : list A) i x y :
  nth_error l i = Some y -> f x = f y ->
  map f (list_set l i x) = map f l.
Proof.
  revert i. induction l as [|z l IH]; intros [|i]; cbn [list_set map nth_error];
    try discriminate.
  - intros [= ->] ->. reflexivity.
  - intros Hn Hf. now rewrite (IH i Hn Hf).
Qed.

Lemma dict_keys_set_present {V} (d : list (string * V)) k v :
  dict_get d k <> None -> dict_keys (dict_set d k v) = dict_keys d.
Proof.
  induction d as [|[k0 v0] d IH]; cbn [dict_get dict_set dict_keys map fst];
    [congruence|].
  destruct (String.eqb k0 k); cbn [map fst]; [reflexivity|].
  intros H. f_equal. now apply IH.
Qed.

Lemma counts_by_keys (self : ReservedResources) :
  counts self = map (fun k => (k, count self k)) (dict_keys (reserved self)).
Proof. unfold counts, dict_keys. now rewrite map_map. Qed.

Lemma count_items (self : ReservedResources) k :
  count self k = length (items_of (reserved self) k).
Proof. unfold count, items_of. now destruct (dict_get (reserved self) k). Qed.

(** X5.  A call of [get] that returns changes nothing about what is
    reserved: the kinds, the number of items of each kind, the hashes of
    the items in their order and the original reservation are as before. *)
Theorem get_keeps_reservation (self self' : ReservedResources)
    (kind : string) (specifics : option value) (r : item) :
  get self kind specifics = Ok (self', r) ->
  dict_keys (reserved self') = dict_keys (reserved self) /\
  counts self' = counts self /\
  (forall k, hashes (items_of (reserved self') k)
             = hashes (items_of (reserved self) k)) /\
  reserved_original self' = reserved_original self.
Proof.
  intros H.
  assert (Horig : reserved_original self' = reserved_original self).
  { unfold get in H. apply bind_Ok in H as (matches & _ & H).
    destruct (dict_get matches kind) as [[|[i pick] rest]|]; try discriminate.
    - destruct (get_failure _ _ _); discriminate.
    - destruct (truthy _); [discriminate|]. now injection H as <- _. }
  apply get_Ok in H as (i & pick & Hn & _ & -> & Hr).
  fold (items_of (reserved self) kind) in Hn, Hr.
  assert (Hpresent : dict_get (reserved self) kind <> None).
  { intros Hnone. unfold items_of in Hn. rewrite Hnone in Hn.
    destruct i; discriminate. }
  assert (Hkeys : dict_keys (reserved self') = dict_keys (reserved self))
    by (rewrite Hr; now apply dict_keys_set_present).
  assert (Hitems : forall k,
             map hash_of (items_of (reserved self') k)
             = map hash_of (items_of (reserved self) k) /\
             length (items_of (reserved self') k)
             = length (items_of (reserved self) k)).
  { intros k. rewrite Hr. destruct (String.eqb_spec kind k) as [<-|Hne].
    - rewrite items_of_set_same. split; [|apply length_list_set].
      apply (map_list_set hash_of _ _ _ pick Hn).
      unfold hash_of, get_or_none.
      now rewrite dict_get_set_other by discriminate.
    - now rewrite items_of_set_other. }
  split; [assumption|]. split; [|split; [apply Hitems|assumption]].
  rewrite !counts_by_keys, Hkeys. apply map_ext. intros k.
  rewrite !count_items. f_equal. apply Hitems.
Qed.

Lemma item_match_list_none (my_list : list item) (sp : value) skip :
  (forall it, In it my_list ->
              exists b, item_matches (VDict it) sp None = Ok b) ->
  (forall j, ~ candidate_at my_list skip sp j) ->
  item_match_list 0 my_list sp skip = Ok [].
Proof.
  intros Hcmp Hno.
  destruct (item_match_list_complete my_list 0 sp skip Hcmp) as (c & Hc & _).
  rewrite Hc. destruct c as [|j c']; [reflexivity|]. exfalso.
  destruct (item_match_list_candidates _ _ _ _ _ Hc j (or_introl eq_refl))
    as [_ Hj].
  rewrite Nat.sub_0_r in Hj. exact (Hno j Hj).
Qed.

Lemma item_match_list_some (my_list : list item) (sp : value) skip j :
  (forall it, In it my_list ->
              exists b, item_matches (VDict it) sp None = Ok b) ->
  candidate_at my_list skip sp j ->
  exists j0 c it0,
    item_match_list 0 my_list sp skip = Ok (j0 :: c) /\
    nth_error my_list j0 = Some it0.
Proof.
  intros Hcmp Hj.
  destruct (item_match_list_complete my_list 0 sp skip Hcmp) as (c & Hc & Hall).
  destruct c as [|j0 c'].
  - destruct (Hall j (Nat.le_0_l j)). now rewrite Nat.sub_0_r.
  - destruct (item_match_list_candidates _ _ _ _ _ Hc j0 (or_introl eq_refl))
      as (_ & it0 & Hn & _).
    rewrite Nat.sub_0_r in Hn. now exists j0, c', it0.
Qed.

(** X6.  The three ways [get] fails.  Provided that comparing the
    specifics with the handle's items of the kind raises nothing, and that
    no item that matches is free of a truthy [_used], [get] raises
    [NoResourceExn] "When trying to use instance nr (used + 1) of kind: "
    and a cause, [used] counting the items that carry [_used]: "none of
    the reserved resources matches requirements" when no item matches at
    all; otherwise "suite.conf reserved only" when every item carries
    [_used], and "No unused resource left" when some item does not -- and
    this message always says that 1 item matches the requirements, however
    many do. *)
Theorem get_failure_causes (self : ReservedResources) (kind : string)
    (specifics : option value) :
  let sp := match specifics with Some s => s | None => VDict [] end in
  let l := items_of (reserved self) kind in
  let used := length (filter (fun r => has_key r USED_KEY) l) in
  comparable l [sp] ->
  (forall j, ~ candidate_at l (Some USED_KEY) sp j) ->
  ((forall j, ~ candidate_at l None sp j) ->
   get self kind specifics =
   Raise (NoResourceExn
            [Lit "When trying to use instance nr "; FmtD (Z.of_nat (used + 1));
             Lit " of "; FmtR (VStr kind); Lit ": ";
             Lit "none of the reserved resources matches requirements ";
             FmtR sp])) /\
  ((exists j, candidate_at l None sp j) -> used = length l ->
   get self kind specifics =
   Raise (NoResourceExn
            [Lit "When trying to use instance nr "; FmtD (Z.of_nat (used + 1));
             Lit " of "; FmtR (VStr kind); Lit ": ";
             Lit "suite.conf reserved only "; FmtD (Z.of_nat (length l));
             Lit " x "; FmtR (VStr kind); Lit "."])) /\
  ((exists j, candidate_at l None sp j) -> used < length l ->
   get self kind specifics =
   Raise (NoResourceExn
            [Lit "When trying to use instance nr "; FmtD (Z.of_nat (used + 1));
             Lit " of "; FmtR (VStr kind); Lit ": ";
             Lit "No unused resource left that matches the requirements; Of reserved ";
             FmtD (Z.of_nat (length l)); Lit " x "; FmtR (VStr kind); Lit ", ";
             FmtD 1;
             Lit " match the requirements, but all are already in use; Requirements: ";
             FmtR sp])).
Proof.
  intros sp l used Hcmp Hno.
  assert (Hcmp' : forall it, In it l ->
                    exists b, item_matches (VDict it) sp None = Ok b).
  { intros it Hit. apply Hcmp; [assumption|now left]. }
  assert (Hget : get self kind specifics =
                 (e <- get_failure self kind sp ;; Raise e)).
  { unfold get. fold sp. rewrite find_matches_single. fold l.
    rewrite (item_match_list_none l sp _ Hcmp' Hno). cbn [bind dict_get].
    now rewrite String.eqb_refl. }
  rewrite Hget. unfold get_failure, find.
  rewrite find_matches_single.
  fold (items_of (reserved self) kind). fold l. fold used.
  split; [|split].
  - intros Hnone. rewrite (item_match_list_none l sp _ Hcmp' Hnone).
    cbn [bind map fst snd dict_get]. now rewrite String.eqb_refl.
  - intros [j Hj] Hall.
    destruct (item_match_list_some l sp None j Hcmp' Hj)
      as (j0 & c & it0 & -> & Hn).
    cbn [bind pick_items]. rewrite Hn.
    cbn [bind map fst snd dict_get]. rewrite String.eqb_refl.
    rewrite Hall, Nat.ltb_irrefl. reflexivity.
  - intros [j Hj] Hlt.
    destruct (item_match_list_some l sp None j Hcmp' Hj)
      as (j0 & c & it0 & -> & Hn).
    cbn [bind pick_items]. rewrite Hn.
    cbn [bind map fst snd dict_get]. rewrite String.eqb_refl.
    apply Nat.ltb_lt in Hlt. rewrite Hlt. reflexivity.
Qed.

(** X7.  [get] succeeds whenever comparing raises nothing and some item of
    the kind matches the specifics and carries no truthy [_used]. *)
Theorem get_succeeds_when_candidate (self : ReservedResources)
    (kind : string) (specifics : option value) :
  let sp := match specifics with Some s => s | None => VDict [] end in
  let l := items_of (reserved self) kind in
  comparable l [sp] ->
  (exists j, candidate_at l (Some USED_KEY) sp j) ->
  exists self' r, get self kind specifics = Ok (self', r).
Proof.
  intros sp l Hcmp [j Hj].
  assert (Hcmp' : forall it, In it l ->
                    exists b, item_matches (VDict it) sp None = Ok b).
  { intros it Hit. apply Hcmp; [assumption|now left]. }
  destruct (item_match_list_complete l 0 sp (Some USED_KEY) Hcmp')
    as (c & Hc & Hall).
  destruct c as [|j0 c'].
  { destruct (Hall j (Nat.le_0_l j)). now rewrite Nat.sub_0_r. }
  destruct (item_match_list_candidates _ _ _ _ _ Hc j0 (or_introl eq_refl))
    as (_ & it0 & Hn & Hmk & _).
  rewrite Nat.sub_0_r in Hn. rewrite marked_used in Hmk.
  unfold get. fold sp. rewrite find_matches_single. fold l.
  rewrite Hc. cbn [bind pick_items]. rewrite Hn.
  cbn [bind dict_get]. rewrite String.eqb_refl, Hmk.
  now eexists _, _.
Qed.

(** ** The causes [get] names when it fails *)

Lemma elem_or_empty_value_error (l : list value) (i : nat) (t : pytype) :
  raises_within value_error (elem_or_empty l i t).
Proof.
  unfold elem_or_empty. destruct (nth_error l i); [apply ok_within|].
  destruct t; intros e [= <-]; reflexivity.
Qed.

Lemma item_matches_fuel_value_error (fuel : nat) :
  forall item wanted ik,
    raises_within value_error (item_matches_fuel fuel item wanted ik).
Proof.
  induction fuel as [|fuel IH]; intros item wanted ik;
    cbn [item_matches_fuel]; [intros e E; discriminate|].
  destruct wanted as [| | | |wl|wd]; try apply ok_within.
  - destruct item as [| | | |l|d]; try apply ok_within.
    apply bind_within.
    + unfold list_validate_same_elem_type.
      destruct (wl ++ l); [apply ok_within|].
      destruct (forallb _ _); intros e [= <-]; reflexivity.
    + intros [t|]; [|apply ok_within].
      destruct (structured t); apply all_ok_within.
      * intros i. apply bind_within; [apply elem_or_empty_value_error|].
        intros subitem.
        apply bind_within; [apply elem_or_empty_value_error|].
        intros wanted_subitem. apply IH.
      * intros x. apply ok_within.
  - destruct item as [| | | |l|d]; try apply ok_within.
    apply all_ok_within. intros [key wanted_val].
    destruct (ignored ik key); [apply ok_within|apply IH].
Qed.

Lemma item_match_list_value_error (my_list : list item) :
  forall i want_item skip,
    raises_within value_error (item_match_list i my_list want_item skip).
Proof.
  induction my_list as [|my_item rest IH]; intros i want_item skip;
    cbn [item_match_list]; [apply ok_within|].
  destruct (marked skip my_item); [apply IH|].
  apply bind_within; [apply item_matches_fuel_value_error|].
  intros b. apply bind_within; [apply IH|].
  intros more. apply ok_within.
Qed.

(** Without a skip marker every item is compared. *)
Lemma item_match_list_compared (my_list : list item) :
  forall i want_item c,
    item_match_list i my_list want_item None = Ok c ->
    forall it, In it my_list ->
               exists b, item_matches (VDict it) want_item None = Ok b.
Proof.
  induction my_list as [|my_item rest IH]; intros i want_item c;
    cbn [item_match_list marked]; [intros _ it []|].
  intros H. apply bind_Ok in H as (b & Hb & H).
  apply bind_Ok in H as (more & Hmore & _).
  intros it [<-|Hin]; [now exists b|exact (IH _ _ _ Hmore it Hin)].
Qed.

Lemma filter_length_all {A} (p : A -> bool) (l : list A) :
  length (filter p l) = length l <-> forall x, In x l -> p x = true.
Proof.
  induction l as [|x l IH]; cbn [filter length]; [split; [intros _ ? []|auto]|].
  pose proof (filter_length_le p l) as Hle.
  destruct (p x) eqn:Ep; cbn [length]; split.
  - intros [= H] y [<-|Hy]; [exact Ep|]. now apply IH.
  - intros H. f_equal. apply IH. intros y Hy. apply H. now right.
  - intros H. lia.
  - intros H. specialize (H x (or_introl eq_refl)). congruence.
Qed.

(** Every [NoResourceExn] of [get] comes from its failure branch, and
    which of the three messages it carries is decided by what matches and
    what is in use. *)
Lemma get_raises_NoResourceExn (self : ReservedResources) (kind : string)
    (specifics : option value) (m : fmt) :
  get self kind specifics = Raise (NoResourceExn m) ->
  let sp := match specifics with Some s => s | None => VDict [] end in
  let l := items_of (reserved self) kind in
  let used := length (filter (fun r => has_key r USED_KEY) l) in
  (nothing_matches self kind sp /\
   m = when_trying_msg (used + 1) kind (none_matches_msg sp)) \/
  ((exists j, candidate_at l None sp j) /\ all_in_use self kind /\
   m = when_trying_msg (used + 1) kind (reserved_only_msg (length l) kind)) \/
  ((exists j, candidate_at l None sp j) /\ ~ all_in_use self kind /\
   m = when_trying_msg (used + 1) kind
         (all_in_use_msg (length l) kind 1 sp)).
Proof.
  intros H sp l used. unfold get in H. fold sp in H.
  rewrite find_matches_single in H. fold l in H.
  destruct (item_match_list 0 l sp (Some USED_KEY)) as [[|j c]|e|] eqn:Eused;
    cbn [bind] in H; [| | |discriminate].
  - cbn [dict_get] in H. rewrite String.eqb_refl in H.
    unfold get_failure, find in H. rewrite find_matches_single in H.
    fold (items_of (reserved self) kind) in H. fold l in H. fold used in H.
    destruct (item_match_list 0 l sp None) as [[|j c]|e|] eqn:Eany;
      cbn [bind] in H; [| | |discriminate].
    + left. cbn [map fst snd dict_get] in H. rewrite String.eqb_refl in H.
      cbn [bind] in H. injection H as <-. split; [|reflexivity].
      intros j Hj.
      destruct (item_match_list_complete l 0 sp None
                  (item_match_list_compared _ _ _ _ Eany)) as (c & Hc & Hall).
      rewrite Eany in Hc. injection Hc as <-.
      apply (Hall j (Nat.le_0_l j)). now rewrite Nat.sub_0_r.
    + right.
      destruct (item_match_list_candidates _ _ _ _ _ Eany j (or_introl eq_refl))
        as [_ Hj].
      rewrite Nat.sub_0_r in Hj. pose proof Hj as (it & Hn & _).
      cbn [pick_items] in H. rewrite Hn in H.
      cbn [bind map fst snd dict_get] in H. rewrite String.eqb_refl in H.
      cbn [bind length] in H.
      pose proof (filter_length_le (fun r => has_key r USED_KEY) l) as Hle.
      fold used in Hle.
      destruct (Nat.ltb_spec used (length l)) as [Hlt|Hge];
        cbn [negb] in H; injection H as <-.
      * right. split; [now exists j|]. split; [|reflexivity].
        intros Hall.
        apply (proj2 (filter_length_all (fun r => has_key r USED_KEY) l))
          in Hall.
        fold used in Hall. lia.
      * left. split; [now exists j|]. split; [|reflexivity].
        refine (proj1 (filter_length_all (fun r => has_key r USED_KEY) l) _).
        fold used. lia.
    + injection H as ->.
      pose proof (item_match_list_value_error l 0 sp None _ Eany). discriminate.
  - cbn [pick_items] in H.
    destruct (nth_error l j) as [pick|]; cbn [bind] in H; [|discriminate].
    cbn [dict_get] in H. rewrite String.eqb_refl in H.
    destruct (truthy (get_or_none pick USED_KEY)); discriminate.
  - injection H as ->.
    pose proof (item_match_list_value_error l 0 sp (Some USED_KEY) _ Eused).
    discriminate.
Qed.

(** *** The texts of the messages *)

Lemma string_append_assoc (a b c : string) :
  String.append (String.append a b) c = String.append a (String.append b c).
Proof. induction a as [|x a IH]; cbn [String.append]; now rewrite ?IH. Qed.

Lemma render_app (repr : value -> string) (a b : fmt) :
  render repr (a ++ b) = String.append (render repr a) (render repr b).
Proof.
  unfold render. induction a as [|p a IH]; cbn [app fold_right];
    [reflexivity|].
  rewrite IH. now rewrite string_append_assoc.
Qed.

Lemma append_cancel_l (s x y : string) :
  String.append s x = String.append s y -> x = y.
Proof.
  induction s as [|c s IH]; cbn [String.append]; [auto|].
  intros [= H]. now apply IH.
Qed.

Lemma uint_no_blank (d : Decimal.uint) :
  ~ In " "%char (list_ascii_of_string (NilEmpty.string_of_uint d)).
Proof.
  induction d; cbn [NilEmpty.string_of_uint list_ascii_of_string In];
    [intros []|intros [H|H]; [discriminate H|auto]..].
Qed.

Lemma py_str_no_blank (z : Z) :
  ~ In " "%char (list_ascii_of_string (py_str z)).
Proof.
  unfold py_str, NilZero.string_of_int, NilZero.string_of_uint.
  destruct (Z.to_int z) as [d|d].
  - destruct d; try apply uint_no_blank.
    cbn. intros [H|[]]. discriminate H.
  - cbn [list_ascii_of_string In]. intros [H|H]; [discriminate H|].
    revert H. destruct d; try apply uint_no_blank.
    cbn. intros [H|[]]. discriminate H.
Qed.

(** Two texts that agree and each start with a word free of blanks,
    followed by a blank, start with the same word. *)
Lemma word_before_blank (d1 : string) :
  forall d2 x y,
    ~ In " "%char (list_ascii_of_string d1) ->
    ~ In " "%char (list_ascii_of_string d2) ->
    String.append d1 (String " " x) = String.append d2 (String " " y) ->
    x = y.
Proof.
  induction d1 as [|c d1 IH]; intros [|c' d2] x y H1 H2;
    cbn [String.append list_ascii_of_string In] in *.
  - now intros [= ->].
  - intros [= <- _]. exfalso. apply H2. now left.
  - intros [= -> _]. exfalso. apply H1. now left.
  - intros [= _ H]. apply (IH d2 x y); auto.
Qed.

(** For one kind, the text of a failure of [get] tells the text of its
    cause apart, whatever the instance numbers. *)
Lemma when_trying_render_inj (repr : value -> string) (nr1 nr2 : nat)
    (kind : string) (cause1 cause2 : fmt) :
  render repr (when_trying_msg nr1 kind cause1)
  = render repr (when_trying_msg nr2 kind cause2) ->
  render repr cause1 = render repr cause2.
Proof.
  unfold when_trying_msg. rewrite !render_app.
  cbn [render fold_right].
  intros H. rewrite !string_append_assoc in H. apply append_cancel_l in H.
  cbn [String.append] in H.
  apply word_before_blank in H; try apply py_str_no_blank.
  injection H as H. apply append_cancel_l in H. now injection H.
Qed.

(** C7.  A handle holds exactly two items of kind 'modem' and two calls of
    [get] have drawn them; then [get('modem')] raises [NoResourceExn]
    "When trying to use instance nr 3 of 'modem': suite.conf reserved only
    2 x 'modem'.", the message of cause (b).  Every [NoResourceExn] of
    [get] carries one of three messages: "none of the reserved resources
    matches requirements" when no item of the kind matches (a), "suite.conf
    reserved only" when some item matches and every item of the kind
    carries [_used] (b), "No unused resource left that matches the
    requirements" when some item matches and some item carries no [_used]
    (c).  Two failures of [get] for one kind whose messages read the same
    have the same cause. *)
Theorem third_get_blames_reservation_size
    (h0 h1 h2 : ReservedResources) (a b r1 r2 : item)
    (specifics1 specifics2 : option value) :
  dict_get (reserved h0) "modem" = Some [a; b] ->
  get h0 "modem" specifics1 = Ok (h1, r1) ->
  get h1 "modem" specifics2 = Ok (h2, r2) ->
  get h2 "modem" None =
    Raise (NoResourceExn
             [Lit "When trying to use instance nr "; FmtD 3; Lit " of ";
              FmtR (VStr "modem"); Lit ": ";
              Lit "suite.conf reserved only "; FmtD 2; Lit " x ";
              FmtR (VStr "modem"); Lit "."]) /\
  (forall self kind specifics m,
      get self kind specifics = Raise (NoResourceExn m) ->
      let sp := match specifics with Some s => s | None => VDict [] end in
      let l := items_of (reserved self) kind in
      let used := length (filter (fun r => has_key r USED_KEY) l) in
      (nothing_matches self kind sp /\
       m = [Lit "When trying to use instance nr "; FmtD (Z.of_nat (used + 1));
            Lit " of "; FmtR (VStr kind); Lit ": ";
            Lit "none of the reserved resources matches requirements ";
            FmtR sp]) \/
      ((exists j, candidate_at l None sp j) /\ all_in_use self kind /\
       m = [Lit "When trying to use instance nr "; FmtD (Z.of_nat (used + 1));
            Lit " of "; FmtR (VStr kind); Lit ": ";
            Lit "suite.conf reserved only "; FmtD (Z.of_nat (length l));
            Lit " x "; FmtR (VStr kind); Lit "."]) \/
      ((exists j, candidate_at l None sp j) /\ ~ all_in_use self kind /\
       m = [Lit "When trying to use instance nr "; FmtD (Z.of_nat (used + 1));
            Lit " of "; FmtR (VStr kind); Lit ": ";
            Lit "No unused resource left that matches the requirements; Of reserved ";
            FmtD (Z.of_nat (length l)); Lit " x "; FmtR (VStr kind); Lit ", ";
            FmtD 1;
            Lit " match the requirements, but all are already in use; Requirements: ";
            FmtR sp])) /\
  (forall repr self1 self2 kind asked1 asked2 m1 m2,
      get self1 kind asked1 = Raise (NoResourceExn m1) ->
      get self2 kind asked2 = Raise (NoResourceExn m2) ->
      render repr m1 = render repr m2 ->
      let sp1 := match asked1 with Some s => s | None => VDict [] end in
      let sp2 := match asked2 with Some s => s | None => VDict [] end in
      (nothing_matches self1 kind sp1 <-> nothing_matches self2 kind sp2) /\
      ((exists j, candidate_at (items_of (reserved self1) kind) None sp1 j) ->
       (all_in_use self1 kind <-> all_in_use self2 kind))).
Proof.
  intros Hl H1 H2. split; [|split].
  - apply get_Ok in H1 as (i1 & p1 & Hn1 & Hu1 & -> & Hr1).
    rewrite Hl in Hn1, Hr1.
    apply get_Ok in H2 as (i2 & p2 & Hn2 & Hu2 & -> & Hr2).
    rewrite Hr1, dict_get_set_same in Hn2, Hr2.
    assert (Hused : forall p, truthy (get_or_none
                                        (dict_set p USED_KEY (VBool true))
                                        USED_KEY) = true)
      by (intros p; now rewrite get_or_none_set_same).
    assert (Hl2 : exists x y,
               dict_get (reserved h2) "modem"
               = Some [dict_set x USED_KEY (VBool true);
                       dict_set y USED_KEY (VBool true)]).
    { rewrite Hr2, dict_get_set_same.
      assert (Hi1 : i1 = 0 \/ i1 = 1).
      { destruct i1 as [|[|[|i1]]]; auto; discriminate. }
      assert (Hi2 : i2 = 0 \/ i2 = 1).
      { destruct Hi1 as [-> | ->]; cbn [list_set] in Hn2;
          destruct i2 as [|[|[|i2]]]; auto; discriminate. }
      destruct Hi1 as [-> | ->], Hi2 as [-> | ->];
        cbn [nth_error] in Hn1; injection Hn1 as <-;
        cbn [list_set nth_error] in Hn2 |- *; injection Hn2 as <-;
        try (rewrite Hused in Hu2; discriminate); eauto. }
    destruct Hl2 as (x & y & Hl2).
    rewrite (get_all_used h2 "modem" _ Hl2); [reflexivity|discriminate|].
    intros it [<-|[<-|[]]]; apply Hused.
  - intros self kind specifics m H.
    exact (get_raises_NoResourceExn self kind specifics m H).
  - intros repr self1 self2 kind asked1 asked2 m1 m2 G1 G2 Hsame sp1 sp2.
    apply get_raises_NoResourceExn in G1. apply get_raises_NoResourceExn in G2.
    fold sp1 in G1. fold sp2 in G2.
    destruct G1 as [(Hn1 & ->)|[(He1 & Ha1 & ->)|(He1 & Ha1 & ->)]];
      destruct G2 as [(Hn2 & ->)|[(He2 & Ha2 & ->)|(He2 & Ha2 & ->)]];
      apply when_trying_render_inj in Hsame;
      try (exfalso;
           first
             [ exact (proj1 (failure_messages_distinct repr _ _ _ 0 "" 0 VNone)
                        Hsame)
             | exact (proj1 (failure_messages_distinct repr _ _ _ 0 "" 0 VNone)
                        (eq_sym Hsame))
             | exact (proj1 (proj2 (failure_messages_distinct
                                      repr _ 0 "" _ _ _ _)) Hsame)
             | exact (proj1 (proj2 (failure_messages_distinct
                                      repr _ 0 "" _ _ _ _)) (eq_sym Hsame))
             | exact (proj2 (proj2 (failure_messages_distinct
                                      repr VNone _ _ _ _ _ _)) Hsame)
             | exact (proj2 (proj2 (failure_messages_distinct
                                      repr VNone _ _ _ _ _ _))
                        (eq_sym Hsame)) ]).
    + split; [tauto|]. intros [j Hj]. destruct (Hn1 j Hj).
    + split; [|tauto].
      split; intros Hn; [destruct He1 as [j Hj]|destruct He2 as [j Hj]];
        destruct (Hn j Hj).
    + split; [|tauto].
      split; intros Hn; [destruct He1 as [j Hj]|destruct He2 as [j Hj]];
        destruct (Hn j Hj).
Qed.

Lemma third_get_blames_reservation_size_witness :
  let m1 : item := [(HASH_KEY, VStr "m1")] in
  let m2 : item := [(HASH_KEY, VStr "m2")] in
  let u1 : item := [(HASH_KEY, VStr "m1"); (USED_KEY, VBool true)] in
  let u2 : item := [(HASH_KEY, VStr "m2"); (USED_KEY, VBool true)] in
  let handle l := {| origin := "suite"; reserved_original := None;
                     reserved := [("modem", l)] |} in
  dict_get (reserved (handle [m1; m2])) "modem" = Some [m1; m2] /\
  get (handle [m1; m2]) "modem" None = Ok (handle [u1; m2], u1) /\
  get (handle [u1; m2]) "modem" (Some (VDict m2)) = Ok (handle [u1; u2], u2) /\
  get (handle [u1; u2]) "modem" None =
    Raise (NoResourceExn
             [Lit "When trying to use instance nr "; FmtD 3; Lit " of ";
              FmtR (VStr "modem"); Lit ": ";
              Lit "suite.conf reserved only "; FmtD 2; Lit " x ";
              FmtR (VStr "modem"); Lit "."]).
Proof.
  intros m1 m2 u1 u2 handle.
  assert (H0 : dict_get (reserved (handle [m1; m2])) "modem" = Some [m1; m2])
    by reflexivity.
  assert (H1 : get (handle [m1; m2]) "modem" None = Ok (handle [u1; m2], u1))
    by reflexivity.
  assert (H2 : get (handle [u1; m2]) "modem" (Some (VDict m2))
               = Ok (handle [u1; u2], u2)) by reflexivity.
  split; [exact H0|]. split; [exact H1|]. split; [exact H2|].
  exact (proj1 (third_get_blames_reservation_size _ _ _ _ _ _ _ _ _ H0 H1 H2)).
Defined.

(** ** Releasing every item *)

Lemma items_of_map (f : item -> item) (r : Resources) k :
  items_of (map (fun kl : string * list item => (fst kl, map f (snd kl))) r) k
  = map f (items_of r k).
Proof.
  unfold items_of. induction r as [|[k0 l0] r IH]; cbn [map dict_get fst snd];
    [reflexivity|].
  destruct (String.eqb k0 k); [reflexivity|exact IH].
Qed.

Lemma has_key_remove (it : item) k : has_key (dict_remove it k) k = false.
Proof. unfold has_key. now rewrite dict_get_remove_same. Qed.

(** X8.  [put_all] takes the [_used] key off every item of the handle and
    changes nothing else about what is reserved: kinds, counts, hashes and
    the original reservation stay.  After it, [get] without specifics
    hands out the first item of any kind that has one. *)
Theorem put_all_releases_every_item (self : ReservedResources) :
  (forall k it, In it (items_of (reserved (put_all self)) k) ->
                has_key it USED_KEY = false) /\
  (forall k, hashes (items_of (reserved (put_all self)) k)
             = hashes (items_of (reserved self) k)) /\
  counts (put_all self) = counts self /\
  reserved_original (put_all self) = reserved_original self /\
  (forall kind it0 rest,
      items_of (reserved self) kind = it0 :: rest ->
      exists self',
        get (put_all self) kind None
        = Ok (self', dict_set (dict_remove it0 USED_KEY) USED_KEY (VBool true))).
Proof.
  assert (Hitems : forall k,
             items_of (reserved (put_all self)) k
             = map (fun it : item => dict_remove it USED_KEY)
                   (items_of (reserved self) k)).
  { intros k. unfold put_all. cbn [reserved]. apply items_of_map. }
  split; [|split; [|split; [|split]]].
  - intros k it. rewrite Hitems. intros Hin.
    apply in_map_iff in Hin as (it0 & <- & _). apply has_key_remove.
  - intros k. rewrite Hitems. unfold hashes. rewrite map_map.
    apply map_ext. intros it. unfold hash_of, get_or_none.
    now rewrite dict_get_remove_other by discriminate.
  - rewrite !counts_by_keys.
    assert (Hkeys : dict_keys (reserved (put_all self))
                    = dict_keys (reserved self)).
    { unfold put_all, dict_keys. cbn [reserved]. now rewrite map_map. }
    rewrite Hkeys. apply map_ext. intros k. rewrite !count_items, Hitems.
    now rewrite length_map.
  - reflexivity.
  - intros kind it0 rest Hl. unfold get.
    rewrite find_matches_single, Hitems, Hl. cbn [map item_match_list].
    assert (Hfree : marked (Some USED_KEY) (dict_remove it0 USED_KEY) = false).
    { rewrite marked_used. unfold get_or_none.
      now rewrite dict_get_remove_same. }
    rewrite Hfree, item_matches_empty_want. cbn [bind].
    destruct (item_match_list 1
                (map (fun it : item => dict_remove it USED_KEY) rest)
                (VDict []) (Some USED_KEY)) as [more| |] eqn:Emore.
    + cbn [bind pick_items nth_error dict_get]. rewrite String.eqb_refl.
      rewrite marked_used in Hfree. rewrite Hfree. now eexists.
    + exfalso.
      assert (Hw := item_match_list_within
                      (map (fun it : item => dict_remove it USED_KEY) rest)
                      1 (VDict []) (Some USED_KEY) e Emore).
      clear - Emore. revert Emore. generalize 1.
      induction rest as [|x rest IH]; intros n; cbn [map item_match_list];
        [discriminate|].
      destruct (marked _ _); [apply IH|].
      rewrite item_matches_empty_want. cbn [bind].
      destruct (item_match_list (S n) _ _ _) eqn:E; cbn [bind];
        [discriminate| |discriminate].
      intros [= <-]. now apply (IH (S n)).
    + exfalso. clear - Emore. revert Emore. generalize 1.
      induction rest as [|x rest IH]; intros n; cbn [map item_match_list];
        [discriminate|].
      destruct (marked _ _); [apply IH|].
      rewrite item_matches_empty_want. cbn [bind].
      destruct (item_match_list (S n) _ _ _) eqn:E; cbn [bind];
        [discriminate|discriminate|].
      intros _. now apply (IH (S n)).
Qed.

(** ** The persistent counters *)

(** What a completed [next_persistent_value] read, checked and wrote. *)
Lemma next_persistent_value_Ok self token first_val validate_func inc_func
    self' next_value :
  next_persistent_value self token first_val validate_func inc_func
    = Ok (self', next_value) ->
  exists last_value,
    ((dict_get (token_files self) (token_path token) = None /\
      last_value = first_val) \/
     (exists content,
         dict_get (token_files self) (token_path token) = Some content /\
         last_value = strip content /\ validate_func last_value = Ok tt)) /\
    inc_func last_value = Ok next_value /\
    token_files self'
    = dict_set (token_files self) (token_path token) next_value /\
    all_resources self' = all_resources self /\
    rrfile self' = rrfile self /\
    _remember_to_free self' = _remember_to_free self /\
    _registered_exit_handler self' = _registered_exit_handler self.
Proof.
  unfold next_persistent_value. intros H.
  apply bind_Ok in H as (last_value & Hlast & H).
  apply bind_Ok in H as (v & Hinc & [= <- <-]).
  exists last_value.
  cbn [token_files all_resources rrfile _remember_to_free
       _registered_exit_handler].
  split; [|now repeat split].
  destruct (dict_get (token_files self) (token_path token)) as [content|].
  - right. exists content. apply bind_Ok in Hlast as ([] & Hv & [= <-]).
    split; [reflexivity|]. split; [reflexivity|exact Hv].
  - left. now injection Hlast as <-.
Qed.

(** X9.  Whenever [next_lac], [next_rac] or [next_cellid] returns, it
    returns the numeral of a number in range, LAC within 1..65535, RAC
    within 1..255 and cell id within 0..65535, and has left that numeral in
    its file; LAC and RAC are never 0.  From a file that reads as the top
    of the range, LAC and RAC go to '1' and the cell id to '0' (the file
    no longer than 4300 characters, which keeps its numeral under the
    interpreter's cap where one is in force). *)
Theorem lac_rac_cellid_stay_in_range :
  (forall self self' v,
      next_lac self = Ok (self', v) ->
      exists m, v = py_str m /\ (1 <= m <= 65535)%Z /\
                dict_get (token_files self') (token_path "lac") = Some v) /\
  (forall self self' v,
      next_rac self = Ok (self', v) ->
      exists m, v = py_str m /\ (1 <= m <= 255)%Z /\
                dict_get (token_files self') (token_path "rac") = Some v) /\
  (forall self self' v,
      next_cellid self = Ok (self', v) ->
      exists m, v = py_str m /\ (0 <= m <= 65535)%Z /\
                dict_get (token_files self') (token_path "cellid") = Some v) /\
  (forall self content,
      dict_get (token_files self) (token_path "lac") = Some content ->
      String.length content <= 4300 ->
      py_int (strip content) = Ok 65535%Z ->
      exists self', next_lac self = Ok (self', "1")) /\
  (forall self content,
      dict_get (token_files self) (token_path "rac") = Some content ->
      String.length content <= 4300 ->
      py_int (strip content) = Ok 255%Z ->
      exists self', next_rac self = Ok (self', "1")) /\
  (forall self content,
      dict_get (token_files self) (token_path "cellid") = Some content ->
      String.length content <= 4300 ->
      py_int (strip content) = Ok 65535%Z ->
      exists self', next_cellid self = Ok (self', "0")).
Proof.
  split; [|split; [|split; [|split; [|split]]]].
  - intros self self' v H.
    apply next_persistent_value_Ok in H as (last & _ & Hinc & Hfiles & _).
    apply bind_Ok in Hinc as (n & _ & [= <-]).
    pose proof (Z.mod_pos_bound (n + 1) (2 ^ 16) ltac:(reflexivity)) as Hb.
    change (2 ^ 16)%Z with 65536%Z in Hb.
    eexists. split; [reflexivity|]. split.
    + change (Z.pow_pos 2 16) with 65536%Z.
      destruct (Z.eqb_spec ((n + 1) mod 65536) 0); lia.
    + rewrite Hfiles. apply dict_get_set_same.
  - intros self self' v H.
    apply next_persistent_value_Ok in H as (last & _ & Hinc & Hfiles & _).
    apply bind_Ok in Hinc as (n & _ & [= <-]).
    pose proof (Z.mod_pos_bound (n + 1) (2 ^ 8) ltac:(reflexivity)) as Hb.
    change (2 ^ 8)%Z with 256%Z in Hb.
    eexists. split; [reflexivity|]. split.
    + change (Z.pow_pos 2 8) with 256%Z.
      destruct (Z.eqb_spec ((n + 1) mod 256) 0); lia.
    + rewrite Hfiles. apply dict_get_set_same.
  - intros self self' v H.
    apply next_persistent_value_Ok in H as (last & _ & Hinc & Hfiles & _).
    apply bind_Ok in Hinc as (n & _ & [= <-]).
    pose proof (Z.mod_pos_bound (n + 1) (2 ^ 16) ltac:(reflexivity)) as Hb.
    change (2 ^ 16)%Z with 65536%Z in Hb.
    eexists. split; [reflexivity|].
    split; [change (Z.pow_pos 2 16) with 65536%Z; lia|].
    rewrite Hfiles. apply dict_get_set_same.
  - intros self content Hfile _ Hint.
    unfold next_lac, next_persistent_value, schema_uint16, schema_uint.
    rewrite Hfile, Hint. cbn. rewrite Hint. cbn. now eexists.
  - intros self content Hfile _ Hint.
    unfold next_rac, next_persistent_value, schema_uint8, schema_uint.
    rewrite Hfile, Hint. cbn. rewrite Hint. cbn. now eexists.
  - intros self content Hfile _ Hint.
    unfold next_cellid, next_persistent_value, schema_uint16, schema_uint.
    rewrite Hfile, Hint. cbn. rewrite Hint. cbn. now eexists.
Qed.

(** X10.  Whenever [next_bvci] returns, it returns the numeral of a number
    within 1..65535 and has left it in its file.  The number is 1, a
    reserved BVCI, only when the file read as 0; from no file it is 3, and
    from a file that reads as 65535 it is 2 (the file no longer than 4300
    characters, which keeps its numeral under the interpreter's cap where
    one is in force). *)
Theorem bvci_range_and_reserved_values :
  (forall self self' v,
      next_bvci self = Ok (self', v) ->
      exists m,
        v = py_str m /\ (1 <= m <= 65535)%Z /\
        dict_get (token_files self') (token_path "bvci") = Some v /\
        (m = 1%Z ->
         exists content,
           dict_get (token_files self) (token_path "bvci") = Some content /\
           py_int (strip content) = Ok 0%Z)) /\
  (forall self,
      dict_get (token_files self) (token_path "bvci") = None ->
      exists self', next_bvci self = Ok (self', "3")) /\
  (forall self content,
      dict_get (token_files self) (token_path "bvci") = Some content ->
      String.length content <= 4300 ->
      py_int (strip content) = Ok 65535%Z ->
      exists self', next_bvci self = Ok (self', "2")).
Proof.
  split; [|split].
  - intros self self' v H.
    apply next_persistent_value_Ok in H as (last & Hlast & Hinc & Hfiles & _).
    apply bind_Ok in Hinc as (n & Hn & Hinc).
    assert (Hrange : (0 <= n < 65536)%Z /\
                     (n = 0%Z ->
                      exists content,
                        dict_get (token_files self) (token_path "bvci")
                        = Some content /\ py_int (strip content) = Ok 0%Z)).
    { destruct Hlast as [[_ ->]|(content & Hfile & -> & Hval)].
      - vm_compute in Hn. injection Hn as <-. split; [lia|discriminate].
      - unfold schema_uint16, schema_uint in Hval. rewrite Hn in Hval.
        cbn [bind] in Hval.
        destruct (Z.leb_spec 0 n), (Z.ltb_spec n (2 ^ 16));
          try discriminate.
        split; [change (2 ^ 16)%Z with 65536%Z in *; lia|].
        intros ->. now exists content. }
    destruct Hrange as [Hr H0].
    destruct (Z.ltb_spec n (2 ^ 16 - 1)) as [Hlt|Hge]; injection Hinc as <-.
    + exists (n + 1)%Z. split; [reflexivity|].
      change (2 ^ 16 - 1)%Z with 65535%Z in Hlt. split; [lia|]. split.
      * rewrite Hfiles. apply dict_get_set_same.
      * intros Hm. apply H0. lia.
    + exists 2%Z. split; [reflexivity|]. split; [lia|]. split.
      * rewrite Hfiles. apply dict_get_set_same.
      * discriminate.
  - intros self Hfile. unfold next_bvci, next_persistent_value.
    rewrite Hfile. cbn. now eexists.
  - intros self content Hfile _ Hint.
    unfold next_bvci, next_persistent_value, schema_uint16, schema_uint.
    rewrite Hfile, Hint. cbn. rewrite Hint. cbn. now eexists.
Qed.

Lemma string_length_append (a b : string) :
  String.length (String.append a b) = String.length a + String.length b.
Proof. induction a as [|c a IH]; cbn; [reflexivity|now rewrite IH]. Qed.

Lemma append_cancel_r (s x : string) :
  forall y, String.append x s = String.append y s -> x = y.
Proof.
  induction x as [|c x IH]; intros [|c' y] H; cbn in H.
  - reflexivity.
  - apply (f_equal String.length) in H. cbn in H.
    rewrite string_length_append in H. lia.
  - apply (f_equal String.length) in H. cbn in H.
    rewrite string_length_append in H. lia.
  - injection H as -> H. f_equal. now apply IH.
Qed.

Lemma token_path_inj (t t' : string) : token_path t = token_path t' -> t = t'.
Proof.
  unfold token_path. cbn [String.append]. intros H.
  injection H as H. now apply append_cancel_r in H.
Qed.

(** X11.  A completed [next_persistent_value] has written the new value to
    the file of its token and touched nothing else: the file of every
    other token, the catalog, the reservation record and what is
    remembered for release are as before. *)
Theorem next_persistent_value_touches_own_file self token first_val
    validate_func inc_func self' next_value :
  next_persistent_value self token first_val validate_func inc_func
    = Ok (self', next_value) ->
  dict_get (token_files self') (token_path token) = Some next_value /\
  (forall token',
      token' <> token ->
      dict_get (token_files self') (token_path token')
      = dict_get (token_files self) (token_path token')) /\
  all_resources self' = all_resources self /\
  rrfile self' = rrfile self /\
  _remember_to_free self' = _remember_to_free self.
Proof.
  intros H.
  apply next_persistent_value_Ok in H
    as (last & _ & _ & Hfiles & Hcat & Hrr & Hrem & _).
  rewrite Hfiles. repeat split; try assumption.
  - apply dict_get_set_same.
  - intros token' Hne. apply dict_get_set_other.
    intros Heq. apply Hne. symmetry. now apply token_path_inj.
Qed.

(** ** Dropping a kind the receiver lacks *)

Lemma drop_list_unfound key (rl : list item) :
  (forall d, In d rl -> truthy (hash_of d) = true) ->
  drop_list key [] rl false = Ok [].
Proof.
  induction rl as [|d rl IH]; intros H; [reflexivity|].
  rewrite drop_list_cons, (H d) by now left. cbn [negb drop_hash bind andb].
  apply IH. intros x Hx. apply H. now right.
Qed.

(** X12.  [drop] raises [KeyError] for the first dropped kind when the
    receiver does not hold that kind and nothing is to be dropped under
    it, or [fail_if_not_found] is off and the items to drop carry hashes:
    the list it worked on is then empty and the kind cannot be popped. *)
Theorem drop_missing_kind_raises_KeyError (self rest : Resources)
    (al : aliasing) (key : string) :
  same_object al = false ->
  dict_get self key = None ->
  (forall f, drop self ((key, []) :: rest) al f = Raise (KeyError key)) /\
  (forall rl,
      (forall d, In d rl -> truthy (hash_of d) = true) ->
      drop self ((key, rl) :: rest) al false = Raise (KeyError key)).
Proof.
  intros Hobj Hnone. split.
  - intros f. unfold drop. rewrite Hobj. cbn [for_each fst snd].
    unfold drop_key. rewrite Hnone. cbn. unfold dict_pop. now rewrite Hnone.
  - intros rl Hrl. unfold drop. rewrite Hobj. cbn [for_each fst snd].
    unfold drop_key. rewrite Hnone, (drop_list_unfound key rl Hrl).
    cbn [bind]. unfold dict_pop. now rewrite Hnone.
Qed.

(** ** What [reserve] grants *)

Lemma reserve_Ok_parts (schema_validate : Want -> res unit)
    (overlay : Resources -> Want -> res Resources)
    (pool pool1 : ResourcesPool) (origin_id : string) (want modifiers : Want)
    (handle : ReservedResources) :
  reserve schema_validate overlay pool origin_id want modifiers
    = Ok (pool1, handle) ->
  exists avail found overlaid,
    without (all_resources pool) (record pool) = Ok avail /\
    find avail want None true = Ok found /\
    handle = {| origin := origin_id;
                reserved_original := Some (mark_reserved_by found origin_id);
                reserved := overlaid |} /\
    pool1 = {| all_resources := all_resources pool;
               rrfile := Some (schema_add (record pool)
                                 (mark_reserved_by found origin_id));
               token_files := token_files pool;
               _remember_to_free :=
                 Some (schema_add
                         (if falsy (_remember_to_free pool) then []
                          else read_reserved (_remember_to_free pool))
                         (mark_reserved_by found origin_id));
               _registered_exit_handler := true |}.
Proof.
  intros H. unfold reserve in H.
  apply bind_Ok in H as (_ & _ & H). apply bind_Ok in H as (_ & _ & H).
  apply bind_Ok in H as ([reserved' to_be_reserved] & Hdec & H).
  apply bind_Ok in H as (pool1' & Hremember & H).
  apply bind_Ok in H as (handle' & Hnew & [= <- <-]).
  unfold reserve_decision in Hdec. fold (record pool) in Hdec.
  apply bind_Ok in Hdec as (avail & Hwithout & Hdec).
  apply bind_Ok in Hdec as (found & Hfind & Hdec).
  cbn [add bind] in Hdec. injection Hdec as <- <-.
  unfold new_ReservedResources in Hnew.
  apply bind_Ok in Hnew as (overlaid & _ & [= <-]).
  unfold remember_to_free in Hremember. cbn [add bind rrfile] in Hremember.
  injection Hremember as <-.
  exists avail, found, overlaid. now repeat split.
Qed.

Lemma without_split (catalog r avail : Resources) :
  all_str_hashed catalog -> NoDup (dict_keys r) ->
  without catalog r = Ok avail ->
  forall k,
    Permutation (hashes (items_of catalog k))
                (hashes (items_of r k) ++ hashes (items_of avail k)).
Proof.
  unfold without. intros Hcat Hnd H k.
  destruct (drop_Ok r catalog avail no_aliasing (fun _ => eq_refl) Hnd H k)
    as (removed & Hp & Hall).
  rewrite <- (same_hash_hashes removed (items_of r k)); [| |assumption].
  - rewrite <- hashes_app. unfold hashes. now apply Permutation_map.
  - intros x Hx. apply (items_of_hashed catalog k Hcat).
    apply (Permutation_in _ (Permutation_sym Hp)). apply in_or_app. now left.
Qed.

Lemma NoDup_incl_split {A} (l1 : list A) :
  forall l2, NoDup l1 -> incl l1 l2 ->
             exists rest, Permutation l2 (l1 ++ rest).
Proof.
  induction l1 as [|x l1 IH]; intros l2 Hnd Hincl.
  - now exists l2.
  - inversion Hnd as [|? ? Hnotin Hnd']; subst.
    destruct (in_split x l2 (Hincl x (or_introl eq_refl))) as (a & b & ->).
    destruct (IH (a ++ b) Hnd') as (rest & Hperm).
    { intros y Hy. assert (Hy' := Hincl y (or_intror Hy)).
      apply in_app_or in Hy' as [Hy'|[->|Hy']];
        [apply in_or_app; now left|contradiction|apply in_or_app; now right]. }
    exists rest. cbn [app]. rewrite <- Hperm. symmetry.
    apply Permutation_middle.
Qed.

Lemma In_indexed {A} (l : list A) :
  forall s i x, nth_error l i = Some x ->
                In (s + i, x) (combine (seq s (length l)) l).
Proof.
  induction l as [|y l IH]; intros s [|i] x; cbn [nth_error length seq combine];
    try discriminate.
  - intros [= ->]. left. f_equal. lia.
  - intros H. right. replace (s + S i) with (S s + i) by lia. now apply IH.
Qed.

Lemma map_snd_indexed {A} (l : list A) :
  forall s, map snd (combine (seq s (length l)) l) = l.
Proof.
  induction l as [|y l IH]; intros s; cbn [length seq combine map snd];
    [reflexivity|]. now rewrite IH.
Qed.

(** Items picked at pairwise distinct indexes are part of the list, each
    counted once. *)
Lemma picked_part_of_list {A} (l : list A) (picked : list (nat * A)) :
  NoDup (map fst picked) ->
  (forall i x, In (i, x) picked -> nth_error l i = Some x) ->
  exists rest, Permutation l (map snd picked ++ rest).
Proof.
  intros Hnd Hnth.
  destruct (NoDup_incl_split picked (combine (seq 0 (length l)) l))
    as (rest & Hperm).
  - now apply NoDup_map_inv in Hnd.
  - intros [i x] Hin. apply (In_indexed l 0 i x). now apply Hnth.
  - exists (map snd rest). rewrite <- map_app.
    rewrite <- (map_snd_indexed l 0) at 1. now apply Permutation_map.
Qed.

Lemma find_matches_distinct self want skip matches :
  find_matches self want skip true = Ok matches ->
  forall key picked,
    In (key, picked) matches ->
    NoDup (map fst picked) /\
    forall i it, In (i, it) picked ->
                 nth_error (items_of self key) i = Some it.
Proof.
  unfold find_matches. intros H.
  refine (for_each_invariant
            (fun matches => forall key picked,
                 In (key, picked) matches -> _ /\ _)
            _ _ _ [] matches _ H); [|intros ? ? []].
  clear H matches. intros matches [key want_list] matches' _ Hinv H.
  apply bind_Ok in H as (solution & Hsol & H).
  apply bind_Ok in H as (picked & Hpick & [= <-]).
  intros key' picked' Hin.
  apply dict_set_In in Hin as [[-> ->]|Hin]; [|now apply Hinv].
  destruct (pick_items_spec _ _ _ Hpick) as [Hfst Hnth].
  destruct (find_solution_serves _ _ _ _ _ _ Hsol (or_introl eq_refl))
    as [Hnd _].
  split; [now rewrite Hfst|exact Hnth].
Qed.

(** What [find] returns under [raise_if_missing] is, kind by kind, part of
    what the receiver holds, each item counted once. *)
Lemma find_part_of_receiver self want skip found :
  find self want skip true = Ok found ->
  forall k, exists rest,
    Permutation (items_of self k) (items_of found k ++ rest).
Proof.
  unfold find. intros H k. apply bind_Ok in H as (matches & Hm & [= <-]).
  assert (Hitems : items_of
                     (map (fun kl : string * list (nat * item) =>
                             (fst kl, map snd (snd kl))) matches) k
                   = match dict_get matches k with
                     | Some picked => map snd picked
                     | None => []
                     end).
  { unfold items_of. clear. induction matches as [|[k0 v0] matches IH];
      cbn [map dict_get fst snd]; [reflexivity|].
    destruct (String.eqb k0 k); [reflexivity|exact IH]. }
  rewrite Hitems. destruct (dict_get matches k) as [picked|] eqn:Eg.
  - apply dict_get_In in Eg.
    destruct (find_matches_distinct _ _ _ _ Hm k picked Eg) as [Hnd Hnth].
    now apply picked_part_of_list.
  - now exists (items_of self k).
Qed.

Lemma items_of_marked (found : Resources) origin_id k :
  items_of (mark_reserved_by found origin_id) k
  = map (fun it : item => dict_set it RESERVED_KEY (VStr origin_id))
        (items_of found k).
Proof. unfold mark_reserved_by. apply items_of_map. Qed.

Lemma hashes_marked (l : list item) origin_id :
  hashes (map (fun it : item => dict_set it RESERVED_KEY (VStr origin_id)) l)
  = hashes l.
Proof.
  unfold hashes. rewrite map_map. apply map_ext. intros it.
  apply hash_of_reserved.
Qed.

(** X13.  A [reserve] that succeeds on a pool in order, for a want naming
    each kind once: the handle's original reservation holds, per wanted
    kind, as many items as were wanted, every one stamped with the
    caller's origin id; the persisted record is the old one with those
    items appended kind by kind; and the record still holds no more of any
    hash than the catalog does, so no catalog item is on record twice. *)
Theorem reserve_grants_what_was_wanted
    (schema_validate : Want -> res unit)
    (overlay : Resources -> Want -> res Resources)
    (pool pool1 : ResourcesPool) (origin_id : string) (want modifiers : Want)
    (handle : ReservedResources) :
  pool_ok pool -> NoDup (dict_keys want) ->
  reserve schema_validate overlay pool origin_id want modifiers
    = Ok (pool1, handle) ->
  exists granted,
    reserved_original handle = Some granted /\
    (forall k wl, In (k, wl) want -> length (items_of granted k) = length wl) /\
    (forall k it, In it (items_of granted k) ->
                  get_or_none it RESERVED_KEY = VStr origin_id) /\
    (forall k, items_of (record pool1) k
               = items_of (record pool) k ++ items_of granted k) /\
    (forall k, exists rest,
        Permutation (hashes (items_of (all_resources pool) k))
                    (hashes (items_of (record pool1) k) ++ rest)) /\
    all_resources pool1 = all_resources pool.
Proof.
  intros (Hcat & Hnd & _) Hwant H.
  apply reserve_Ok_parts in H
    as (avail & found & overlaid & Hwithout & Hfind & -> & ->).
  exists (mark_reserved_by found origin_id).
  destruct (find_Ok _ _ _ _ _ Hfind) as [Hfnd _].
  assert (Hgnd : NoDup (dict_keys (mark_reserved_by found origin_id)))
    by now rewrite mark_reserved_by_keys.
  assert (Hrec : forall k,
             items_of (schema_add (record pool)
                         (mark_reserved_by found origin_id)) k
             = items_of (record pool) k
               ++ items_of (mark_reserved_by found origin_id) k)
    by apply (schema_add_items _ _ Hgnd).
  cbn [reserved_original record rrfile read_reserved all_resources].
  fold (record pool).
  split; [reflexivity|]. split; [|split; [|split; [exact Hrec|split]]].
  - intros k wl Hin. rewrite items_of_marked, length_map.
    destruct (find_Ok_per_kind _ _ _ _ Hwant Hfind k wl Hin)
      as (solution & picked & Hget & _ & _ & Hall).
    unfold items_of. rewrite Hget. symmetry. exact (Forall2_length Hall).
  - intros k it. rewrite items_of_marked. intros Hin.
    apply in_map_iff in Hin as (it0 & <- & _). apply get_or_none_set_same.
  - intros k. destruct (find_part_of_receiver _ _ _ _ Hfind k) as (rest & Hp).
    exists (hashes rest). rewrite Hrec, hashes_app, items_of_marked,
      hashes_marked, <- app_assoc, <- hashes_app.
    rewrite (without_split _ _ _ Hcat Hnd Hwithout k).
    apply Permutation_app_head. unfold hashes. now apply Permutation_map.
  - reflexivity.
Qed.

(** ** Release at exit and release by hand *)

Lemma dict_set_absent {V} (d : list (string * V)) k v :
  dict_get d k = None -> dict_set d k v = d ++ [(k, v)].
Proof.
  induction d as [|[k0 v0] d IH]; cbn [dict_get dict_set app];
    [reflexivity|].
  destruct (String.eqb k0 k); [discriminate|]. intros H. now rewrite IH.
Qed.

Lemma schema_add_fresh (src : Resources) :
  forall dest,
    NoDup (dict_keys src) ->
    (forall k, In k (dict_keys src) -> dict_get dest k = None) ->
    schema_add dest src = dest ++ src.
Proof.
  unfold schema_add. induction src as [|[k l] rest IH]; intros dest Hnd Hfresh;
    cbn [fold_left]; [now rewrite app_nil_r|].
  cbn [dict_keys map fst] in Hnd. inversion Hnd as [|? ? Hnotin Hnd']; subst.
  rewrite (Hfresh k (or_introl eq_refl)).
  rewrite (dict_set_absent dest k l (Hfresh k (or_introl eq_refl))).
  rewrite IH; [now rewrite <- app_assoc|assumption|].
  intros k' Hk'. apply dict_get_None_keys. unfold dict_keys.
  rewrite map_app. intros Hin. apply in_app_or in Hin as [Hin|[<-|[]]].
  - apply (proj1 (dict_get_None_keys dest k')); [|exact Hin].
    apply Hfresh. now right.
  - now apply Hnotin.
Qed.

Lemma granted_in_order (pool : ResourcesPool) (avail found : Resources)
    (want : Want) (skip : option string) (origin_id : string) :
  pool_ok pool ->
  without (all_resources pool) (record pool) = Ok avail ->
  find avail want skip true = Ok found ->
  NoDup (dict_keys (mark_reserved_by found origin_id)) /\
  all_str_hashed (mark_reserved_by found origin_id).
Proof.
  intros (Hcat & Hnd & _) Hwithout Hfind.
  destruct (drop_Ok_hashed _ _ _ no_aliasing (fun _ => eq_refl) Hcat Hwithout)
    as (Havail & _).
  destruct (find_Ok _ _ _ _ _ Hfind) as [Hfnd Hfin].
  split; [now rewrite mark_reserved_by_keys|].
  intros key l it Hin Hit.
  destruct (mark_reserved_by_In _ _ _ _ _ Hin Hit) as (l0 & it0 & H0 & H1 & Hh).
  destruct (items_of_hashed avail key Havail it0) as (s & Hs & Hne);
    [now apply (Hfin key l0)|].
  exists s. split; [congruence|assumption].
Qed.

(** X14.  The exit handler gives back what the process still holds: after
    a [reserve] that succeeded on a pool in order that remembered nothing,
    [clean_up_registered_resources] succeeds, the persisted record holds
    kind by kind the hashes it held before the reservation, nothing is
    remembered any more, the handler is unregistered unless nothing at
    all had been granted, and running the handler again changes
    nothing. *)
Theorem exit_handler_releases_reservation
    (schema_validate : Want -> res unit)
    (overlay : Resources -> Want -> res Resources)
    (pool pool1 : ResourcesPool) (origin_id : string) (want modifiers : Want)
    (handle : ReservedResources) :
  pool_ok pool -> falsy (_remember_to_free pool) = true ->
  reserve schema_validate overlay pool origin_id want modifiers
    = Ok (pool1, handle) ->
  exists pool2,
    clean_up_registered_resources pool1 = Ok pool2 /\
    (forall kind,
        Permutation (hashes (items_of (record pool2) kind))
                    (hashes (items_of (record pool) kind))) /\
    falsy (_remember_to_free pool2) = true /\
    (reserved_original handle <> Some [] ->
     _registered_exit_handler pool2 = false) /\
    all_resources pool2 = all_resources pool /\
    clean_up_registered_resources pool2 = Ok pool2.
Proof.
  intros Hok Hnothing H.
  apply reserve_Ok_parts in H
    as (avail & found & overlaid & Hwithout & Hfind & -> & ->).
  destruct (granted_in_order _ _ _ _ _ origin_id Hok Hwithout Hfind)
    as [Hgnd Hgranted].
  destruct Hok as (Hcat & Hnd & Hrem).
  destruct (drop_Ok_hashed _ _ _ no_aliasing (fun _ => eq_refl) Hcat Hwithout)
    as (_ & Hrec & _).
  rewrite Hnothing.
  rewrite (schema_add_fresh _ [] Hgnd (fun _ _ => eq_refl)). cbn [app].
  destruct (add_then_drop (record pool) _ Hgnd Hrec Hgranted)
    as (record2 & Hdrop & Hperm & _).
  unfold clean_up_registered_resources.
  cbn [_remember_to_free reserved_original].
  destruct (mark_reserved_by found origin_id) as [|kl granted'] eqn:Eg;
    cbn [falsy].
  - eexists. split; [reflexivity|].
    cbn [record rrfile read_reserved schema_add fold_left all_resources
         _remember_to_free falsy _registered_exit_handler].
    fold (record pool). repeat split; try reflexivity. now intros [].
  - unfold pool_free. cbn [rrfile read_reserved]. rewrite Hdrop. cbn [bind].
    unfold forget_freed. cbn [_remember_to_free bind].
    eexists. split; [reflexivity|].
    cbn [record rrfile read_reserved all_resources _remember_to_free falsy
         _registered_exit_handler].
    repeat split; try reflexivity. exact Hperm.
Qed.

(** X15.  Releasing by hand leaves nothing for the exit handler: after a
    [reserve] that succeeded on a pool in order that remembered nothing,
    [free] on the handle empties what the pool remembered and unregisters
    the handler (unless nothing at all had been granted), so that
    [clean_up_registered_resources] afterwards changes nothing; and a
    second [free] on the handle changes nothing either. *)
Theorem free_leaves_nothing_for_exit_handler
    (schema_validate : Want -> res unit)
    (overlay : Resources -> Want -> res Resources)
    (pool pool1 : ResourcesPool) (origin_id : string) (want modifiers : Want)
    (handle : ReservedResources) :
  pool_ok pool -> falsy (_remember_to_free pool) = true ->
  reserve schema_validate overlay pool origin_id want modifiers
    = Ok (pool1, handle) ->
  exists pool2 handle2,
    free pool1 handle = Ok (pool2, handle2) /\
    _remember_to_free pool2 = Some [] /\
    (reserved_original handle <> Some [] ->
     _registered_exit_handler pool2 = false) /\
    reserved_original handle2 = None /\
    reserved handle2 = reserved handle /\
    clean_up_registered_resources pool2 = Ok pool2 /\
    free pool2 handle2 = Ok (pool2, handle2).
Proof.
  intros Hok Hnothing H.
  apply reserve_Ok_parts in H
    as (avail & found & overlaid & Hwithout & Hfind & -> & ->).
  destruct (granted_in_order _ _ _ _ _ origin_id Hok Hwithout Hfind)
    as [Hgnd Hgranted].
  destruct Hok as (Hcat & Hnd & Hrem).
  destruct (drop_Ok_hashed _ _ _ no_aliasing (fun _ => eq_refl) Hcat Hwithout)
    as (_ & Hrec & _).
  rewrite Hnothing.
  destruct (add_then_drop (record pool) _ Hgnd Hrec Hgranted)
    as (record2 & Hdrop & _ & _).
  destruct (add_then_drop [] _ Hgnd (fun _ _ _ (H : In _ []) => match H with end)
              Hgranted)
    as (remembered2 & Hdrop' & _ & Hkeys).
  assert (remembered2 = []) as ->.
  { destruct remembered2 as [|[k l] r]; [reflexivity|].
    destruct (Hkeys k (or_introl eq_refl)). }
  unfold free. cbn [reserved_original read_reserved].
  destruct (mark_reserved_by found origin_id) as [|kl granted'] eqn:Eg;
    cbn [falsy bind].
  - eexists _, _. split; [reflexivity|].
    unfold clean_up_registered_resources.
    cbn [schema_add fold_left _remember_to_free falsy reserved_original
         reserved _registered_exit_handler bind origin].
    repeat split; try reflexivity. now intros [].
  - unfold pool_free. cbn [rrfile read_reserved]. rewrite Hdrop. cbn [bind].
    unfold forget_freed. cbn [_remember_to_free]. rewrite Hdrop'. cbn [bind].
    eexists _, _. split; [reflexivity|].
    unfold clean_up_registered_resources.
    cbn [_remember_to_free falsy reserved_original reserved
         _registered_exit_handler bind origin].
    repeat split; reflexivity.
Qed.

(** ** What is left of the catalog *)

(** X16.  When [without] succeeds on a catalog whose items are all hashed,
    for a record naming each kind once, the catalog is split hash for
    hash: per kind its hashes are those of the record together with those
    of the result, each as often as it occurs.  Every item of the result
    is an item of the catalog, the record's items carry hashes too, and
    every kind of the record is a kind of the catalog. *)
Theorem without_partitions_catalog (catalog r avail : Resources) :
  all_str_hashed catalog -> NoDup (dict_keys r) ->
  without catalog r = Ok avail ->
  (forall k,
      Permutation (hashes (items_of catalog k))
                  (hashes (items_of r k) ++ hashes (items_of avail k))) /\
  (forall k it, In it (items_of avail k) -> In it (items_of catalog k)) /\
  all_str_hashed r /\
  (forall k, In k (dict_keys r) -> dict_get catalog k <> None).
Proof.
  intros Hcat Hnd H.
  split; [exact (without_split _ _ _ Hcat Hnd H)|].
  unfold without in H.
  destruct (drop_Ok_hashed _ _ _ no_aliasing (fun _ => eq_refl) Hcat H)
    as (_ & Hr & Hsub).
  split; [exact Hsub|]. split; [exact Hr|].
  exact (proj2 (drop_Ok_keys _ _ _ no_aliasing (fun _ => eq_refl) Hnd H)).
Qed.

(** X17.  [without] succeeds whenever catalog and record are hashed
    throughout, the record names each kind once, and per kind of the
    record the catalog holds the kind with the record's hashes among its
    own ([rest] being the others); per such kind the result then holds
    exactly the others, and the other kinds are as in the catalog. *)
Theorem without_succeeds_within_catalog (catalog r : Resources)
    (rest : string -> list value) :
  all_str_hashed catalog -> all_str_hashed r -> NoDup (dict_keys r) ->
  (forall k rl, In (k, rl) r ->
     dict_get catalog k <> None /\
     Permutation (hashes (items_of catalog k)) (hashes rl ++ rest k)) ->
  exists avail,
    without catalog r = Ok avail /\
    (forall k, In k (dict_keys r) ->
               Permutation (hashes (items_of avail k)) (rest k)) /\
    (forall k, ~ In k (dict_keys r) -> dict_get avail k = dict_get catalog k) /\
    (forall k, In k (dict_keys r) -> dict_get avail k <> Some []).
Proof.
  intros Hcat Hr Hnd Hin. unfold without.
  apply (drop_succeeds r catalog rest Hnd).
  intros key rl Hkr. destruct (Hin key rl Hkr) as [Hget Hperm].
  split; [exact Hget|]. split; [|split; [|exact Hperm]].
  - now apply (items_of_hashed catalog key).
  - intros d Hd. now apply (Hr key rl).
Qed.

(** ** Instances *)

Lemma find_serves_every_slot_witness :
  let m1 : item := [(HASH_KEY, VStr "m1")] in
  let m2 : item := [(HASH_KEY, VStr "m2")] in
  let self : Resources := [("modem", [m1; m2])] in
  let want : Want := [("modem", [VDict []; VDict m2])] in
  NoDup (dict_keys want) /\
  find self want None true = Ok self /\
  exists solution picked,
    dict_get self "modem" = Some picked /\
    NoDup solution /\
    Forall2 (fun i it => nth_error (items_of self "modem") i = Some it)
            solution picked /\
    Forall2 (fun w it => marked None it = false /\
                         item_matches (VDict it) w None = Ok true)
            [VDict []; VDict m2] picked.
Proof.
  intros m1 m2 self want.
  assert (Hnd : NoDup (dict_keys want)) by (constructor; [intros []|constructor]).
  assert (Hf : find self want None true = Ok self) by reflexivity.
  split; [exact Hnd|]. split; [exact Hf|].
  exact (find_serves_every_slot self want None self Hnd Hf "modem" _
           (or_introl eq_refl)).
Defined.

Lemma find_succeeds_when_servable_witness :
  let m1 : item := [(HASH_KEY, VStr "m1")] in
  let m2 : item := [(HASH_KEY, VStr "m2")] in
  let self : Resources := [("modem", [m1; m2])] in
  let want : Want := [("modem", [VDict []; VDict m1])] in
  (forall key want_list,
      In (key, want_list) want ->
      comparable (items_of self key) want_list /\
      exists a, serves (items_of self key) None want_list a) /\
  exists found, find self want None true = Ok found.
Proof.
  intros m1 m2 self want.
  assert (H : forall key want_list,
             In (key, want_list) want ->
             comparable (items_of self key) want_list /\
             exists a, serves (items_of self key) None want_list a).
  { intros key want_list [[= <- <-]|[]]. split.
    - intros it w [<-|[<-|[]]] [<-|[<-|[]]]; eexists; reflexivity.
    - exists [1; 0]. split.
      + constructor; [intros [[=]|[]]|]. constructor; [intros []|constructor].
      + constructor; [|constructor; [|constructor]].
        * exists m2. repeat split.
        * exists m1. repeat split. }
  split; [exact H|].
  exact (find_succeeds_when_servable self want None true H).
Defined.

Lemma find_reports_first_unmet_slot_witness :
  let m1 : item := [(HASH_KEY, VStr "m1")] in
  let m2 : item := [(HASH_KEY, VStr "m2")] in
  let b1 : item := [(HASH_KEY, VStr "b1")] in
  let self : Resources := [("modem", [m1]); ("bts", [b1])] in
  let want : Want :=
    [("modem", [VDict []; VDict m2; VDict []]); ("bts", [VDict []])] in
  sorted_items want
  = [("bts", [VDict []])]
    ++ ("modem", [VDict []] ++ VDict m2 :: [VDict []]) :: [] /\
  comparable (items_of self "modem") ([VDict []] ++ [VDict m2]) /\
  (forall w', In w' [VDict []] ->
              exists j, candidate_at (items_of self "modem") None w' j) /\
  (forall j, ~ candidate_at (items_of self "modem") None (VDict m2) j) /\
  find self want None true
    = Raise (NoResourceExn
               [Lit "No matching resource available for "; FmtS "modem";
                Lit " = "; FmtR (VDict m2)]).
Proof.
  intros m1 m2 b1 self want.
  assert (Hsorted : sorted_items want
                    = [("bts", [VDict []])]
                      ++ ("modem", [VDict []] ++ VDict m2 :: [VDict []]) :: [])
    by reflexivity.
  assert (Hcmp : comparable (items_of self "modem") ([VDict []] ++ [VDict m2])).
  { intros it w [<-|[]] [<-|[<-|[]]]; eexists; reflexivity. }
  assert (Hex : forall w', In w' [VDict []] ->
                  exists j, candidate_at (items_of self "modem") None w' j).
  { intros w' [<-|[]]. exists 0, m1. repeat split. }
  assert (Hno : forall j,
             ~ candidate_at (items_of self "modem") None (VDict m2) j).
  { intros [|[|j]] (it & Hn & _ & Hm); try discriminate Hn.
    injection Hn as <-. discriminate Hm. }
  assert (Hbefore : forall key' want_list',
             In (key', want_list') [("bts", [VDict []])] ->
             exists found, find self [(key', want_list')] None true = Ok found).
  { intros key' want_list' [[= <- <-]|[]]. eexists. reflexivity. }
  split; [exact Hsorted|]. split; [exact Hcmp|]. split; [exact Hex|].
  split; [exact Hno|].
  exact (proj1 (find_reports_first_unmet_slot self want _ _ "modem"
                  [VDict []] [VDict []] (VDict m2) None Hsorted Hcmp Hex Hno)
           Hbefore).
Defined.

Lemma get_hands_out_first_candidate_witness :
  let u1 : item := [(HASH_KEY, VStr "m1"); (USED_KEY, VBool true)] in
  let m2 : item := [(HASH_KEY, VStr "m2")] in
  let u2 : item := [(HASH_KEY, VStr "m2"); (USED_KEY, VBool true)] in
  let handle l := {| origin := "suite"; reserved_original := None;
                     reserved := [("modem", l)] |} in
  get (handle [u1; m2]) "modem" None = Ok (handle [u1; u2], u2) /\
  exists i pick,
    nth_error [u1; m2] i = Some pick /\
    marked (Some USED_KEY) pick = false /\
    item_matches (VDict pick) (VDict []) None = Ok true /\
    (forall i', i' < i ->
                ~ candidate_at [u1; m2] (Some USED_KEY) (VDict []) i') /\
    u2 = dict_set pick USED_KEY (VBool true) /\
    reserved (handle [u1; u2])
    = dict_set (reserved (handle [u1; m2])) "modem" (list_set [u1; m2] i u2) /\
    reserved_original (handle [u1; u2]) = reserved_original (handle [u1; m2]).
Proof.
  intros u1 m2 u2 handle.
  assert (H : get (handle [u1; m2]) "modem" None = Ok (handle [u1; u2], u2))
    by reflexivity.
  split; [exact H|].
  exact (get_hands_out_first_candidate _ _ "modem" None _ H).
Defined.

Lemma get_keeps_reservation_witness :
  let u1 : item := [(HASH_KEY, VStr "m1"); (USED_KEY, VBool true)] in
  let m2 : item := [(HASH_KEY, VStr "m2")] in
  let u2 : item := [(HASH_KEY, VStr "m2"); (USED_KEY, VBool true)] in
  let handle l := {| origin := "suite"; reserved_original := None;
                     reserved := [("modem", l)] |} in
  get (handle [u1; m2]) "modem" (Some (VDict m2)) = Ok (handle [u1; u2], u2) /\
  counts (handle [u1; u2]) = counts (handle [u1; m2]) /\
  forall k, hashes (items_of (reserved (handle [u1; u2])) k)
            = hashes (items_of (reserved (handle [u1; m2])) k).
Proof.
  intros u1 m2 u2 handle.
  assert (H : get (handle [u1; m2]) "modem" (Some (VDict m2))
              = Ok (handle [u1; u2], u2)) by reflexivity.
  split; [exact H|].
  destruct (get_keeps_reservation _ _ "modem" (Some (VDict m2)) _ H)
    as (_ & Hcounts & Hhashes & _).
  split; [exact Hcounts|exact Hhashes].
Defined.

Lemma get_failure_causes_witness :
  let u1 : item := [(HASH_KEY, VStr "m1"); (USED_KEY, VBool true)] in
  let m2 : item := [(HASH_KEY, VStr "m2")] in
  let sp : value := VDict [(HASH_KEY, VStr "m1")] in
  let self := {| origin := "suite"; reserved_original := None;
                 reserved := [("modem", [u1; m2])] |} in
  comparable [u1; m2] [sp] /\
  (forall j, ~ candidate_at [u1; m2] (Some USED_KEY) sp j) /\
  candidate_at [u1; m2] None sp 0 /\
  get self "modem" (Some sp) =
  Raise (NoResourceExn
           [Lit "When trying to use instance nr "; FmtD 2;
            Lit " of "; FmtR (VStr "modem"); Lit ": ";
            Lit "No unused resource left that matches the requirements; Of reserved ";
            FmtD 2; Lit " x "; FmtR (VStr "modem"); Lit ", "; FmtD 1;
            Lit " match the requirements, but all are already in use; Requirements: ";
            FmtR sp]).
Proof.
  intros u1 m2 sp self.
  assert (Hcmp : comparable [u1; m2] [sp]).
  { intros it w [<-|[<-|[]]] [<-|[]]; eexists; reflexivity. }
  assert (Hno : forall j, ~ candidate_at [u1; m2] (Some USED_KEY) sp j).
  { intros [|[|[|j]]] (it & Hn & Hmk & Hm); try discriminate Hn.
    - injection Hn as <-. discriminate Hmk.
    - injection Hn as <-. discriminate Hm. }
  assert (Hany : candidate_at [u1; m2] None sp 0).
  { exists u1. repeat split. }
  split; [exact Hcmp|]. split; [exact Hno|]. split; [exact Hany|].
  exact (proj2 (proj2 (get_failure_causes self "modem" (Some sp) Hcmp Hno))
           (ex_intro _ 0 Hany) (le_n 2)).
Defined.

Lemma get_succeeds_when_candidate_witness :
  let u1 : item := [(HASH_KEY, VStr "m1"); (USED_KEY, VBool true)] in
  let m2 : item := [(HASH_KEY, VStr "m2")] in
  let self := {| origin := "suite"; reserved_original := None;
                 reserved := [("modem", [u1; m2])] |} in
  comparable [u1; m2] [VDict []] /\
  candidate_at [u1; m2] (Some USED_KEY) (VDict []) 1 /\
  exists self' r, get self "modem" None = Ok (self', r).
Proof.
  intros u1 m2 self.
  assert (Hcmp : comparable [u1; m2] [VDict []]).
  { intros it w [<-|[<-|[]]] [<-|[]]; eexists; reflexivity. }
  assert (Hc : candidate_at [u1; m2] (Some USED_KEY) (VDict []) 1).
  { exists m2. repeat split. }
  split; [exact Hcmp|]. split; [exact Hc|].
  exact (get_succeeds_when_candidate self "modem" None Hcmp (ex_intro _ 1 Hc)).
Defined.

Lemma put_all_releases_every_item_witness :
  let u1 : item := [(HASH_KEY, VStr "m1"); (USED_KEY, VBool true)] in
  let u2 : item := [(HASH_KEY, VStr "m2"); (USED_KEY, VBool true)] in
  let self := {| origin := "suite"; reserved_original := None;
                 reserved := [("modem", [u1; u2])] |} in
  items_of (reserved self) "modem" = [u1; u2] /\
  exists self', get (put_all self) "modem" None = Ok (self', u1).
Proof.
  intros u1 u2 self.
  assert (H : items_of (reserved self) "modem" = [u1; u2]) by reflexivity.
  split; [exact H|].
  exact (proj2 (proj2 (proj2 (proj2 (put_all_releases_every_item self))))
           "modem" u1 [u2] H).
Defined.

Lemma lac_rac_cellid_stay_in_range_witness :
  let pool := {| all_resources := []; rrfile := None;
                 token_files := [(token_path "lac", "65535")];
                 _remember_to_free := None;
                 _registered_exit_handler := false |} in
  dict_get (token_files pool) (token_path "lac") = Some "65535" /\
  String.length "65535" <= 4300 /\
  py_int (strip "65535") = Ok 65535%Z /\
  exists self', next_lac pool = Ok (self', "1").
Proof.
  intros pool.
  assert (Hfile : dict_get (token_files pool) (token_path "lac") = Some "65535")
    by reflexivity.
  assert (Hlen : String.length "65535" <= 4300) by (cbn; lia).
  assert (Hint : py_int (strip "65535") = Ok 65535%Z) by reflexivity.
  split; [exact Hfile|]. split; [exact Hlen|]. split; [exact Hint|].
  exact (proj1 (proj2 (proj2 (proj2 lac_rac_cellid_stay_in_range)))
           pool "65535" Hfile Hlen Hint).
Defined.

Lemma bvci_range_and_reserved_values_witness :
  let pool := {| all_resources := []; rrfile := None;
                 token_files := [(token_path "bvci", "65535")];
                 _remember_to_free := None;
                 _registered_exit_handler := false |} in
  dict_get (token_files pool) (token_path "bvci") = Some "65535" /\
  String.length "65535" <= 4300 /\
  py_int (strip "65535") = Ok 65535%Z /\
  exists self', next_bvci pool = Ok (self', "2").
Proof.
  intros pool.
  assert (Hfile : dict_get (token_files pool) (token_path "bvci")
                  = Some "65535") by reflexivity.
  assert (Hlen : String.length "65535" <= 4300) by (cbn; lia).
  assert (Hint : py_int (strip "65535") = Ok 65535%Z) by reflexivity.
  split; [exact Hfile|]. split; [exact Hlen|]. split; [exact Hint|].
  exact (proj2 (proj2 bvci_range_and_reserved_values) pool "65535" Hfile Hlen Hint).
Defined.

Lemma next_persistent_value_touches_own_file_witness :
  let pool := {| all_resources := []; rrfile := None;
                 token_files := [(token_path "lac", "7");
                                 (token_path "bvci", "2")];
                 _remember_to_free := None;
                 _registered_exit_handler := false |} in
  let pool' := {| all_resources := []; rrfile := None;
                  token_files := [(token_path "lac", "8");
                                  (token_path "bvci", "2")];
                  _remember_to_free := None;
                  _registered_exit_handler := false |} in
  next_lac pool = Ok (pool', "8") /\
  dict_get (token_files pool') (token_path "lac") = Some "8" /\
  forall token', token' <> "lac" ->
    dict_get (token_files pool') (token_path token')
    = dict_get (token_files pool) (token_path token').
Proof.
  intros pool pool'.
  assert (H : next_lac pool = Ok (pool', "8")) by reflexivity.
  split; [exact H|].
  pose proof H as H'. unfold next_lac in H'.
  destruct (next_persistent_value_touches_own_file _ _ _ _ _ _ _ H')
    as (Hown & Hother & _).
  split; [exact Hown|exact Hother].
Defined.

Lemma drop_missing_kind_raises_KeyError_witness :
  let self : Resources := [("modem", [[(HASH_KEY, VStr "m1")]])] in
  let reserved : Resources := [("bts", [])] in
  same_object no_aliasing = false /\
  dict_get self "bts" = None /\
  drop self reserved no_aliasing true = Raise (KeyError "bts").
Proof.
  intros self reserved.
  assert (Hobj : same_object no_aliasing = false) by reflexivity.
  assert (Hnone : dict_get self "bts" = None) by reflexivity.
  split; [exact Hobj|]. split; [exact Hnone|].
  exact (proj1 (drop_missing_kind_raises_KeyError self [] no_aliasing "bts"
                  Hobj Hnone) true).
Defined.

Lemma reserve_grants_what_was_wanted_witness :
  let m1 : item := [(HASH_KEY, VStr "m1")] in
  let m2 : item := [(HASH_KEY, VStr "m2")] in
  let r1 : item := [(HASH_KEY, VStr "m1"); (RESERVED_KEY, VStr "suite-1")] in
  let r2 : item := [(HASH_KEY, VStr "m2"); (RESERVED_KEY, VStr "suite-2")] in
  let catalog : Resources := [("modem", [m1; m2])] in
  let pool := {| all_resources := catalog;
                 rrfile := Some [("modem", [r1])];
                 token_files := []; _remember_to_free := None;
                 _registered_exit_handler := false |} in
  let pool1 := {| all_resources := catalog;
                  rrfile := Some [("modem", [r1; r2])];
                  token_files := [];
                  _remember_to_free := Some [("modem", [r2])];
                  _registered_exit_handler := true |} in
  let handle := {| origin := "suite-2";
                   reserved_original := Some [("modem", [r2])];
                   reserved := [("modem", [r2])] |} in
  let validate (_ : Want) : res unit := Ok tt in
  let overlay (r : Resources) (_ : Want) : res Resources := Ok r in
  let want : Want := [("modem", [VDict []])] in
  pool_ok pool /\ NoDup (dict_keys want) /\
  reserve validate overlay pool "suite-2" want [] = Ok (pool1, handle) /\
  exists granted,
    reserved_original handle = Some granted /\
    (forall k wl, In (k, wl) want -> length (items_of granted k) = length wl) /\
    (forall k, items_of (record pool1) k
               = items_of (record pool) k ++ items_of granted k).
Proof.
  intros m1 m2 r1 r2 catalog pool pool1 handle validate overlay want.
  assert (Hok : pool_ok pool).
  { split; [|split].
    - intros key l it [[= <- <-]|[]] [<-|[<-|[]]];
        eexists; (split; [reflexivity|discriminate]).
    - constructor; [intros []|constructor].
    - intros key l it []. }
  assert (Hnd : NoDup (dict_keys want))
    by (constructor; [intros []|constructor]).
  assert (Hres : reserve validate overlay pool "suite-2" want []
                 = Ok (pool1, handle)) by reflexivity.
  split; [exact Hok|]. split; [exact Hnd|]. split; [exact Hres|].
  destruct (reserve_grants_what_was_wanted _ _ _ _ _ _ _ _ Hok Hnd Hres)
    as (granted & Horig & Hlen & _ & Hrec & _).
  exists granted. split; [exact Horig|]. split; [exact Hlen|exact Hrec].
Defined.

Lemma exit_handler_releases_reservation_witness :
  let m1 : item := [(HASH_KEY, VStr "m1")] in
  let m2 : item := [(HASH_KEY, VStr "m2")] in
  let r1 : item := [(HASH_KEY, VStr "m1"); (RESERVED_KEY, VStr "suite-1")] in
  let r2 : item := [(HASH_KEY, VStr "m2"); (RESERVED_KEY, VStr "suite-2")] in
  let catalog : Resources := [("modem", [m1; m2])] in
  let pool := {| all_resources := catalog;
                 rrfile := Some [("modem", [r1])];
                 token_files := []; _remember_to_free := None;
                 _registered_exit_handler := false |} in
  let pool1 := {| all_resources := catalog;
                  rrfile := Some [("modem", [r1; r2])];
                  token_files := [];
                  _remember_to_free := Some [("modem", [r2])];
                  _registered_exit_handler := true |} in
  let handle := {| origin := "suite-2";
                   reserved_original := Some [("modem", [r2])];
                   reserved := [("modem", [r2])] |} in
  let validate (_ : Want) : res unit := Ok tt in
  let overlay (r : Resources) (_ : Want) : res Resources := Ok r in
  pool_ok pool /\ falsy (_remember_to_free pool) = true /\
  reserve validate overlay pool "suite-2" [("modem", [VDict []])] []
    = Ok (pool1, handle) /\
  exists pool2,
    clean_up_registered_resources pool1 = Ok pool2 /\
    (forall kind,
        Permutation (hashes (items_of (record pool2) kind))
                    (hashes (items_of (record pool) kind))) /\
    falsy (_remember_to_free pool2) = true.
Proof.
  intros m1 m2 r1 r2 catalog pool pool1 handle validate overlay.
  assert (Hok : pool_ok pool).
  { split; [|split].
    - intros key l it [[= <- <-]|[]] [<-|[<-|[]]];
        eexists; (split; [reflexivity|discriminate]).
    - constructor; [intros []|constructor].
    - intros key l it []. }
  assert (Hnothing : falsy (_remember_to_free pool) = true) by reflexivity.
  assert (Hres : reserve validate overlay pool "suite-2"
                   [("modem", [VDict []])] [] = Ok (pool1, handle))
    by reflexivity.
  split; [exact Hok|]. split; [exact Hnothing|]. split; [exact Hres|].
  destruct (exit_handler_releases_reservation _ _ _ _ _ _ _ _
              Hok Hnothing Hres)
    as (pool2 & Hrun & Hperm & Hrem & _).
  exists pool2. split; [exact Hrun|]. split; [exact Hperm|exact Hrem].
Defined.

Lemma free_leaves_nothing_for_exit_handler_witness :
  let m1 : item := [(HASH_KEY, VStr "m1")] in
  let m2 : item := [(HASH_KEY, VStr "m2")] in
  let r1 : item := [(HASH_KEY, VStr "m1"); (RESERVED_KEY, VStr "suite-1")] in
  let catalog : Resources := [("modem", [m1; m2])] in
  let pool := {| all_resources := catalog; rrfile := None;
                 token_files := []; _remember_to_free := None;
                 _registered_exit_handler := false |} in
  let pool1 := {| all_resources := catalog;
                  rrfile := Some [("modem", [r1])];
                  token_files := [];
                  _remember_to_free := Some [("modem", [r1])];
                  _registered_exit_handler := true |} in
  let handle := {| origin := "suite-1";
                   reserved_original := Some [("modem", [r1])];
                   reserved := [("modem", [r1])] |} in
  let validate (_ : Want) : res unit := Ok tt in
  let overlay (r : Resources) (_ : Want) : res Resources := Ok r in
  pool_ok pool /\ falsy (_remember_to_free pool) = true /\
  reserve validate overlay pool "suite-1" [("modem", [VDict []])] []
    = Ok (pool1, handle) /\
  exists pool2 handle2,
    free pool1 handle = Ok (pool2, handle2) /\
    _remember_to_free pool2 = Some [] /\
    clean_up_registered_resources pool2 = Ok pool2 /\
    free pool2 handle2 = Ok (pool2, handle2).
Proof.
  intros m1 m2 r1 catalog pool pool1 handle validate overlay.
  assert (Hok : pool_ok pool).
  { split; [|split].
    - intros key l it [[= <- <-]|[]] [<-|[<-|[]]];
        eexists; (split; [reflexivity|discriminate]).
    - constructor.
    - intros key l it []. }
  assert (Hnothing : falsy (_remember_to_free pool) = true) by reflexivity.
  assert (Hres : reserve validate overlay pool "suite-1"
                   [("modem", [VDict []])] [] = Ok (pool1, handle))
    by reflexivity.
  split; [exact Hok|]. split; [exact Hnothing|]. split; [exact Hres|].
  destruct (free_leaves_nothing_for_exit_handler _ _ _ _ _ _ _ _
              Hok Hnothing Hres)
    as (pool2 & handle2 & Hfree & Hrem & _ & _ & _ & Hexit & Hagain).
  exists pool2, handle2.
  split; [exact Hfree|]. split; [exact Hrem|]. split; [exact Hexit|exact Hagain].
Defined.

Lemma without_partitions_catalog_witness :
  let m1 : item := [(HASH_KEY, VStr "m1")] in
  let m2 : item := [(HASH_KEY, VStr "m2")] in
  let r1 : item := [(HASH_KEY, VStr "m1"); (RESERVED_KEY, VStr "suite-1")] in
  let catalog : Resources := [("modem", [m1; m2])] in
  let r : Resources := [("modem", [r1])] in
  let avail : Resources := [("modem", [m2])] in
  all_str_hashed catalog /\ NoDup (dict_keys r) /\
  without catalog r = Ok avail /\
  forall k,
    Permutation (hashes (items_of catalog k))
                (hashes (items_of r k) ++ hashes (items_of avail k)).
Proof.
  intros m1 m2 r1 catalog r avail.
  assert (Hcat : all_str_hashed catalog).
  { intros key l it [[= <- <-]|[]] [<-|[<-|[]]];
      eexists; (split; [reflexivity|discriminate]). }
  assert (Hnd : NoDup (dict_keys r)) by (constructor; [intros []|constructor]).
  assert (H : without catalog r = Ok avail) by reflexivity.
  split; [exact Hcat|]. split; [exact Hnd|]. split; [exact H|].
  exact (proj1 (without_partitions_catalog catalog r avail Hcat Hnd H)).
Defined.

Lemma without_succeeds_within_catalog_witness :
  let m1 : item := [(HASH_KEY, VStr "m1")] in
  let m2 : item := [(HASH_KEY, VStr "m2")] in
  let r1 : item := [(HASH_KEY, VStr "m1"); (RESERVED_KEY, VStr "suite-1")] in
  let catalog : Resources := [("modem", [m1; m2])] in
  let r : Resources := [("modem", [r1])] in
  let rest (_ : string) : list value := [VStr "m2"] in
  all_str_hashed catalog /\ all_str_hashed r /\ NoDup (dict_keys r) /\
  (forall k rl, In (k, rl) r ->
     dict_get catalog k <> None /\
     Permutation (hashes (items_of catalog k)) (hashes rl ++ rest k)) /\
  exists avail,
    without catalog r = Ok avail /\
    (forall k, In k (dict_keys r) ->
               Permutation (hashes (items_of avail k)) (rest k)).
Proof.
  intros m1 m2 r1 catalog r rest.
  assert (Hcat : all_str_hashed catalog).
  { intros key l it [[= <- <-]|[]] [<-|[<-|[]]];
      eexists; (split; [reflexivity|discriminate]). }
  assert (Hr : all_str_hashed r).
  { intros key l it [[= <- <-]|[]] [<-|[]].
    eexists; (split; [reflexivity|discriminate]). }
  assert (Hnd : NoDup (dict_keys r)) by (constructor; [intros []|constructor]).
  assert (Hin : forall k rl, In (k, rl) r ->
            dict_get catalog k <> None /\
            Permutation (hashes (items_of catalog k)) (hashes rl ++ rest k)).
  { intros k rl [[= <- <-]|[]]. split; [discriminate|apply Permutation_refl]. }
  split; [exact Hcat|]. split; [exact Hr|]. split; [exact Hnd|].
  split; [exact Hin|].
  destruct (without_succeeds_within_catalog catalog r rest Hcat Hr Hnd Hin)
    as (avail & Hrun & Hperm & _).
  exists avail. split; [exact Hrun|exact Hperm].
Defined.

(** ** The pool between operations *)

(** X18.  [reserve] and [free] keep the pool in order.  After a [reserve]
    that succeeds on a pool in order, the catalog is still hashed
    throughout, the record still names each kind once and what is
    remembered for release is hashed; the grant names each kind once.
    After a [free] that succeeds on a pool in order, for a handle whose
    original reservation names each kind once, the same holds. *)
Theorem reserve_and_free_keep_pool_in_order :
  (forall (schema_validate : Want -> res unit)
          (overlay : Resources -> Want -> res Resources)
          (pool pool1 : ResourcesPool) (origin_id : string)
          (want modifiers : Want) (handle : ReservedResources),
      pool_ok pool ->
      reserve schema_validate overlay pool origin_id want modifiers
        = Ok (pool1, handle) ->
      pool_ok pool1 /\
      exists granted,
        reserved_original handle = Some granted /\
        NoDup (dict_keys granted)) /\
  (forall (pool pool2 : ResourcesPool) (handle handle2 : ReservedResources),
      pool_ok pool ->
      (forall granted, reserved_original handle = Some granted ->
                       NoDup (dict_keys granted)) ->
      free pool handle = Ok (pool2, handle2) ->
      pool_ok pool2).
Proof.
  split.
  - intros sv ov pool pool1 origin_id want modifiers handle Hok H.
    apply reserve_Ok_parts in H
      as (avail & found & overlaid & Hwithout & Hfind & -> & ->).
    destruct (granted_in_order _ _ _ _ _ origin_id Hok Hwithout Hfind)
      as [Hgnd Hgranted].
    destruct Hok as (Hcat & Hnd & Hrem).
    split; [|now eexists].
    split; [exact Hcat|]. split.
    + cbn [record rrfile read_reserved]. now apply schema_add_keys.
    + cbn [_remember_to_free read_reserved]. apply schema_add_hashed;
        [|exact Hgranted].
      destruct (falsy (_remember_to_free pool)); [intros ? ? ? []|exact Hrem].
  - intros pool pool2 handle handle2 (Hcat & Hnd & Hrem) Hgnd H.
    unfold free in H. apply bind_Ok in H as (pool' & Hfree & [= <- _]).
    destruct (reserved_original handle) as [granted|] eqn:Eg;
      [|injection Hfree as <-; now repeat split].
    specialize (Hgnd granted eq_refl).
    destruct (falsy (Some granted));
      [injection Hfree as <-; now repeat split|].
    cbn [read_reserved] in Hfree. unfold pool_free in Hfree.
    apply bind_Ok in Hfree as (record2 & Hdrop & Hforget).
    unfold forget_freed in Hforget. cbn [_remember_to_free] in Hforget.
    destruct (_remember_to_free pool) as [remembered|] eqn:Er;
      [|discriminate].
    apply bind_Ok in Hforget as (remembered2 & Hdrop' & [= <-]).
    split; [exact Hcat|]. split.
    + cbn [record rrfile read_reserved].
      exact (proj1 (drop_Ok_keys _ _ _ no_aliasing (fun _ => eq_refl)
                      Hgnd Hdrop) Hnd).
    + cbn [_remember_to_free read_reserved].
      exact (proj1 (drop_Ok_hashed _ _ _ no_aliasing (fun _ => eq_refl)
                      Hrem Hdrop')).
Qed.

Lemma reserve_and_free_keep_pool_in_order_witness :
  let m1 : item := [(HASH_KEY, VStr "m1")] in
  let m2 : item := [(HASH_KEY, VStr "m2")] in
  let r1 : item := [(HASH_KEY, VStr "m1"); (RESERVED_KEY, VStr "suite-1")] in
  let catalog : Resources := [("modem", [m1; m2])] in
  let pool := {| all_resources := catalog; rrfile := None;
                 token_files := []; _remember_to_free := None;
                 _registered_exit_handler := false |} in
  let pool1 := {| all_resources := catalog;
                  rrfile := Some [("modem", [r1])];
                  token_files := [];
                  _remember_to_free := Some [("modem", [r1])];
                  _registered_exit_handler := true |} in
  let handle := {| origin := "suite-1";
                   reserved_original := Some [("modem", [r1])];
                   reserved := [("modem", [r1])] |} in
  let validate (_ : Want) : res unit := Ok tt in
  let overlay (r : Resources) (_ : Want) : res Resources := Ok r in
  pool_ok pool /\
  reserve validate overlay pool "suite-1" [("modem", [VDict []])] []
    = Ok (pool1, handle) /\
  pool_ok pool1.
Proof.
  intros m1 m2 r1 catalog pool pool1 handle validate overlay.
  assert (Hok : pool_ok pool).
  { split; [|split].
    - intros key l it [[= <- <-]|[]] [<-|[<-|[]]];
        eexists; (split; [reflexivity|discriminate]).
    - constructor.
    - intros key l it []. }
  assert (Hres : reserve validate overlay pool "suite-1"
                   [("modem", [VDict []])] [] = Ok (pool1, handle))
    by reflexivity.
  split; [exact Hok|]. split; [exact Hres|].
  exact (proj1 (proj1 reserve_and_free_keep_pool_in_order
                  _ _ _ _ _ _ _ _ Hok Hres)).
Defined.

(** ** Callers of one lock file *)














